(** * horse_model_project: feature transforms, grouped cross-validation,
      softmax calibration and the edge backtest.

    The Python sources are thin layers over pandas, numpy and scikit-learn.
    The development embeds the three source modules
      - [src/features.py]            (module [Features]),
      - [src/model.py]               (module [Model]),
      - [src/processing/combine.py]  (module [Combine]),
    on top of small executable models of the library calls they make
    (modules [Num], [Pandas], [Sklearn]).

    Numbers.  In [features.py] and [model.py] a float64 cell is a [num]: a
    real number, one of the two infinities, or NaN.  Arithmetic on finite
    cells is exact there: rounding is not represented, and of the overflows
    only that of [np.exp], which [softmax_stable] is written to avoid.
    [combine.py] only divides and subtracts, so it is embedded over the
    kernel's binary64 floats and is bit-exact. *)

From Stdlib Require Import Floats.
From Stdlib Require Import String Ascii DecimalString.
From Stdlib Require Import Reals Lra Lia ZArith Bool Arith List.
From Stdlib Require Import Sorted Permutation.
From Stdlib Require DecimalNat.
Import ListNotations.

Set Implicit Arguments.

(** A decimal float literal denotes the nearest binary64 value, as it does
    in Python. *)
Set Warnings "-inexact-float".

(* ================================================================== *)
(** * Exceptions *)

(** The Python exceptions the embedded code can raise. *)
Inductive exn : Type :=
| KeyError (key : string)
| ValueError (msg : string)
| TypeError (msg : string).

Definition result (A : Type) : Type := (exn + A)%type.

Definition ret {A : Type} (a : A) : result A := inr a.
Definition raise {A : Type} (e : exn) : result A := inl e.

Definition bind {A B : Type} (m : result A) (k : A -> result B) : result B :=
  match m with
  | inl e => inl e
  | inr a => k a
  end.

Declare Scope result_scope.
Delimit Scope result_scope with result.
Notation "x <- m ;; k" := (bind m (fun x => k))
  (at level 61, m at next level, right associativity) : result_scope.
Notation "' p <- m ;; k" := (bind m (fun x => match x with p => k end))
  (at level 61, p pattern, m at next level, right associativity) : result_scope.
Open Scope result_scope.

Fixpoint mapM {A B : Type} (f : A -> result B) (l : list A) : result (list B) :=
  match l with
  | [] => ret []
  | a :: l' => b <- f a ;; bs <- mapM f l' ;; ret (b :: bs)
  end.

(* ================================================================== *)
(** * Float64 cells without rounding *)

Module Num.
Local Open Scope R_scope.

Inductive num : Type :=
| NaN
| PInf
| NInf
| Fin (r : R).

Definition isna (a : num) : bool :=
  match a with NaN => true | _ => false end.

Definition notna (a : num) : bool := negb (isna a).

Definition Rsign (x : R) : comparison :=
  if Rlt_dec x 0 then Lt else if Rlt_dec 0 x then Gt else Eq.

Definition opp (a : num) : num :=
  match a with
  | NaN => NaN
  | PInf => NInf
  | NInf => PInf
  | Fin x => Fin (- x)
  end.

Definition add (a b : num) : num :=
  match a, b with
  | NaN, _ | _, NaN => NaN
  | PInf, NInf | NInf, PInf => NaN
  | PInf, _ | _, PInf => PInf
  | NInf, _ | _, NInf => NInf
  | Fin x, Fin y => Fin (x + y)
  end.

Definition sub (a b : num) : num := add a (opp b).

Definition mul (a b : num) : num :=
  match a, b with
  | NaN, _ | _, NaN => NaN
  | Fin x, Fin y => Fin (x * y)
  | Fin x, PInf | PInf, Fin x =>
      match Rsign x with Lt => NInf | Gt => PInf | Eq => NaN end
  | Fin x, NInf | NInf, Fin x =>
      match Rsign x with Lt => PInf | Gt => NInf | Eq => NaN end
  | PInf, PInf | NInf, NInf => PInf
  | PInf, NInf | NInf, PInf => NInf
  end.

(** IEEE division; the real zero stands for [+0.0]. *)
Definition div (a b : num) : num :=
  match a, b with
  | NaN, _ | _, NaN => NaN
  | Fin x, Fin y =>
      if Req_dec_T y 0
      then match Rsign x with Lt => NInf | Gt => PInf | Eq => NaN end
      else Fin (x / y)
  | Fin _, PInf | Fin _, NInf => Fin 0
  | PInf, Fin y => if Rlt_dec y 0 then NInf else PInf
  | NInf, Fin y => if Rlt_dec y 0 then PInf else NInf
  | _, _ => NaN
  end.

Definition sqrt (a : num) : num :=
  match a with
  | NaN | NInf => NaN
  | PInf => PInf
  | Fin x => if Rlt_dec x 0 then NaN else Fin (R_sqrt.sqrt x)
  end.

(** The range of [np.exp] on binary64: above the logarithm of the largest
    float the result overflows to infinity, below the logarithm of half
    the smallest positive float it underflows to zero. *)
Definition exp_overflow : R := 709.782712893384.
Definition exp_underflow : R := -745.1332191019412.

Definition exp_finite (x : R) : R :=
  if Rlt_dec x exp_underflow then 0 else Rtrigo_def.exp x.

(** [np.exp] *)
Definition exp (a : num) : num :=
  match a with
  | NaN => NaN
  | PInf => PInf
  | NInf => Fin 0
  | Fin x => if Rlt_dec exp_overflow x then PInf else Fin (exp_finite x)
  end.

(** [np.log1p] *)
Definition log1p (a : num) : num :=
  match a with
  | NaN | NInf => NaN
  | PInf => PInf
  | Fin x =>
      if Rlt_dec (-1) x then Fin (ln (1 + x))
      else if Req_dec_T x (-1) then NInf else NaN
  end.

(** Comparisons are false as soon as one side is NaN. *)
Definition ltb (a b : num) : bool :=
  match a, b with
  | NaN, _ | _, NaN => false
  | _, NInf | PInf, _ => false
  | NInf, _ | _, PInf => true
  | Fin x, Fin y => if Rlt_dec x y then true else false
  end.

Definition eqb (a b : num) : bool :=
  match a, b with
  | PInf, PInf | NInf, NInf => true
  | Fin x, Fin y => if Req_dec_T x y then true else false
  | _, _ => false
  end.

Definition gtb (a b : num) : bool := ltb b a.

(** [np.max] of two entries: NaN wins. *)
Definition max (a b : num) : num :=
  match a, b with
  | NaN, _ | _, NaN => NaN
  | _, _ => if ltb a b then b else a
  end.

(** ** Reductions *)

(** [np.sum] *)
Definition np_sum (l : list num) : num := fold_left add l (Fin 0).

(** [np.max]; an empty array is a [ValueError]. *)
Definition np_max (l : list num) : result num :=
  match l with
  | [] => raise (ValueError "zero-size array to reduction operation maximum which has no identity")
  | a :: l' => ret (fold_left max l' a)
  end.

Definition dropna (l : list num) : list num := filter notna l.

(** [Series.count] *)
Definition count (l : list num) : nat := length (dropna l).

(** [Series.sum] (skipna) *)
Definition nansum (l : list num) : num := np_sum (dropna l).

(** [Series.mean] (skipna): NaN when nothing is left. *)
Definition mean (l : list num) : num :=
  match count l with
  | O => NaN
  | n => div (nansum l) (Fin (INR n))
  end.

(** [Series.var] with [ddof] (skipna): NaN unless more than [ddof] values
    are present. *)
Definition var (ddof : nat) (l : list num) : num :=
  let n := count l in
  if (n <=? ddof)%nat then NaN
  else
    let avg := mean l in
    let sqr := map (fun v => mul (sub avg v) (sub avg v)) (dropna l) in
    div (np_sum sqr) (Fin (INR (n - ddof))).

(** [Series.std()]: pandas' default is the sample deviation, [ddof = 1]. *)
Definition std (l : list num) : num := sqrt (var 1 l).

(** The population deviation ([ddof = 0]); nothing in the sources calls it. *)
Definition std_population (l : list num) : num := sqrt (var 0 l).

End Num.

(* ================================================================== *)
(** * The pandas operations the sources call *)

Module Pandas.
Import Num.

(** ** Cells *)

(** A cell of a column: an integer, a float or a Python string.  A missing
    value is the float NaN, as in pandas. *)
Inductive cell : Type :=
| CInt (z : Z)
| CFloat (x : num)
| CStr (s : string).

Definition NA : cell := CFloat NaN.

Definition cell_isna (c : cell) : bool :=
  match c with CFloat NaN => true | _ => false end.

Definition is_int (c : cell) : bool :=
  match c with CInt _ => true | _ => false end.

Definition is_str (c : cell) : bool :=
  match c with CStr _ => true | _ => false end.

(** Equality of key values. *)
Definition cell_eqb (a b : cell) : bool :=
  match a, b with
  | CInt x, CInt y => Z.eqb x y
  | CStr s, CStr t => String.eqb s t
  | CFloat x, CFloat y => Num.eqb x y
  | CInt x, CFloat y | CFloat y, CInt x => Num.eqb (Fin (IZR x)) y
  | _, _ => false
  end.

(** The numeric reading of a cell.  Outside of [*], which Python defines
    between text and an integer (see [Features.mul_columns]), arithmetic
    and comparison on a text cell are a [TypeError]. *)
Definition as_num (c : cell) : result num :=
  match c with
  | CInt z => ret (Fin (IZR z))
  | CFloat x => ret x
  | CStr _ => raise (TypeError "unsupported operand type(s): 'str'")
  end.

Definition as_nums (col : list cell) : result (list num) := mapM as_num col.

Definition floats (l : list num) : list cell := map CFloat l.

(** A categorical or text cell that may be missing. *)
Definition of_label (o : option string) : cell :=
  match o with Some s => CStr s | None => NA end.

(** [groupby] drops the rows whose key is missing. *)
Definition group_key (c : cell) : option cell :=
  if cell_isna c then None else Some c.

(** ** groupby *)

Section GroupBy.
Variables K A B : Type.
Variable K_eqb : K -> K -> bool.

Definition has_key (k : K) (o : option K) : bool :=
  match o with Some k' => K_eqb k k' | None => false end.

(** The values of the rows of group [k], in row order. *)
Definition get_group (k : K) (keys : list (option K)) (vals : list A) : list A :=
  map snd (filter (fun r => has_key k (fst r)) (combine keys vals)).

(** How many rows of group [k] a prefix of the table holds: the position in
    its group of the row that follows the prefix. *)
Definition group_pos (k : K) (prefix : list (option K)) : nat :=
  length (filter (has_key k) prefix).

(** [groupby(keys)[col].transform(f)]: [f] maps the values of one group to
    as many results, which go back to the rows of the group; a row without
    key gets [na]. *)
Definition transform (f : list A -> result (list B)) (na : B)
    (keys : list (option K)) (vals : list A) : result (list B) :=
  mapM (fun i =>
          match nth_error keys i with
          | Some (Some k) =>
              out <- f (get_group k keys vals) ;;
              match nth_error out (group_pos k (firstn i keys)) with
              | Some b => ret b
              | None => raise (ValueError "Length mismatch in transform")
              end
          | _ => ret na
          end)
       (seq 0 (length keys)).

(** [transform] with the name of a reduction (mean, std, count): the
    reduction of the group, on each of its rows. *)
Definition transform_agg (g : list A -> B) (na : B)
    (keys : list (option K)) (vals : list A) : list B :=
  map (fun o => match o with
                | Some k => g (get_group k keys vals)
                | None => na
                end) keys.

(** [groupby(keys).cumcount()]: the number of earlier rows of the same
    group. *)
Definition cumcount (keys : list (option K)) : list cell :=
  map (fun i => match nth_error keys i with
                | Some (Some k) => CInt (Z.of_nat (group_pos k (firstn i keys)))
                | _ => NA
                end)
      (seq 0 (length keys)).

(** The distinct keys in order of first appearance.  pandas orders the
    groups by key; below the order of the groups only fixes the order of
    the rows of a table that is then joined to the right of a left merge,
    whose result does not depend on it. *)
Fixpoint distinct (keys : list (option K)) : list K :=
  match keys with
  | [] => []
  | None :: rest => distinct rest
  | Some k :: rest => k :: filter (fun k' => negb (K_eqb k k')) (distinct rest)
  end.

End GroupBy.

(** ** rank *)

(** [Series.rank] within one group [g] for the value [v]: ties share the
    average of their ranks, a missing value has no rank. *)
Definition rank_in (ascending : bool) (g : list num) (v : num) : num :=
  if isna v then NaN
  else
    let before := filter (fun w => if ascending then ltb w v else ltb v w) g in
    let ties := filter (fun w => Num.eqb w v) g in
    Fin (INR (length before) + (INR (length ties) + 1) / 2)%R.

(** ** cut *)

(** [bins.searchsorted(x)], left side, on increasing bins. *)
Definition searchsorted_left (bins : list num) (x : num) : nat :=
  length (filter (fun b => ltb b x) bins).

(** [pd.cut(x, bins, labels)] with the default [right=True]: [x] falls in
    bin [i] when [bins[i-1] < x <= bins[i]]; outside of all bins, and for a
    missing [x], the result is missing. *)
Definition cut (bins : list num) (labels : list string) (x : num) : option string :=
  if isna x then None
  else
    let ids := searchsorted_left bins x in
    if (ids =? 0)%nat || (ids =? length bins)%nat then None
    else nth_error labels (ids - 1).

(** ** rolling *)

(** The rows [i-w+1 .. i] of [l] (fewer at the start). *)
Definition window_at (w : nat) (l : list num) (i : nat) : list num :=
  skipn (i + 1 - w) (firstn (i + 1) l).

(** The observations of a window: pandas' rolling kernels treat infinities
    as missing. *)
Fixpoint observations (l : list num) : list R :=
  match l with
  | [] => []
  | Fin x :: l' => x :: observations l'
  | _ :: l' => observations l'
  end.

Definition Rsum (l : list R) : R := fold_right Rplus 0%R l.

(** [Series.rolling(window=w, min_periods=mp).mean()]: the mean of the
    observations of the window, when there are at least [mp] of them and
    at least one. *)
Definition rolling_mean (w mp : nat) (l : list num) : list num :=
  map (fun i =>
         let obs := observations (window_at w l i) in
         if (length obs <? Nat.max 1 mp)%nat then NaN
         else Fin (Rsum obs / INR (length obs))%R)
      (seq 0 (length l)).

(** [groupby(keys)[col].rolling(...).mean()] with the index it carries:
    for each group its key, and for each row of the group the label of the
    row and the value of the rolling kernel [roll] run over the group. *)
Definition groupby_rolling (K L : Type) (K_eqb : K -> K -> bool)
    (roll : list num -> list num)
    (keys : list (option K)) (labels : list L) (vals : list num)
  : list (K * (L * num)) :=
  flat_map (fun k =>
              map (pair k)
                  (combine (get_group K_eqb k keys labels)
                           (roll (get_group K_eqb k keys vals))))
           (distinct K_eqb keys).

(** [groupby(keys)[col].rank(ascending=...)] *)
Definition groupby_rank (K : Type) (K_eqb : K -> K -> bool) (ascending : bool)
    (keys : list (option K)) (vals : list num) : list num :=
  map (fun r => match fst r with
                | Some k => rank_in ascending (get_group K_eqb k keys vals) (snd r)
                | None => NaN
                end)
      (combine keys vals).

(** ** Text *)

Definition is_digit (c : ascii) : bool :=
  let n := nat_of_ascii c in (48 <=? n)%nat && (n <=? 57)%nat.

(** The longest prefix of digits, and what follows it. *)
Fixpoint span_digits (s : string) : string * string :=
  match s with
  | EmptyString => (EmptyString, EmptyString)
  | String c s' =>
      if is_digit c
      then let (d, r) := span_digits s' in (String c d, r)
      else (EmptyString, s)
  end.

(** [Series.str.extract] with the pattern of [add_track_distance_features]
    (digits, an optional dot, optional digits; one capture group around
    all of it), on one string of ASCII text: the leftmost match, or
    nothing.  Each of the three pieces of the pattern is greedy and the
    pieces that follow cannot fail, so the match starts at the first digit
    and takes the digits, a dot when there is one, and the digits after
    it. *)
Fixpoint str_extract (s : string) : option string :=
  match s with
  | EmptyString => None
  | String c s' =>
      if is_digit c then
        let (d1, r1) := span_digits s in
        match r1 with
        | String "."%char r2 => Some (d1 ++ "." ++ fst (span_digits r2))%string
        | _ => Some d1
        end
      else str_extract s'
  end.

Fixpoint digits_value (s : string) (acc : N) : N :=
  match s with
  | EmptyString => acc
  | String c s' => digits_value s' (acc * 10 + (N_of_ascii c - 48))%N
  end.

Definition decimal_value (whole frac : string) : R :=
  (IZR (Z.of_N (digits_value whole 0))
   + IZR (Z.of_N (digits_value frac 0)) / 10 ^ String.length frac)%R.

(** [pd.to_numeric] with [errors = coerce] on one extracted cell.  The cells
    that reach it are the matches of the pattern above, of the form
    [digits] or [digits.digits]; a missing cell, and any other text, is
    coerced to NaN here (the other float spellings pandas would accept do
    not arise). *)
Definition to_numeric (o : option string) : num :=
  match o with
  | None => NaN
  | Some s =>
      let (d1, r1) := span_digits s in
      match d1, r1 with
      | EmptyString, _ => NaN
      | _, EmptyString => Fin (decimal_value d1 EmptyString)
      | _, String "."%char r2 =>
          let (d2, r3) := span_digits r2 in
          match r3 with
          | EmptyString => Fin (decimal_value d1 d2)
          | _ => NaN
          end
      | _, _ => NaN
      end
  end.

(** ** Joins *)

(** The row pairs of a left join: each left row with each right row that
    matches it, in the order of the left table and then of the right one;
    a left row without match is kept once, with nothing on the right. *)
Definition left_join (A B : Type) (matches : A -> B -> bool)
    (l : list A) (r : list B) : list (A * option B) :=
  flat_map (fun a =>
              match filter (matches a) r with
              | [] => [(a, None)]
              | ms => map (fun b => (a, Some b)) ms
              end) l.

(** ** Data frames *)

(** A frame with an unnamed single-level index (what [read_csv] and
    [merge] produce) and named columns, in order. *)
Record DataFrame : Type := {
  index : list cell;
  columns : list (string * list cell)
}.

Definition RangeIndex (n : nat) : list cell :=
  map (fun i => CInt (Z.of_nat i)) (seq 0 n).

Fixpoint lookup (name : string) (cols : list (string * list cell)) : option (list cell) :=
  match cols with
  | [] => None
  | (n, c) :: rest => if String.eqb n name then Some c else lookup name rest
  end.

(** [name in df.columns] *)
Definition has_column (df : DataFrame) (name : string) : bool :=
  match lookup name (columns df) with Some _ => true | None => false end.

(** [df[name]] *)
Definition getitem (df : DataFrame) (name : string) : result (list cell) :=
  match lookup name (columns df) with
  | Some c => ret c
  | None => raise (KeyError name)
  end.

Fixpoint assign (name : string) (col : list cell) (cols : list (string * list cell))
  : list (string * list cell) :=
  match cols with
  | [] => [(name, col)]
  | (n, c) :: rest =>
      if String.eqb n name then (n, col) :: rest else (n, c) :: assign name col rest
  end.

(** [df[name] = col], for a column of the length of the frame: an existing
    column is replaced in place, a new one goes last. *)
Definition setitem (df : DataFrame) (name : string) (col : list cell) : DataFrame :=
  {| index := index df; columns := assign name col (columns df) |}.

Definition is_text (col : list cell) : bool :=
  existsb (fun c => match c with CStr _ => true | _ => false end) col.

(** Key equality in a merge: as [cell_eqb], and two missing keys match. *)
Definition merge_key_eqb (a b : cell) : bool :=
  cell_eqb a b || (cell_isna a && cell_isna b).

Fixpoint all2 (A B : Type) (p : A -> B -> bool) (l : list A) (r : list B) : bool :=
  match l, r with
  | [], [] => true
  | a :: l', b :: r' => p a b && all2 p l' r'
  | _, _ => false
  end.

Definition mem (name : string) (names : list string) : bool :=
  existsb (String.eqb name) names.

(** [left.merge(right, on=on)] with [how = left].  Each key is looked up in
    the right frame and then in the left one, and a key that is no column
    is a [KeyError]; after that, a text key cannot be merged with a numeric
    one.  The result has the rows of [left_join], a fresh index, the
    columns of the left frame and then those of the right frame that are
    not keys; a name the two sides share outside the keys gets the suffixes
    [_x] and [_y]. *)
Definition merge_left (left right : DataFrame) (on : list string) : result DataFrame :=
  keys <- mapM (fun k =>
                  rk <- getitem right k ;;
                  lk <- getitem left k ;;
                  ret (lk, rk))
               on ;;
  if negb (forallb (fun k => Bool.eqb (is_text (fst k)) (is_text (snd k))) keys) then
    raise (ValueError "You are trying to merge on object and numeric columns")
  else
    let lkey := fun i => map (fun k => nth i (fst k) NA) keys in
    let rkey := fun j => map (fun k => nth j (snd k) NA) keys in
    let pairs :=
      left_join (fun i j => all2 merge_key_eqb (lkey i) (rkey j))
                (seq 0 (length (index left))) (seq 0 (length (index right))) in
    let rcols := filter (fun c => negb (mem (fst c) on)) (columns right) in
    let shared := fun n =>
      negb (mem n on) && mem n (map fst (columns left)) && mem n (map fst rcols) in
    let lout :=
      map (fun c => (if shared (fst c) then (fst c ++ "_x")%string else fst c,
                     map (fun p => nth (fst p) (snd c) NA) pairs))
          (columns left) in
    let rout :=
      map (fun c => (if shared (fst c) then (fst c ++ "_y")%string else fst c,
                     map (fun p => match snd p with
                                   | Some j => nth j (snd c) NA
                                   | None => NA
                                   end) pairs))
          rcols in
    ret {| index := RangeIndex (length pairs); columns := lout ++ rout |}.

End Pandas.

(* ================================================================== *)
(** * src/features.py *)

Module Features.
Import Num Pandas.
Local Open Scope string_scope.

(** [df.groupby(key)[col]]: the keys of the rows and the grouped column. *)
Definition groupby_col (df : DataFrame) (key col : string)
  : result (list (option cell) * list cell) :=
  k <- getitem df key ;;
  v <- getitem df col ;;
  ret (map group_key k, v).

(** A binary operator between two numeric columns, cell by cell. *)
Definition map2 (A B C : Type) (op : A -> B -> C) (a : list A) (b : list B) : list C :=
  map (fun p => op (fst p) (snd p)) (combine a b).

(** ** Products of columns *)

(** Python's [s * n] on a string: [n] copies of [s], none when [n] is not
    positive. *)
Definition str_repeat (s : string) (n : Z) : string :=
  String.concat "" (repeat s (Z.to_nat n)).

(** The cells of a column as the objects that Python's [*] gets.  A column
    that holds text has dtype object and keeps its cells; a column of
    integers keeps them; in a column of numbers of which one is a float
    (or missing) every cell is a float. *)
Definition python_objects (col : list cell) : list cell :=
  if is_text col || forallb is_int col then col
  else map (fun c => match c with CInt z => CFloat (Fin (IZR z)) | _ => c end) col.

(** Python's [a * b]. *)
Definition py_mul (a b : cell) : result cell :=
  match a with
  | CStr s =>
      match b with
      | CInt n => ret (CStr (str_repeat s n))
      | _ => raise (TypeError "can't multiply sequence by non-int")
      end
  | CInt x =>
      match b with
      | CStr s => ret (CStr (str_repeat s x))
      | CInt y => ret (CInt (x * y))
      | CFloat y => ret (CFloat (mul (Fin (IZR x)) y))
      end
  | CFloat x =>
      match b with
      | CStr _ => raise (TypeError "can't multiply sequence by non-int")
      | CInt y => ret (CFloat (mul x (Fin (IZR y))))
      | CFloat y => ret (CFloat (mul x y))
      end
  end.

(** [a * b] on two columns of one frame.  Between two columns of numbers
    it is the product, cell by cell.  When one of them holds text, pandas
    applies Python's [*] cell by cell and, where that raises a [TypeError],
    once more to the rows without a missing value only, leaving the other
    rows missing: a row with a missing value gets a missing value, and on
    every other row [py_mul] must go through. *)
Definition mul_columns (a b : list cell) : result (list cell) :=
  if is_text a || is_text b then
    mapM (fun p => if cell_isna (fst p) || cell_isna (snd p) then ret NA
                   else py_mul (fst p) (snd p))
         (combine (python_objects a) (python_objects b))
  else
    x <- as_nums a ;;
    y <- as_nums b ;;
    ret (floats (map2 mul x y)).

Definition eps : num := Fin 1e-5.

(** ** 1. Race-relative features *)

(** [lambda x: x - x.mean()] *)
Definition center (x : list num) : list num :=
  map (fun v => sub v (mean x)) x.

(** [lambda x: (x - x.mean()) / (x.std() + 1e-5)] *)
Definition zscore (x : list num) : list num :=
  map (fun v => div (sub v (mean x)) (add (std x) eps)) x.

(** The column [z_Speed_PreviousRun], from the race identifiers and the
    speeds of the rows. *)
Definition z_Speed_PreviousRun (keys : list (option cell)) (speed : list num)
  : result (list num) :=
  transform cell_eqb (fun g => ret (zscore g)) NaN keys speed.

Definition count_cells (g : list cell) : cell :=
  CInt (Z.of_nat (length (filter (fun c => negb (cell_isna c)) g))).

Definition add_race_relative_features (df : DataFrame) : result DataFrame :=
  ' (k, v) <- groupby_col df "Race_ID" "Speed_PreviousRun" ;;
  x <- as_nums v ;;
  rel <- transform cell_eqb (fun g => ret (center g)) NaN k x ;;
  let df := setitem df "rel_Speed_PreviousRun" (floats rel) in
  ' (k, v) <- groupby_col df "Race_ID" "Speed_PreviousRun" ;;
  x <- as_nums v ;;
  let df := setitem df "rank_Speed_PreviousRun" (floats (groupby_rank cell_eqb false k x)) in
  ' (k, v) <- groupby_col df "Race_ID" "Speed_PreviousRun" ;;
  x <- as_nums v ;;
  z <- z_Speed_PreviousRun k x ;;
  let df := setitem df "z_Speed_PreviousRun" (floats z) in
  ' (k, h) <- groupby_col df "Race_ID" "Horse" ;;
  let df := setitem df "Field_Size" (transform_agg cell_eqb count_cells NA k h) in
  ret df.

(** ** 2. Interaction features *)

Definition add_interaction_features (df : DataFrame) : result DataFrame :=
  j <- getitem df "JockeyRating" ;;
  t <- getitem df "TrainerRating" ;;
  jt <- mul_columns j t ;;
  let df := setitem df "JockeyTrainerCombo" jt in
  s <- getitem df "Speed_PreviousRun" ;;
  t <- getitem df "TrainerRating" ;;
  st <- mul_columns s t ;;
  let df := setitem df "SpeedTrainerInt" st in
  ret df.

(** ** 3. Form features *)

Definition RecentRun_bins : list num :=
  [Fin (-1); Fin 7; Fin 30; Fin 90; Fin 9999].

Definition RecentRun_labels : list string :=
  ["<7d"; "8–30d"; "31–90d"; "90d+"].

(** The bucket of one value of [daysSinceLastRun]. *)
Definition RecentRun (days : num) : option string :=
  cut RecentRun_bins RecentRun_labels days.

Definition add_form_features (df : DataFrame) : result DataFrame :=
  d <- getitem df "daysSinceLastRun" ;;
  dn <- as_nums d ;;
  let df := setitem df "RecentRun" (map (fun x => of_label (RecentRun x)) dn) in
  if has_column df "PastWins" then
    p <- getitem df "PastWins" ;;
    pn <- as_nums p ;;
    ret (setitem df "Ever_Won"
           (map (fun v => CInt (if gtb v (Fin 0) then 1 else 0)) pn))
  else ret df.

(** ** 4. Market-based features *)

Definition add_market_features (df : DataFrame) : result DataFrame :=
  o <- getitem df "Market_Odds" ;;
  on <- as_nums o ;;
  let df := setitem df "log_MarketOdds" (floats (map log1p on)) in
  ' (k, v) <- groupby_col df "Race_ID" "Market_Odds" ;;
  x <- as_nums v ;;
  let df := setitem df "MarketRank" (floats (groupby_rank cell_eqb true k x)) in
  o <- getitem df "Market_Odds" ;;
  on <- as_nums o ;;
  let df := setitem df "Market_Prob" (floats (map (div (Fin 1)) on)) in
  ' (k, v) <- groupby_col df "Race_ID" "Market_Prob" ;;
  x <- as_nums v ;;
  z <- transform cell_eqb (fun g => ret (zscore g)) NaN k x ;;
  let df := setitem df "Market_Prob_Z" (floats z) in
  ret df.

(** ** 5. Form aggregates *)

(** [df[[a, b]].mean(axis=1)]: the mean of the values present in the row. *)
Definition row_mean2 (df : DataFrame) (a b : string) : result (list cell) :=
  x <- getitem df a ;;
  y <- getitem df b ;;
  xn <- as_nums x ;;
  yn <- as_nums y ;;
  ret (floats (map2 (fun u v => mean [u; v]) xn yn)).

Definition add_form_aggregates (df : DataFrame) : result DataFrame :=
  m <- row_mean2 df "Speed_PreviousRun" "Speed_2ndPreviousRun" ;;
  let df := setitem df "SpeedAvg2" m in
  m <- row_mean2 df "MarketOdds_PreviousRun" "MarketOdds_2ndPreviousRun" ;;
  let df := setitem df "OddsAvg2" m in
  ret df.

(** ** 6. Race context features *)

Definition add_race_context_features (df : DataFrame) : result DataFrame :=
  ' (k, v) <- groupby_col df "Race_ID" "Market_Odds" ;;
  x <- as_nums v ;;
  let df := setitem df "RaceMeanOdds" (floats (transform_agg cell_eqb mean NaN k x)) in
  ' (k, v) <- groupby_col df "Race_ID" "Market_Odds" ;;
  x <- as_nums v ;;
  let df := setitem df "RaceStdOdds" (floats (transform_agg cell_eqb std NaN k x)) in
  o <- getitem df "Market_Odds" ;;
  m <- getitem df "RaceMeanOdds" ;;
  on <- as_nums o ;;
  mn <- as_nums m ;;
  let df := setitem df "OddsToMeanRatio" (floats (map2 div on mn)) in
  ret df.

(** ** 7. Advanced interactions *)

Definition add_advanced_interactions (df : DataFrame) : result DataFrame :=
  t <- getitem df "TrainerRating" ;;
  s <- getitem df "Speed_PreviousRun" ;;
  ts <- mul_columns t s ;;
  let df := setitem df "TrainerFormCombo" ts in
  t <- getitem df "TrainerRating" ;;
  d <- getitem df "daysSinceLastRun" ;;
  tn <- as_nums t ;;
  dn <- as_nums d ;;
  let df := setitem df "TrainerRecencyCombo"
              (floats (map2 div tn (map (fun v => add v (Fin 1)) dn))) in
  ret df.

(** ** 8. Rolling win rates *)

(** [.rolling(window=50, min_periods=10).mean()] on the win indicators of
    one jockey or trainer, in row order. *)
Definition WinRate50 (winner : list num) : list num := rolling_mean 50 10 winner.

(** The frame [rolling] of the source: the grouped rolling mean of
    [Winner] with its two index levels turned into columns by
    [reset_index] (the entity, and the row label under the name [level_1]
    that pandas gives to the unnamed second level) and the value column
    renamed. *)
Definition rolling_frame (df : DataFrame) (col : string) : result DataFrame :=
  k <- getitem df col ;;
  w <- getitem df "Winner" ;;
  wn <- as_nums w ;;
  let rows := groupby_rolling cell_eqb WinRate50 (map group_key k) (index df) wn in
  ret {| index := RangeIndex (length rows);
         columns := [ (col, map fst rows);
                      ("level_1", map (fun r => fst (snd r)) rows);
                      (col ++ "_WinRate50", floats (map (fun r => snd (snd r)) rows)) ] |}.

Definition add_rolling_win_rates_for (df : DataFrame) (col : string) : result DataFrame :=
  if has_column df col && has_column df "Winner" then
    rolling <- rolling_frame df col ;;
    merge_left df rolling ["level_1"; col]
  else ret df.

Definition add_rolling_win_rates (df : DataFrame) : result DataFrame :=
  df <- add_rolling_win_rates_for df "JockeyID" ;;
  add_rolling_win_rates_for df "TrainerID".

(** ** 9. Track and distance encoding *)

Definition Distance_bins : list num :=
  [Fin 0; Fin 1200; Fin 1600; Fin 2000; Fin 2400; Fin 3000; PInf].

Definition Distance_labels : list string :=
  ["Sprint"; "Mile"; "Intermediate"; "Classic"; "Long"; "Marathon"].

(** The bucket of one parsed distance. *)
Definition Distance_Bucket (distance : num) : option string :=
  cut Distance_bins Distance_labels distance.

Definition pair_eqb (a b : cell * cell) : bool :=
  cell_eqb (fst a) (fst b) && cell_eqb (snd a) (snd b).

Definition pair_key (a b : cell) : option (cell * cell) :=
  if cell_isna a || cell_isna b then None else Some (a, b).

Section Distance.

(** Python's [repr] of a finite float, which [astype(str)] prints; it is
    not modelled, and no statement below depends on it. *)
Variable repr_float : R -> string.

(** [astype(str)] on one cell. *)
Definition astype_str (c : cell) : string :=
  match c with
  | CStr s => s
  | CInt z => NilZero.string_of_int (Z.to_int z)
  | CFloat NaN => "nan"
  | CFloat PInf => "inf"
  | CFloat NInf => "-inf"
  | CFloat (Fin r) => repr_float r
  end.

(** The numeric [Distance] of one raw cell. *)
Definition Distance_numeric (c : cell) : num :=
  to_numeric (str_extract (astype_str c)).

(** The count the source prints in its warning. *)
Definition num_failed (distance : list num) : nat :=
  length (filter isna distance).

Definition add_track_distance_features (df : DataFrame) : result DataFrame :=
  df <- (if has_column df "Track" && has_column df "HorseID" then
           h <- getitem df "HorseID" ;;
           t <- getitem df "Track" ;;
           ret (setitem df "Track_Experience" (cumcount pair_eqb (map2 pair_key h t)))
         else ret df) ;;
  if has_column df "Distance" then
    d <- getitem df "Distance" ;;
    let numeric := map Distance_numeric d in
    let df := setitem df "Distance" (floats numeric) in
    let df := setitem df "Distance_Bucket"
                (map (fun x => of_label (Distance_Bucket x)) numeric) in
    ret df
  else ret df.

(** ** Master feature pipeline *)

Definition engineer_features (df : DataFrame) : result DataFrame :=
  df <- add_race_relative_features df ;;
  df <- add_interaction_features df ;;
  df <- add_form_features df ;;
  df <- add_market_features df ;;
  df <- add_form_aggregates df ;;
  df <- add_race_context_features df ;;
  df <- add_advanced_interactions df ;;
  df <- add_rolling_win_rates df ;;
  df <- add_track_distance_features df ;;
  ret df.

End Distance.

End Features.

(* ================================================================== *)
(** * scikit-learn's GroupKFold *)

Module Sklearn.

Fixpoint insert_unique (x : Z) (l : list Z) : list Z :=
  match l with
  | [] => [x]
  | y :: r =>
      if (x <? y)%Z then x :: l
      else if (x =? y)%Z then l
      else y :: insert_unique x r
  end.

(** [np.unique]: the distinct values, increasing. *)
Definition np_unique (l : list Z) : list Z := fold_right insert_unique [] l.

(** The position of [x] in [u] (the inverse that [np.unique] returns). *)
Fixpoint index_of (x : Z) (u : list Z) : nat :=
  match u with
  | [] => 0
  | y :: r => if (x =? y)%Z then 0 else S (index_of x r)
  end.

(** [np.bincount] over the group positions [0 .. n-1]. *)
Definition bincount (idx : list nat) (n : nat) : list nat :=
  map (fun g => count_occ Nat.eq_dec idx g) (seq 0 n).

Fixpoint insert_by (w : list nat) (i : nat) (sorted : list nat) : list nat :=
  match sorted with
  | [] => [i]
  | j :: r =>
      if nth i w 0 <=? nth j w 0 then i :: sorted else j :: insert_by w i r
  end.

(** [np.argsort]: the positions by increasing weight.  Equal weights keep
    their order here; numpy's default sort leaves the order of ties open,
    and no statement below depends on it. *)
Definition argsort (w : list nat) : list nat :=
  fold_right (insert_by w) [] (seq 0 (length w)).

Fixpoint first_index (v : nat) (l : list nat) : nat :=
  match l with
  | [] => 0
  | x :: r => if x =? v then 0 else S (first_index v r)
  end.

(** [np.argmin]: the first position of the least entry. *)
Definition argmin (l : list nat) : nat :=
  first_index (fold_right Nat.min (hd 0 l) l) l.

Fixpoint update (A : Type) (i : nat) (v : A) (l : list A) : list A :=
  match l, i with
  | [], _ => []
  | _ :: r, O => v :: r
  | x :: r, S i' => x :: update i' v r
  end.

(** The greedy balancing loop: each group, heaviest first, goes to the
    fold that is lightest so far. *)
Fixpoint distribute (order w n_samples_per_fold group_to_fold : list nat) : list nat :=
  match order with
  | [] => group_to_fold
  | g :: rest =>
      let lightest_fold := argmin n_samples_per_fold in
      distribute rest w
        (update lightest_fold (nth lightest_fold n_samples_per_fold 0 + nth g w 0)
                n_samples_per_fold)
        (update g lightest_fold group_to_fold)
  end.

(** [np.where(mask)[0]] for the mask [p] over [l]. *)
Definition np_where (A : Type) (p : A -> bool) (l : list A) : list nat :=
  map fst (filter (fun r => p (snd r)) (combine (seq 0 (length l)) l)).

(** The fold of every row. *)
Definition fold_of_rows (n_splits : nat) (groups : list Z) : list nat :=
  let unique_groups := np_unique groups in
  let group_idx := map (fun g => index_of g unique_groups) groups in
  let n_samples_per_group := bincount group_idx (length unique_groups) in
  let indices := rev (argsort n_samples_per_group) in
  let group_to_fold :=
    distribute indices n_samples_per_group
               (repeat 0 n_splits) (repeat 0 (length unique_groups)) in
  map (fun gi => nth gi group_to_fold 0) group_idx.

(** [GroupKFold(n_splits).split(X, y, groups)]: the list of the pairs
    (train positions, test positions), one per fold. *)
Definition GroupKFold_split (n_splits : nat) (groups : list Z)
  : result (list (list nat * list nat)) :=
  if n_splits <? 2 then
    raise (ValueError "k-fold cross-validation requires at least one train/test split")
  else if length groups <? n_splits then
    raise (ValueError "Cannot have number of splits greater than the number of samples")
  else if length (np_unique groups) <? n_splits then
    raise (ValueError "Cannot have number of splits greater than the number of groups")
  else
    let indices := fold_of_rows n_splits groups in
    ret (map (fun f => (np_where (fun i => negb (i =? f)) indices,
                        np_where (fun i => i =? f) indices))
             (seq 0 n_splits)).

End Sklearn.

(* ================================================================== *)
(** * src/model.py *)

Module Model.
Import Num Pandas Sklearn.

(** Numerically stable softmax function. *)
Definition softmax_stable (x : list num) : result (list num) :=
  m <- np_max x ;;
  let x := map (fun v => sub v m) x in
  let exp_x := map exp x in
  ret (map (fun e => div e (np_sum exp_x)) exp_x).

(** [s.iloc[idx]] *)
Definition iloc (A : Type) (s : list A) (idx : list nat) : list A :=
  flat_map (fun i => match nth_error s i with Some a => [a] | None => [] end) idx.

(** [s.value_counts().sort_index().values]: the row count of each group,
    groups in increasing order. *)
Definition group_sizes (ids : list Z) : list nat :=
  map (fun g => count_occ Z.eq_dec ids g) (np_unique ids).

(** [s.iloc[idx] = vals] *)
Fixpoint iloc_set (idx : list nat) (vals : list num) (s : list num) : list num :=
  match idx, vals with
  | i :: idx', v :: vals' => iloc_set idx' vals' (update i v s)
  | _, _ => s
  end.

(** [Series.max] (skipna): NaN when nothing is left. *)
Definition Series_max (l : list num) : num :=
  match dropna l with
  | [] => NaN
  | a :: r => fold_left max r a
  end.

(** [softmax_stable] as [groupby.transform] calls it: on a Series, where
    [np.max] and [np.sum] are the reductions of the Series, which skip the
    missing values, and [np.exp] maps cell by cell.  No call raises. *)
Definition softmax_stable_Series (x : list num) : list num :=
  let m := Series_max x in
  let x := map (fun v => sub v m) x in
  let exp_x := map exp x in
  map (fun e => div e (nansum exp_x)) exp_x.

(** The column [Predicted_Probability]: the scores, softmax-normalised
    within each race. *)
Definition Predicted_Probability (race_ids : list Z) (score : list num)
  : result (list num) :=
  transform Z.eqb (fun g => ret (softmax_stable_Series g)) NaN (map Some race_ids) score.

(** The race groups present among the rows [idx]. *)
Definition race_groups (race_ids : list Z) (idx : list nat) : list Z :=
  iloc race_ids idx.

Section Training.

(** Training one LightGBM ranker on the training rows, with early stopping
    on the validation rows, and predicting the validation rows: given the
    two row sets and their group sizes, one score per validation row.  The
    feature table and the labels are part of this parameter. *)
Variable fit_predict : list nat -> list nat -> list nat -> list nat -> list num.

(** [log_loss] and [brier_score_loss] of the labels of the rows [idx]
    against the probabilities of these rows: the two losses, or the
    exception scikit-learn raises (a [ValueError] when the labels of the
    rows are all the same, or when a probability is missing).  The labels
    are part of this parameter. *)
Variable metrics : list nat -> list num -> result (num * num).

(** The body of the loop over the folds: the out-of-fold scores with the
    scores of the validation rows of the fold filled in, unless the metrics
    of the fold raise. *)
Definition fold_step (race_ids : list Z) (oof_scores : list num)
    (fold : list nat * list nat) : result (list num) :=
  let train_idx := fst fold in
  let val_idx := snd fold in
  let train_group_sizes := group_sizes (iloc race_ids train_idx) in
  let val_group_sizes := group_sizes (iloc race_ids val_idx) in
  let val_scores := fit_predict train_idx train_group_sizes val_idx val_group_sizes in
  let oof_scores := iloc_set val_idx val_scores oof_scores in
  probs <- Predicted_Probability (iloc race_ids val_idx) val_scores ;;
  _ <- metrics val_idx probs ;;
  ret oof_scores.

Fixpoint fold_loop (race_ids : list Z) (folds : list (list nat * list nat))
    (oof_scores : list num) : result (list num) :=
  match folds with
  | [] => ret oof_scores
  | fold :: rest =>
      oof_scores <- fold_step race_ids oof_scores fold ;;
      fold_loop race_ids rest oof_scores
  end.

(** The out-of-fold scores after the loop over the folds. *)
Definition out_of_fold_scores (race_ids : list Z) (folds : list (list nat * list nat))
  : result (list num) :=
  fold_loop race_ids folds (repeat NaN (length race_ids)).

(** [train_and_evaluate]: the folds (one model is trained per fold) and the
    out-of-fold probabilities, softmax-normalised within each race.  The
    printed lines and the feature importances are left out. *)
Definition train_and_evaluate (race_ids : list Z) (num_folds : nat)
  : result (list (list nat * list nat) * list num) :=
  folds <- GroupKFold_split num_folds race_ids ;;
  oof_scores <- out_of_fold_scores race_ids folds ;;
  probs <- Predicted_Probability race_ids oof_scores ;;
  _ <- metrics (seq 0 (length race_ids)) probs ;;
  ret (folds, probs).

End Training.

End Model.

(* ================================================================== *)
(** * src/processing/combine.py *)

Module Combine.
Import Pandas.

(** The rows of the three tables read by [create_edge_backtest_file], with
    the columns it uses.  A float column holds binary64 values; a missing
    value is NaN. *)
Record preds_row : Type := {
  preds_Race_ID : Z;
  preds_Horse : string;
  preds_Predicted_Probability : float
}.

Record market_row : Type := {
  market_Race_ID : Z;
  market_Horse : string;
  market_Market_Odds : float
}.

Record labels_row : Type := {
  labels_Race_ID : Z;
  labels_Horse : string;
  labels_Position : float
}.

(** A row of the backtest table. *)
Record backtest_row : Type := {
  Race_ID : Z;
  Horse : string;
  Predicted_Probability : float;
  Market_Odds : float;
  Market_Prob : float;
  Edge_Score : float;
  True_Label : Z
}.

Definition same_key (r1 : Z) (h1 : string) (r2 : Z) (h2 : string) : bool :=
  (r1 =? r2)%Z && String.eqb h1 h2.

(** [preds.merge(market, on=[Race_ID, Horse], how=left)] *)
Definition merge_market (preds : list preds_row) (market : list market_row)
  : list (preds_row * option market_row) :=
  left_join (fun p m => same_key (preds_Race_ID p) (preds_Horse p)
                                 (market_Race_ID m) (market_Horse m))
            preds market.

(** [df.merge(labels, on=[Race_ID, Horse], how=left)] *)
Definition merge_labels (df : list (preds_row * option market_row))
    (labels : list labels_row)
  : list ((preds_row * option market_row) * option labels_row) :=
  left_join (fun r l => same_key (preds_Race_ID (fst r)) (preds_Horse (fst r))
                                 (labels_Race_ID l) (labels_Horse l))
            df labels.

(** The three computed columns of one merged row. *)
Definition edge_row (r : (preds_row * option market_row) * option labels_row)
  : backtest_row :=
  let p := fst (fst r) in
  let odds := match snd (fst r) with
              | Some m => market_Market_Odds m
              | None => PrimFloat.nan
              end in
  let position := match snd r with
                  | Some l => labels_Position l
                  | None => PrimFloat.nan
                  end in
  let market_prob := PrimFloat.div 1%float odds in
  {| Race_ID := preds_Race_ID p;
     Horse := preds_Horse p;
     Predicted_Probability := preds_Predicted_Probability p;
     Market_Odds := odds;
     Market_Prob := market_prob;
     Edge_Score := PrimFloat.sub (preds_Predicted_Probability p) market_prob;
     True_Label := if PrimFloat.eqb position 1%float then 1%Z else 0%Z |}.

(** Combines model predictions, market odds, and true labels into a single
    backtest-ready dataset with computed edge scores. *)
Definition create_edge_backtest_file (preds : list preds_row)
    (market : list market_row) (labels : list labels_row) : list backtest_row :=
  map edge_row (merge_labels (merge_market preds market) labels).

End Combine.

(* ================================================================== *)
(** * src/visuals.py *)

Module Visuals.
Import Num.

(** Python's built-in [max] and [min] of two floats: the first argument
    stays unless the second one compares greater (resp. smaller), so a NaN
    in first place stays. *)
Definition py_max (a b : num) : num := if ltb a b then b else a.
Definition py_min (a b : num) : num := if ltb b a then b else a.

(** [Series.min] and [Series.max] (skipna); NaN for an empty column. *)
Definition series_min (l : list num) : num :=
  match dropna l with
  | [] => NaN
  | a :: r => fold_left (fun m x => if ltb x m then x else m) r a
  end.

Definition series_max (l : list num) : num :=
  match dropna l with
  | [] => NaN
  | a :: r => fold_left (fun m x => if ltb m x then x else m) r a
  end.

(** The limits [plot_top_picks_barplot] gives the probability axis. *)
Definition top_picks_xlim (Predicted_Probability : list num) (dynamic_xlim : bool)
  : num * num :=
  if dynamic_xlim then
    let min_prob := series_min Predicted_Probability in
    let max_prob := series_max Predicted_Probability in
    (py_max (sub min_prob (Fin 0.05)) (Fin 0), py_min (add max_prob (Fin 0.05)) (Fin 1))
  else (Fin 0.5, Fin 1).

End Visuals.

(* ================================================================== *)
(** * run_all.py *)

Module RunAll.
Local Open Scope string_scope.

Definition nl : string := String (ascii_of_nat 10) EmptyString.

(** The list of the script.  Its last two string literals have no comma
    between them, and Python joins adjacent literals into one string. *)
Definition notebooks : list string :=
  [ "01_eda.ipynb";
    "02_features.ipynb";
    "03_models.ipynb";
    "04_hyperparam_tuning.ipynb";
    "05_ensemble_stack.ipynb";
    "06_metrics_evaluation.ipynb";
    "07_visuals.ipynb";
    "08_edge_analysis.ipynb";
    "09_portfolio_simulator.ipynb" ++ "10_market_edge.ipynb" ].

Section Runner.

(** The machine the script runs on: [subprocess.run] executes a command
    there and gives its return code. *)
Variable world : Type.
Variable subprocess_run : list string -> world -> Z * world.

(** The directory of the notebooks, [Path(__file__).parent / "notebooks"],
    as [str] prints it. *)
Variable NOTEBOOK_DIR : string.

(** What the script has printed and run so far. *)
Record state : Type := {
  stdout : list string;
  commands : list (list string);
  machine : world
}.

Definition print (line : string) (s : state) : state :=
  {| stdout := stdout s ++ [line]; commands := commands s; machine := machine s |}.

Definition command (nb : string) : list string :=
  [ "jupyter"; "nbconvert"; "--to"; "notebook"; "--execute"; "--inplace";
    NOTEBOOK_DIR ++ "/" ++ nb ].

(** [run_notebook]: the state afterwards, and the code of [exit] when the
    notebook failed. *)
Definition run_notebook (nb : string) (s : state) : state * option Z :=
  let s := print (nl ++ "=== Running " ++ nb ++ " ===") s in
  let (returncode, w) := subprocess_run (command nb) (machine s) in
  let s := {| stdout := stdout s; commands := commands s ++ [command nb]; machine := w |} in
  if (returncode =? 0)%Z
  then (print ("=== Finished " ++ nb ++ " ===" ++ nl) s, None)
  else (print (nl ++ "[ERROR] " ++ nb ++ " failed.") s, Some returncode).

(** The loop of the main block. *)
Fixpoint run_each (nbs : list string) (s : state) : state * option Z :=
  match nbs with
  | [] => (s, None)
  | nb :: rest =>
      match run_notebook nb s with
      | (s', Some code) => (s', Some code)
      | (s', None) => run_each rest s'
      end
  end.

(** The return codes that the commands of the notebooks [nbs] give when
    they are run one after the other, all of them, from the machine [w]. *)
Fixpoint return_codes (nbs : list string) (w : world) : list Z :=
  match nbs with
  | [] => []
  | nb :: rest =>
      let (returncode, w') := subprocess_run (command nb) w in
      returncode :: return_codes rest w'
  end.

(** The script run as a program: the final state and the exit code. *)
Definition main (s : state) : state * Z :=
  match run_each notebooks s with
  | (s', Some code) => (s', code)
  | (s', None) => (print (nl ++ "All notebooks completed successfully.") s', 0%Z)
  end.

End Runner.

End RunAll.

(* ================================================================== *)
(** * Textbook statistics, to state what the code computes *)

Module Statistics.
Import Pandas.
Local Open Scope R_scope.

Definition Rmean (obs : list R) : R := Rsum obs / INR (length obs).

Definition squared_deviations (obs : list R) : R :=
  Rsum (map (fun o => (Rmean obs - o) * (Rmean obs - o)) obs).

(** The sample standard deviation: [n - 1] in the denominator. *)
Definition sample_deviation (obs : list R) : R :=
  sqrt (squared_deviations obs / INR (length obs - 1)).

(** The population standard deviation: [n] in the denominator. *)
Definition population_deviation (obs : list R) : R :=
  sqrt (squared_deviations obs / INR (length obs)).

End Statistics.

(* ================================================================== *)
(** * Notions used to state the results *)

Module Notions.
Import Pandas.
Local Open Scope string_scope.

(** The four columns that decide what [add_rolling_win_rates] does. *)
Definition rolling_inputs : list string :=
  ["level_1"; "Winner"; "JockeyID"; "TrainerID"].

(** A transform keeps the presence of the columns [rolling_inputs]. *)
Definition keeps_rolling_inputs (t : DataFrame -> result DataFrame) : Prop :=
  forall df df' c, t df = inr df' -> In c rolling_inputs ->
                   has_column df' c = has_column df c.

End Notions.

(* ================================================================== *)
(** * Example tables *)

Module Examples.
Import Num Pandas.
Local Open Scope string_scope.

(** The record of the spec's example: predicted probability 0.30 at market
    odds 4.0. *)
Definition example_preds : list Combine.preds_row :=
  [ Combine.Build_preds_row 1 "A" 0.30%float ].

Definition example_market : list Combine.market_row :=
  [ Combine.Build_market_row 1 "A" 4.0%float ].

Definition example_labels : list Combine.labels_row :=
  [ Combine.Build_labels_row 1 "A" 1%float ].

(** The frame of the spec's example: one column [Distance] with the two
    raw values. *)
Definition distance_example : DataFrame :=
  {| index := RangeIndex 2;
     columns := [ ("Distance", [CStr "2400m"; CStr "garbage"]) ] |}.

(** Nine wins-free races followed by a win, and ten races without a win:
    the two histories of one jockey differ in the tenth race only. *)
Definition history_win : list num := repeat (Fin 0) 9 ++ [Fin 1].
Definition history_loss : list num := repeat (Fin 0) 10.

(** Seven rows in four races, two folds; the scores play no role. *)
Definition example_race_ids : list Z := [10; 10; 20; 30; 30; 30; 40]%Z.

Definition constant_scores (train_idx train_sizes val_idx val_sizes : list nat) : list num :=
  map (fun _ => Fin 0) val_idx.

(** Metrics that raise nothing; their values play no role. *)
Definition constant_metrics (idx : list nat) (probs : list num) : result (num * num) :=
  ret (Fin 0, Fin 0).

(** Two horses of one race, with the speeds 1 and 3. *)
Definition pair_race_ids : list cell := [CInt 1; CInt 1].
Definition pair_speed : list num := [Fin 1; Fin 3].

(** A race of two horses with every column that [engineer_features]
    reads, as [read_csv] would load it. *)
Definition race_table : DataFrame :=
  {| index := RangeIndex 2;
     columns :=
       [ ("Race_ID", [CInt 1; CInt 1]);
         ("Horse", [CStr "A"; CStr "B"]);
         ("HorseID", [CInt 11; CInt 12]);
         ("JockeyID", [CInt 7; CInt 8]);
         ("TrainerID", [CInt 3; CInt 3]);
         ("Track", [CStr "Ascot"; CStr "Ascot"]);
         ("Distance", [CStr "2400m"; CStr "2400m"]);
         ("Speed_PreviousRun", [CFloat (Fin 1); CFloat (Fin 3)]);
         ("Speed_2ndPreviousRun", [CFloat (Fin 2); CFloat NaN]);
         ("JockeyRating", [CFloat (Fin 80); CFloat (Fin 75)]);
         ("TrainerRating", [CFloat (Fin 70); CFloat (Fin 90)]);
         ("daysSinceLastRun", [CInt 7; CInt 30]);
         ("PastWins", [CInt 0; CInt 2]);
         ("Market_Odds", [CFloat (Fin 4); CFloat (Fin 2)]);
         ("MarketOdds_PreviousRun", [CFloat (Fin 5); CFloat (Fin 3)]);
         ("MarketOdds_2ndPreviousRun", [CFloat (Fin 6); CFloat (Fin 2)]);
         ("Winner", [CInt 0; CInt 1]) ] |}.

End Examples.

(* ================================================================== *)
(** * Keys of the backtest tables *)

Module Keys.
Import Combine.

(** The pair (Race_ID, Horse) the two merges of [create_edge_backtest_file]
    match on. *)
Definition preds_key (p : preds_row) : Z * string := (preds_Race_ID p, preds_Horse p).
Definition market_key (m : market_row) : Z * string := (market_Race_ID m, market_Horse m).
Definition labels_key (l : labels_row) : Z * string := (labels_Race_ID l, labels_Horse l).

End Keys.

(* ================================================================== *)
(** * Notions about folds and out-of-fold scores *)

Module Folds.
Import Num.

(** The row [i] of a score column holds a finite score. *)
Definition finite_at (s : list num) (i : nat) : Prop :=
  exists r, nth_error s i = Some (Fin r).

(** The number of folds that have no row yet. *)
Definition zeros (l : list nat) : nat := length (filter (fun x => x =? 0) l).

End Folds.

(* ================================================================== *)
(** * Tables the feature pipeline is run on *)

Module Frames.
Import Pandas.
Local Open Scope string_scope.

(** Every column has one cell per row. *)
Definition well_formed (df : DataFrame) : Prop :=
  Forall (fun c => length (snd c) = length (index df)) (columns df).

(** A column that is there and holds no text. *)
Definition is_numeric (df : DataFrame) (name : string) : bool :=
  match lookup name (columns df) with
  | Some col => negb (is_text col)
  | None => false
  end.

(** The columns [engineer_features] does arithmetic on. *)
Definition numeric_inputs : list string :=
  [ "Speed_PreviousRun"; "JockeyRating"; "TrainerRating"; "daysSinceLastRun";
    "Market_Odds"; "Speed_2ndPreviousRun"; "MarketOdds_PreviousRun";
    "MarketOdds_2ndPreviousRun" ].

(** The columns [engineer_features] writes. *)
Definition produced : list string :=
  [ "rel_Speed_PreviousRun"; "rank_Speed_PreviousRun"; "z_Speed_PreviousRun";
    "Field_Size"; "JockeyTrainerCombo"; "SpeedTrainerInt"; "RecentRun"; "Ever_Won";
    "log_MarketOdds"; "MarketRank"; "Market_Prob"; "Market_Prob_Z"; "SpeedAvg2";
    "OddsAvg2"; "RaceMeanOdds"; "RaceStdOdds"; "OddsToMeanRatio"; "TrainerFormCombo";
    "TrainerRecencyCombo"; "Track_Experience"; "Distance"; "Distance_Bucket" ].

(** Those it writes whatever the table holds. *)
Definition features : list string :=
  [ "rel_Speed_PreviousRun"; "rank_Speed_PreviousRun"; "z_Speed_PreviousRun";
    "Field_Size"; "JockeyTrainerCombo"; "SpeedTrainerInt"; "RecentRun";
    "log_MarketOdds"; "MarketRank"; "Market_Prob"; "Market_Prob_Z"; "SpeedAvg2";
    "OddsAvg2"; "RaceMeanOdds"; "RaceStdOdds"; "OddsToMeanRatio"; "TrainerFormCombo";
    "TrainerRecencyCombo" ].

(** [df'] is [df] after some columns of the list [names] were set, each
    with one cell per row. *)
Inductive extends (names : list string) (df : DataFrame) : DataFrame -> Prop :=
| extends_refl : extends names df df
| extends_setitem (df' : DataFrame) (name : string) (col : list cell) :
    extends names df df' ->
    In name names ->
    length col = length (index df) ->
    extends names df (setitem df' name col).

(** What [engineer_features] needs for its first seven steps: the columns
    it groups by, and numbers in the columns it computes with. *)
Definition ready (df : DataFrame) : Prop :=
  well_formed df /\
  has_column df "Race_ID" = true /\
  has_column df "Horse" = true /\
  (forall c, In c numeric_inputs -> is_numeric df c = true) /\
  (has_column df "PastWins" = true -> is_numeric df "PastWins" = true).

(** [race_table] as it is before the race: without the win labels. *)
Definition entries_table : DataFrame :=
  {| index := index Examples.race_table;
     columns := filter (fun c => negb (String.eqb (fst c) "Winner"))
                       (columns Examples.race_table) |}.

(** A column of identifiers: integers throughout or strings throughout,
    none of them missing. *)
Definition id_column (col : list cell) : bool :=
  forallb is_int col || forallb is_str col.

(** A table on which the merge of [add_rolling_win_rates] finds its keys
    and joins each row with its own rolling value: the rows are labelled
    0, 1, ... as [read_csv] and [merge] label them, a column [level_1]
    holds these labels, [JockeyID] and [TrainerID] hold identifiers,
    [Winner] holds the numbers [winner], and there is no win-rate column
    yet. *)
Definition rolling_table (df : DataFrame) (jockeys trainers : list cell)
    (winner : list Num.num) : Prop :=
  index df = RangeIndex (length winner) /\
  getitem df "level_1" = inr (RangeIndex (length winner)) /\
  getitem df "JockeyID" = inr jockeys /\
  getitem df "TrainerID" = inr trainers /\
  (exists w, getitem df "Winner" = inr w /\ as_nums w = inr winner) /\
  length jockeys = length winner /\
  length trainers = length winner /\
  id_column jockeys = true /\
  id_column trainers = true /\
  has_column df "JockeyID_WinRate50" = false /\
  has_column df "TrainerID_WinRate50" = false.

(** The races of jockey 7 and trainer 3 with the win indicators [winner],
    in a table that carries its row labels in [level_1]. *)
Definition career_table (winner : list Num.num) : DataFrame :=
  {| index := RangeIndex (length winner);
     columns := [ ("level_1", RangeIndex (length winner));
                  ("JockeyID", repeat (CInt 7) (length winner));
                  ("TrainerID", repeat (CInt 3) (length winner));
                  ("Winner", floats winner) ] |}.

(** Two runners of one race, the first one at odds of 0. *)
Definition zero_odds_table : DataFrame :=
  {| index := RangeIndex 2;
     columns := [ ("Race_ID", [CInt 1; CInt 1]);
                  ("Market_Odds", [CFloat (Num.Fin 0); CFloat (Num.Fin 2)]) ] |}.

End Frames.


(* ================================================================== *)
(** * Results *)

(** ** The exception monad *)

Lemma bind_inr (A B : Type) (m : result A) (k : A -> result B) (b : B) :
  bind m k = inr b -> exists a, m = inr a /\ k a = inr b.
Proof. destruct m as [e|a]; simpl; [discriminate|]. intros H. exists a. auto. Qed.

Lemma mapM_ok (A B : Type) (f : A -> result B) (g : A -> B) (l : list A) :
  (forall a, In a l -> f a = inr (g a)) -> mapM f l = inr (map g l).
Proof.
  induction l as [|a l IH]; intros Hf; simpl; [reflexivity|].
  rewrite (Hf a) by (left; reflexivity). simpl.
  rewrite IH by (intros b Hb; apply Hf; right; exact Hb).
  reflexivity.
Qed.

(** ** Joins *)

Section LeftJoin.
Variables A B : Type.
Variable matches : A -> B -> bool.

Lemma left_join_spec (l : list A) (r : list B) (a : A) (ob : option B) :
  In (a, ob) (Pandas.left_join matches l r) <->
  In a l /\
  match ob with
  | Some b => In b r /\ matches a b = true
  | None => forall b, In b r -> matches a b = false
  end.
Proof.
  unfold Pandas.left_join. rewrite in_flat_map. split.
  - intros (a' & Ha' & Hin).
    destruct (filter (matches a') r) as [|m ms] eqn:Hf.
    + destruct Hin as [Heq|[]]. inversion Heq; subst a' ob. split; [assumption|].
      intros b Hb. destruct (matches a b) eqn:Hm; [|reflexivity].
      assert (Hc : In b (filter (matches a) r)) by (apply filter_In; auto).
      rewrite Hf in Hc. destruct Hc.
    + rewrite in_map_iff in Hin. destruct Hin as (b & Heq & Hb).
      inversion Heq; subst a' ob. rewrite <- Hf in Hb.
      apply filter_In in Hb. tauto.
  - intros (Ha & Hob). exists a. split; [assumption|].
    destruct ob as [b|].
    + destruct Hob as (Hb & Hm).
      assert (Hc : In b (filter (matches a) r)) by (apply filter_In; auto).
      destruct (filter (matches a) r) as [|m ms]; [destruct Hc|].
      apply (in_map (fun b' => (a, Some b'))). exact Hc.
    + destruct (filter (matches a) r) as [|m ms] eqn:Hf; [left; reflexivity|].
      assert (Hc : In m (filter (matches a) r)) by (rewrite Hf; left; reflexivity).
      apply filter_In in Hc. destruct Hc as (Hc1 & Hc2).
      rewrite (Hob m Hc1) in Hc2. discriminate.
Qed.

(** A left join keeps every left row. *)
Lemma left_join_keeps (l : list A) (r : list B) (a : A) :
  In a l -> exists ob, In (a, ob) (Pandas.left_join matches l r).
Proof.
  intros Ha. destruct (filter (matches a) r) as [|m ms] eqn:Hf.
  - exists None. apply left_join_spec. split; [assumption|].
    intros b Hb. destruct (matches a b) eqn:Hm; [|reflexivity].
    assert (Hc : In b (filter (matches a) r)) by (apply filter_In; auto).
    rewrite Hf in Hc. destruct Hc.
  - exists (Some m). apply left_join_spec. split; [assumption|].
    assert (Hc : In m (filter (matches a) r)) by (rewrite Hf; left; reflexivity).
    apply filter_In in Hc. exact Hc.
Qed.

End LeftJoin.

(* ================================================================== *)
(** * src/processing/combine.py: the edge backtest *)

Module CombineFacts.
Import Combine Examples.

Lemma float_neq (x y : float) : PrimFloat.eqb x y = false -> PrimFloat.eqb y y = true -> x <> y.
Proof. intros Hxy Hyy Heq. subst x. rewrite Hyy in Hxy. discriminate. Qed.

(** Every row of the backtest table is [edge_row] of a prediction row,
    the market row merged to it (if any) and the label row merged to it (if
    any). *)
Lemma backtest_row_origin preds market labels b :
  In b (create_edge_backtest_file preds market labels) <->
  exists p om ol,
    b = edge_row ((p, om), ol) /\
    In (p, om) (merge_market preds market) /\
    In ((p, om), ol) (merge_labels (merge_market preds market) labels).
Proof.
  unfold create_edge_backtest_file. rewrite in_map_iff. split.
  - intros ([[p om] ol] & Hb & Hin). exists p, om, ol. repeat split; auto.
    unfold merge_labels in Hin. apply left_join_spec in Hin. tauto.
  - intros (p & om & ol & Hb & _ & Hin). exists ((p, om), ol). auto.
Qed.

(** C9, as stated, fails: in binary64 the record with predicted probability
    0.30 and odds 4.0 does not get the edge score 0.05. *)
Lemma edge_score_example_is_not_0_05 :
  ~ (forall preds market labels b,
        In b (create_edge_backtest_file preds market labels) ->
        Predicted_Probability b = 0.30%float ->
        Market_Odds b = 4.0%float ->
        Edge_Score b = 0.05%float).
Proof.
  intros H.
  assert (Hrow : exists b,
             create_edge_backtest_file example_preds example_market example_labels = [b] /\
             Predicted_Probability b = 0.30%float /\
             Market_Odds b = 4.0%float /\
             PrimFloat.eqb (Edge_Score b) 0.05%float = false).
  { eexists. split; [vm_compute; reflexivity|]. repeat split; vm_compute; reflexivity. }
  destruct Hrow as (b & Htable & Hp & Ho & Hne).
  assert (Hin : In b (create_edge_backtest_file example_preds example_market example_labels))
    by (rewrite Htable; left; reflexivity).
  specialize (H _ _ _ b Hin Hp Ho).
  revert H. apply float_neq; [exact Hne | vm_compute; reflexivity].
Qed.

(** C9, amended: every row of the backtest table has market probability
    [1 / odds] and edge score [probability - market probability], in
    binary64 arithmetic; for predicted probability 0.30 and odds 4.0 the
    market probability is 0.25 exactly and the edge score is the float
    0.04999999999999999 (0x1.9999999999998p-5), less than 1e-16 away from
    0.05. *)
Theorem edge_score_is_probability_minus_implied :
  (forall preds market labels b,
      In b (create_edge_backtest_file preds market labels) ->
      Market_Prob b = PrimFloat.div 1%float (Market_Odds b) /\
      Edge_Score b = PrimFloat.sub (Predicted_Probability b) (Market_Prob b)) /\
  (exists b,
      create_edge_backtest_file example_preds example_market example_labels = [b] /\
      Predicted_Probability b = 0.30%float /\
      Market_Odds b = 4.0%float /\
      Market_Prob b = 0.25%float /\
      Edge_Score b = 0x1.9999999999998p-5%float /\
      PrimFloat.ltb (PrimFloat.abs (PrimFloat.sub (Edge_Score b) 0.05%float)) 1e-16%float = true).
Proof.
  split.
  - intros preds market labels b Hb. apply backtest_row_origin in Hb.
    destruct Hb as (p & om & ol & -> & _ & _). split; reflexivity.
  - eexists. split; [vm_compute; reflexivity|].
    repeat split; vm_compute; reflexivity.
Qed.

(** C10: a prediction row whose key (Race_ID, Horse) has no match in the
    labels table is kept in the backtest table, and every backtest row with
    that key has [True_Label] 0: the missing position is read as a loss. *)
Theorem unmatched_prediction_gets_label_0 preds market labels p :
  In p preds ->
  (forall l, In l labels ->
             same_key (preds_Race_ID p) (preds_Horse p)
                      (labels_Race_ID l) (labels_Horse l) = false) ->
  (exists b, In b (create_edge_backtest_file preds market labels) /\
             Race_ID b = preds_Race_ID p /\ Horse b = preds_Horse p) /\
  (forall b, In b (create_edge_backtest_file preds market labels) ->
             Race_ID b = preds_Race_ID p -> Horse b = preds_Horse p ->
             True_Label b = 0%Z).
Proof.
  intros Hp Hno. split.
  - destruct (left_join_keeps
                (fun p m => same_key (preds_Race_ID p) (preds_Horse p)
                                     (market_Race_ID m) (market_Horse m))
                preds market p Hp) as (om & Hom).
    destruct (left_join_keeps
                (fun r l => same_key (preds_Race_ID (fst r)) (preds_Horse (fst r))
                                     (labels_Race_ID l) (labels_Horse l))
                (merge_market preds market) labels (p, om) Hom) as (ol & Hol).
    exists (edge_row ((p, om), ol)). split; [|split; reflexivity].
    apply backtest_row_origin. exists p, om, ol. auto.
  - intros b Hb Hrace Hhorse. apply backtest_row_origin in Hb.
    destruct Hb as (q & om & ol & -> & _ & Hin).
    unfold merge_labels in Hin. apply left_join_spec in Hin.
    destruct Hin as (_ & Hol). simpl in Hrace, Hhorse, Hol.
    destruct ol as [l|].
    + destruct Hol as (Hl & Hm). rewrite Hrace, Hhorse in Hm.
      rewrite (Hno l Hl) in Hm. discriminate.
    + reflexivity.
Qed.

(** An instance: the prediction for horse B has no label row. *)
Lemma unmatched_prediction_gets_label_0_witness :
  (exists b,
      In b (create_edge_backtest_file
              (Build_preds_row 1 "B" 0.5 :: example_preds) example_market example_labels) /\
      Race_ID b = 1%Z /\ Horse b = "B"%string) /\
  (forall b,
      In b (create_edge_backtest_file
              (Build_preds_row 1 "B" 0.5 :: example_preds) example_market example_labels) ->
      Race_ID b = 1%Z -> Horse b = "B"%string -> True_Label b = 0%Z).
Proof.
  apply (@unmatched_prediction_gets_label_0
           (Build_preds_row 1 "B" 0.5 :: example_preds) example_market example_labels
           (Build_preds_row 1 "B" 0.5)).
  - left. reflexivity.
  - intros l [<-|[]]. reflexivity.
Defined.

End CombineFacts.

(* ================================================================== *)
(** * src/features.py: bucketing *)

Module BucketFacts.
Import Num Pandas Features Examples.
Local Open Scope R_scope.

(** Decides the comparisons of real constants met while a definition is
    evaluated on concrete numbers. *)
Ltac decide_reals :=
  repeat match goal with
         | |- context [Rlt_dec ?a ?b] => destruct (Rlt_dec a b); try lra
         | |- context [Req_dec_T ?a ?b] => destruct (Req_dec_T a b); try lra
         end.

(** The form buckets are the half-open intervals (-1,7], (7,30], (30,90]
    and (90,9999]: a value above the lower edge of one of them and not
    above its upper edge gets its label. *)
Lemma RecentRun_intervals (d lo hi : R) (label : string) :
  In (lo, hi, label)
     [ (-1, 7, "<7d"%string); (7, 30, "8–30d"%string);
       (30, 90, "31–90d"%string); (90, 9999, "90d+"%string) ] ->
  lo < d <= hi ->
  RecentRun (Fin d) = Some label.
Proof.
  intros Hin Hd.
  unfold RecentRun, RecentRun_bins, RecentRun_labels, cut, searchsorted_left.
  simpl in Hin.
  decompose [or] Hin; clear Hin;
    match goal with
    | H : (_, _, _) = (_, _, _) |- _ => inversion H; subst; clear H
    | H : False |- _ => destruct H
    end;
    simpl; decide_reals; reflexivity.
Qed.

(** Outside of (-1, 9999] there is no bucket. *)
Lemma RecentRun_out_of_range (d : R) :
  d <= -1 \/ 9999 < d -> RecentRun (Fin d) = None.
Proof.
  intros Hd.
  unfold RecentRun, RecentRun_bins, RecentRun_labels, cut, searchsorted_left.
  simpl. destruct Hd; decide_reals; reflexivity.
Qed.

Lemma RecentRun_missing : RecentRun NaN = None.
Proof. reflexivity. Qed.

(** The distance buckets are right-closed as well. *)
Lemma Distance_Bucket_intervals (d lo hi : R) (label : string) :
  In (lo, hi, label)
     [ (0, 1200, "Sprint"%string); (1200, 1600, "Mile"%string);
       (1600, 2000, "Intermediate"%string); (2000, 2400, "Classic"%string);
       (2400, 3000, "Long"%string) ] ->
  lo < d <= hi ->
  Distance_Bucket (Fin d) = Some label.
Proof.
  intros Hin Hd.
  unfold Distance_Bucket, Distance_bins, Distance_labels, cut, searchsorted_left.
  simpl in Hin.
  decompose [or] Hin; clear Hin;
    match goal with
    | H : (_, _, _) = (_, _, _) |- _ => inversion H; subst; clear H
    | H : False |- _ => destruct H
    end;
    simpl; decide_reals; reflexivity.
Qed.

Lemma Distance_Bucket_marathon (d : R) :
  3000 < d -> Distance_Bucket (Fin d) = Some "Marathon"%string.
Proof.
  intros Hd.
  unfold Distance_Bucket, Distance_bins, Distance_labels, cut, searchsorted_left.
  simpl. decide_reals; reflexivity.
Qed.

Section Distance.
Variable repr_float : R -> string.

Lemma Distance_numeric_2400m :
  Distance_numeric repr_float (CStr "2400m") = Fin 2400.
Proof.
  unfold Distance_numeric, astype_str.
  replace (str_extract "2400m") with (Some "2400"%string) by reflexivity.
  unfold to_numeric.
  replace (span_digits "2400") with ("2400"%string, ""%string) by reflexivity.
  cbv iota beta. unfold decimal_value.
  replace (digits_value "2400" 0) with 2400%N by reflexivity.
  replace (digits_value "" 0) with 0%N by reflexivity.
  f_equal. simpl. lra.
Qed.

Lemma Distance_numeric_garbage :
  Distance_numeric repr_float (CStr "garbage") = NaN.
Proof. reflexivity. Qed.

(** C5, amended: the text 2400m is parsed to the number 2400, which falls
    in the right-closed bin (2000, 2400] and gets the bucket Classic (Long
    is (2400, 3000]); the text garbage is parsed to a missing number, whose
    bucket is missing.  [add_track_distance_features] writes both into the
    columns [Distance] and [Distance_Bucket]. *)
Theorem distance_bucketing_examples :
  Distance_numeric repr_float (CStr "2400m") = Fin 2400 /\
  Distance_Bucket (Fin 2400) = Some "Classic"%string /\
  Distance_numeric repr_float (CStr "garbage") = NaN /\
  Distance_Bucket NaN = None /\
  add_track_distance_features repr_float distance_example =
    inr {| index := RangeIndex 2;
           columns := [ ("Distance"%string, [CFloat (Fin 2400); NA]);
                        ("Distance_Bucket"%string, [CStr "Classic"; NA]) ] |}.
Proof.
  assert (Hc : Distance_Bucket (Fin 2400) = Some "Classic"%string).
  { apply (@Distance_Bucket_intervals 2400 2000 2400); [simpl; tauto | lra]. }
  split; [apply Distance_numeric_2400m|].
  split; [exact Hc|].
  split; [reflexivity|].
  split; [reflexivity|].
  unfold add_track_distance_features, distance_example, has_column. simpl.
  unfold setitem. simpl.
  rewrite Distance_numeric_2400m, Distance_numeric_garbage, Hc.
  reflexivity.
Qed.

End Distance.

(** C5, as stated, fails: the distance 2400 parsed from the text 2400m is
    not put in the bucket Long. *)
Lemma distance_2400m_is_not_Long :
  ~ (forall repr_float : R -> string,
        Distance_numeric repr_float (CStr "2400m") = Fin 2400 /\
        Distance_Bucket (Distance_numeric repr_float (CStr "2400m")) = Some "Long"%string).
Proof.
  intros H. destruct (H (fun _ => EmptyString)) as (_ & Hlong).
  rewrite Distance_numeric_2400m in Hlong.
  rewrite (@Distance_Bucket_intervals 2400 2000 2400 "Classic"%string) in Hlong.
  - discriminate.
  - simpl. tauto.
  - lra.
Qed.

End BucketFacts.

(* ================================================================== *)
(** * src/features.py: the rolling mean *)

Module RollingFacts.
Import Num Pandas Features Examples.
Local Open Scope R_scope.

Lemma observations_length (l : list num) :
  (length (observations l) <= length l)%nat.
Proof.
  induction l as [|a l IH]; simpl; [lia|].
  destruct a; simpl; lia.
Qed.

Lemma window_at_length (w : nat) (l : list num) (i : nat) :
  (length (window_at w l i) <= i + 1)%nat.
Proof.
  unfold window_at. rewrite length_skipn, length_firstn. lia.
Qed.

(** The window of row [i] only reads the rows up to [i]. *)
Lemma window_at_prefix (w : nat) (l : list num) (i : nat) :
  window_at w (firstn (i + 1) l) i = window_at w l i.
Proof.
  unfold window_at. rewrite firstn_firstn, Nat.min_id. reflexivity.
Qed.

(** The value of the rolling mean at row [i]. *)
Lemma rolling_mean_nth (w mp : nat) (l : list num) (i : nat) :
  (i < length l)%nat ->
  nth_error (rolling_mean w mp l) i =
  Some (let obs := observations (window_at w l i) in
        if (length obs <? Nat.max 1 mp)%nat then NaN
        else Fin (Rsum obs / INR (length obs))).
Proof.
  intros Hi. unfold rolling_mean.
  rewrite nth_error_map, nth_error_seq.
  apply Nat.ltb_lt in Hi. rewrite Hi. reflexivity.
Qed.

Lemma WinRate50_history_win :
  nth_error (WinRate50 history_win) 9 = Some (Fin (1 / 10)).
Proof.
  unfold WinRate50. rewrite rolling_mean_nth by (simpl; lia).
  simpl. do 2 f_equal. lra.
Qed.

Lemma WinRate50_history_loss :
  nth_error (WinRate50 history_loss) 9 = Some (Fin 0).
Proof.
  unfold WinRate50. rewrite rolling_mean_nth by (simpl; lia).
  simpl. do 2 f_equal. lra.
Qed.

(** The window of row [i] is cut from the rows before [i] and ends with
    row [i] itself. *)
Lemma window_at_snoc (w : nat) (l : list num) (i : nat) (v : num) :
  (0 < w)%nat -> nth_error l i = Some v ->
  window_at w l i = skipn (i + 1 - w) (firstn i l) ++ [v].
Proof.
  intros Hw Hv. unfold window_at.
  assert (Hlen : (i < length l)%nat) by (apply nth_error_Some; congruence).
  assert (Hsplit : firstn (i + 1) l = firstn i l ++ [v]).
  { clear Hw. revert i Hv Hlen. induction l as [|a l IH]; intros i Hv Hlen.
    - simpl in Hlen. lia.
    - destruct i as [|i]; simpl in *.
      + congruence.
      + f_equal. apply IH; [assumption | lia]. }
  rewrite Hsplit, skipn_app.
  replace (i + 1 - w - length (firstn i l))%nat with 0%nat
    by (rewrite length_firstn; lia).
  reflexivity.
Qed.

(** The value of [WinRate50] at row [n]: missing when the window of the 50
    rows up to and including [n] holds fewer than ten observations, their
    mean otherwise. *)
Lemma WinRate50_nth (winner : list num) (n : nat) :
  (n < length winner)%nat ->
  nth_error (WinRate50 winner) n =
  Some (let obs := observations (window_at 50 winner n) in
        if (length obs <? 10)%nat then NaN
        else Fin (Rsum obs / INR (length obs))).
Proof.
  intros Hn. unfold WinRate50. rewrite rolling_mean_nth by assumption. reflexivity.
Qed.

Lemma WinRate50_length (winner : list num) :
  length (WinRate50 winner) = length winner.
Proof. unfold WinRate50, rolling_mean. rewrite length_map, length_seq. reflexivity. Qed.

(** The rows that [groupby_rolling] makes for one group carry the rolling
    kernel of the values of that group, next to the labels of its rows. *)
Lemma groupby_rolling_rows (K L : Type) (K_eqb : K -> K -> bool)
    (roll : list num -> list num) keys (labels : list L) vals k l v :
  In (k, (l, v)) (groupby_rolling K_eqb roll keys labels vals) ->
  In (l, v) (combine (get_group K_eqb k keys labels)
                     (roll (get_group K_eqb k keys vals))).
Proof.
  unfold groupby_rolling. rewrite in_flat_map.
  intros (k' & _ & Hin). rewrite in_map_iff in Hin.
  destruct Hin as (lv & Heq & Hin). inversion Heq; subst. exact Hin.
Qed.

(** In the frame [rolling] of [add_rolling_win_rates] the value column
    holds, for each jockey or trainer, [WinRate50] of the win indicators of
    that entity in row order. *)
Lemma rolling_frame_values (df rolling : DataFrame) (col : string) :
  rolling_frame df col = inr rolling ->
  exists keys winner rows,
    getitem df col = inr keys /\
    getitem df "Winner"%string = inr winner /\
    as_nums winner = inr rows /\
    forall k l v,
      In (k, (l, v)) (groupby_rolling cell_eqb WinRate50 (map group_key keys) (index df) rows) ->
      In (l, v) (combine (get_group cell_eqb k (map group_key keys) (index df))
                         (WinRate50 (get_group cell_eqb k (map group_key keys) rows))).
Proof.
  unfold rolling_frame. intros Hrun.
  apply bind_inr in Hrun. destruct Hrun as (keys & Hk & Hrun).
  apply bind_inr in Hrun. destruct Hrun as (winner & Hw & Hrun).
  apply bind_inr in Hrun. destruct Hrun as (rows & Hn & _).
  exists keys, winner, rows. repeat split; try assumption.
  intros k l v. apply groupby_rolling_rows.
Qed.

End RollingFacts.

(* ================================================================== *)
(** * src/model.py: the folds of the cross-validation *)

Module FoldFacts.
Import Num Pandas Sklearn Model Examples.

Lemma in_combine_seq (A : Type) (l : list A) (s i : nat) (x : A) :
  In (i, x) (combine (seq s (length l)) l) <->
  s <= i /\ nth_error l (i - s) = Some x.
Proof.
  revert s. induction l as [|a l IH]; intros s; simpl.
  - split; [intros [] | intros (_ & H)]. destruct (i - s); discriminate.
  - rewrite IH. split.
    + intros [Heq | (Hle & Hnth)].
      * inversion Heq; subst. rewrite Nat.sub_diag. auto.
      * split; [lia|]. replace (i - s) with (S (i - S s)) by lia. exact Hnth.
    + intros (Hle & Hnth). destruct (i - s) as [|d] eqn:Hd.
      * left. inversion Hnth. f_equal. lia.
      * right. split; [lia|]. replace (i - S s) with d by lia. exact Hnth.
Qed.

(** [np_where] lists exactly the positions where the mask holds. *)
Lemma np_where_spec (A : Type) (p : A -> bool) (l : list A) (i : nat) :
  In i (np_where p l) <-> exists x, nth_error l i = Some x /\ p x = true.
Proof.
  unfold np_where. rewrite in_map_iff. split.
  - intros ([i' x] & Hi & Hin). simpl in Hi. subst i'.
    apply filter_In in Hin. destruct Hin as (Hin & Hp).
    apply in_combine_seq in Hin. rewrite Nat.sub_0_r in Hin.
    exists x. tauto.
  - intros (x & Hnth & Hp). exists (i, x). split; [reflexivity|].
    apply filter_In. split; [|exact Hp].
    apply in_combine_seq. rewrite Nat.sub_0_r. split; [lia | exact Hnth].
Qed.

Lemma in_iloc (A : Type) (s : list A) (idx : list nat) (a : A) :
  In a (iloc s idx) <-> exists i, In i idx /\ nth_error s i = Some a.
Proof.
  unfold iloc. rewrite in_flat_map. split.
  - intros (i & Hi & Hin). exists i. split; [assumption|].
    destruct (nth_error s i); [|destruct Hin].
    destruct Hin as [->|[]]. reflexivity.
  - intros (i & Hi & Hnth). exists i. split; [assumption|].
    rewrite Hnth. left. reflexivity.
Qed.

(** The fold of a row is a function of its race identifier. *)
Lemma fold_of_rows_by_group (n_splits : nat) (groups : list Z) :
  exists fold_of_group : Z -> nat,
    fold_of_rows n_splits groups = map fold_of_group groups.
Proof.
  unfold fold_of_rows. eexists. rewrite map_map. reflexivity.
Qed.

(** The folds that [GroupKFold_split] returns, read off the fold of each
    row. *)
Lemma GroupKFold_split_folds (n_splits : nat) (groups : list Z) folds train_idx val_idx :
  GroupKFold_split n_splits groups = inr folds ->
  In (train_idx, val_idx) folds ->
  exists f,
    f < n_splits /\
    train_idx = np_where (fun i => negb (i =? f)) (fold_of_rows n_splits groups) /\
    val_idx = np_where (fun i => i =? f) (fold_of_rows n_splits groups).
Proof.
  unfold GroupKFold_split.
  destruct (n_splits <? 2); [discriminate|].
  destruct (length groups <? n_splits); [discriminate|].
  destruct (length (np_unique groups) <? n_splits); [discriminate|].
  intros Heq Hin. inversion Heq; subst folds. clear Heq.
  rewrite in_map_iff in Hin. destruct Hin as (f & Hf & Hin).
  inversion Hf; subst. exists f. rewrite in_seq in Hin.
  repeat split; lia.
Qed.

(** C1: in every fold that [train_and_evaluate] makes, no race group has
    rows both among the training rows and among the validation rows; two
    rows of the same race are either both validation rows of the fold or
    both training rows; and each row of the table is in one of the two. *)
Theorem folds_keep_race_groups_whole
    (fit_predict : list nat -> list nat -> list nat -> list nat -> list num)
    (metrics : list nat -> list num -> result (num * num))
    (race_ids : list Z) (num_folds : nat) folds probs train_idx val_idx :
  train_and_evaluate fit_predict metrics race_ids num_folds = inr (folds, probs) ->
  In (train_idx, val_idx) folds ->
  (forall g, In g (race_groups race_ids train_idx) ->
             ~ In g (race_groups race_ids val_idx)) /\
  (forall i j g, nth_error race_ids i = Some g -> nth_error race_ids j = Some g ->
                 (In i val_idx <-> In j val_idx) /\
                 (In i train_idx <-> In j train_idx)) /\
  (forall i, i < length race_ids -> In i train_idx \/ In i val_idx).
Proof.
  intros Hrun Hin. unfold train_and_evaluate in Hrun.
  apply bind_inr in Hrun. destruct Hrun as (folds' & Hsplit & Hrest).
  apply bind_inr in Hrest. destruct Hrest as (oof_scores & _ & Hrest).
  apply bind_inr in Hrest. destruct Hrest as (probs' & _ & Hrest).
  apply bind_inr in Hrest. destruct Hrest as (losses & _ & Hret).
  inversion Hret; subst folds' probs'. clear Hret.
  destruct (@GroupKFold_split_folds _ _ _ _ _ Hsplit Hin) as (f & _ & -> & ->).
  destruct (fold_of_rows_by_group num_folds race_ids) as (F & HF). rewrite HF.
  assert (Hrow : forall p i,
             In i (np_where p (map F race_ids)) <->
             exists g, nth_error race_ids i = Some g /\ p (F g) = true).
  { intros p i. rewrite np_where_spec. rewrite nth_error_map. split.
    - intros (x & Hx & Hp). destruct (nth_error race_ids i) as [g|]; [|discriminate].
      inversion Hx; subst. exists g. auto.
    - intros (g & Hg & Hp). exists (F g). rewrite Hg. auto. }
  split; [|split].
  - intros g Htr Hva. unfold race_groups in *.
    apply in_iloc in Htr. destruct Htr as (i & Hi & Hgi).
    apply in_iloc in Hva. destruct Hva as (j & Hj & Hgj).
    apply Hrow in Hi. destruct Hi as (g1 & Hg1 & Hp1).
    apply Hrow in Hj. destruct Hj as (g2 & Hg2 & Hp2).
    assert (g1 = g) by congruence. assert (g2 = g) by congruence. subst g1 g2.
    rewrite Hp2 in Hp1. discriminate.
  - intros i j g Hi Hj. rewrite !Hrow. split; split; intros (g' & Hg' & Hp);
      exists g; (split; [assumption|]); congruence.
  - intros i Hi. apply nth_error_Some in Hi.
    destruct (nth_error race_ids i) as [g|] eqn:Hg; [|congruence].
    destruct (F g =? f) eqn:Hf.
    + right. apply Hrow. exists g. auto.
    + left. apply Hrow. exists g. rewrite Hf. auto.
Qed.

Lemma example_folds :
  GroupKFold_split 2 example_race_ids
  = inr [([0; 1; 6], [2; 3; 4; 5]); ([2; 3; 4; 5], [0; 1; 6])].
Proof. reflexivity. Qed.

(** The first fold of the example: races 10 and 40 train, races 20 and 30
    validate. *)
Lemma folds_keep_race_groups_whole_witness :
  exists probs,
    train_and_evaluate constant_scores constant_metrics example_race_ids 2
    = inr ([([0; 1; 6], [2; 3; 4; 5]); ([2; 3; 4; 5], [0; 1; 6])], probs) /\
    (forall g, In g (race_groups example_race_ids [0; 1; 6]) ->
               ~ In g (race_groups example_race_ids [2; 3; 4; 5])).
Proof.
  assert (Hrun : { probs | train_and_evaluate constant_scores constant_metrics example_race_ids 2
                   = inr ([([0; 1; 6], [2; 3; 4; 5]); ([2; 3; 4; 5], [0; 1; 6])], probs) }).
  { eexists. unfold train_and_evaluate. rewrite example_folds. lazy -[Rtrigo_def.exp Rplus Rminus Rdiv Rmult Ropp Rinv IZR Rlt_dec Req_dec_T]. reflexivity. }
  destruct Hrun as (probs & Hrun). exists probs. split; [exact Hrun|].
  apply (@folds_keep_race_groups_whole constant_scores constant_metrics example_race_ids 2 _ probs
           [0; 1; 6] [2; 3; 4; 5] Hrun).
  left. reflexivity.
Defined.

End FoldFacts.

(* ================================================================== *)
(** * Finite columns *)

Module NumFacts.
Import Num Pandas.
Local Open Scope R_scope.

Lemma fold_left_Rplus (l : list R) (a : R) :
  fold_left Rplus l a = a + Rsum l.
Proof.
  revert a. induction l as [|x l IH]; intros a; simpl; [lra|].
  rewrite IH. lra.
Qed.

(** Summing finite cells is summing reals. *)
Lemma fold_left_add_Fin (l : list R) (a : R) :
  fold_left add (map Fin l) (Fin a) = Fin (a + Rsum l).
Proof.
  revert a. induction l as [|x l IH]; intros a; simpl.
  - f_equal. lra.
  - rewrite IH. f_equal. lra.
Qed.

Lemma np_sum_Fin (l : list R) : np_sum (map Fin l) = Fin (Rsum l).
Proof. unfold np_sum. rewrite fold_left_add_Fin. f_equal. lra. Qed.

Lemma dropna_Fin (l : list R) : dropna (map Fin l) = map Fin l.
Proof. induction l as [|x l IH]; simpl; [reflexivity|]. rewrite IH. reflexivity. Qed.

Lemma Rsum_map_scale (l : list R) (c : R) :
  Rsum (map (fun x => x * c) l) = Rsum l * c.
Proof. induction l as [|x l IH]; simpl; [lra|]. rewrite IH. lra. Qed.

Lemma Rsum_const (l : list R) (c : R) :
  (forall x, In x l -> x = c) -> Rsum l = INR (length l) * c.
Proof.
  induction l as [|x l IH]; intros Hc.
  - simpl. lra.
  - assert (Hx : x = c) by (apply Hc; left; reflexivity).
    assert (Hl : Rsum l = INR (length l) * c)
      by (apply IH; intros z Hz; apply Hc; right; exact Hz).
    change (Rsum (x :: l)) with (x + Rsum l).
    change (length (x :: l)) with (S (length l)).
    rewrite S_INR, Hl, Hx. lra.
Qed.

End NumFacts.

(* ================================================================== *)
(** * src/model.py: the softmax calibration *)

Module SoftmaxFacts.
Import Num Pandas Model NumFacts.
Local Open Scope R_scope.

Lemma max_Fin (x y : R) : max (Fin x) (Fin y) = Fin (Rmax x y).
Proof.
  unfold max, ltb, Rmax.
  destruct (Rlt_dec x y), (Rle_dec x y); try reflexivity; try lra.
  f_equal. lra.
Qed.

(** On finite entries [np.max] returns the largest one. *)
Lemma fold_left_max_Fin (l : list R) (a : R) :
  exists m,
    fold_left max (map Fin l) (Fin a) = Fin m /\
    In m (a :: l) /\
    (forall x, In x (a :: l) -> x <= m).
Proof.
  revert a. induction l as [|y l IH]; intros a.
  - exists a. simpl. split; [reflexivity|]. split; [tauto|].
    intros x [->|[]]. lra.
  - change (fold_left max (map Fin (y :: l)) (Fin a))
      with (fold_left max (map Fin l) (max (Fin a) (Fin y))).
    rewrite max_Fin.
    destruct (IH (Rmax a y)) as (m & Hm & Hin & Hle). exists m.
    split; [exact Hm|]. split.
    + destruct Hin as [Hin|Hin]; [|right; right; exact Hin].
      subst m. unfold Rmax. destruct (Rle_dec a y); [right; left|left]; reflexivity.
    + intros x Hx. assert (Hmax : Rmax a y <= m) by (apply Hle; left; reflexivity).
      destruct Hx as [->|[->|Hx]].
      * pose proof (Rmax_l x y). lra.
      * pose proof (Rmax_r a x). lra.
      * apply Hle. right. exact Hx.
Qed.

Lemma exp_finite_nonneg (x : R) : 0 <= exp_finite x.
Proof.
  unfold exp_finite. destruct (Rlt_dec x exp_underflow); [lra|].
  left. apply exp_pos.
Qed.

Lemma exp_finite_0 : exp_finite 0 = 1.
Proof.
  unfold exp_finite, exp_underflow. destruct (Rlt_dec 0 _); [lra | apply exp_0].
Qed.

(** [np.exp] does not overflow at or below zero. *)
Lemma exp_nonpositive (x : R) : x <= 0 -> exp (Fin x) = Fin (exp_finite x).
Proof.
  intros Hx. unfold exp, exp_overflow. destruct (Rlt_dec _ x); [lra | reflexivity].
Qed.

Lemma Rsum_ge_member (l : list R) (x : R) :
  (forall y, In y l -> 0 <= y) -> In x l -> x <= Rsum l.
Proof.
  induction l as [|y l IH]; intros Hpos Hin; [destruct Hin|].
  simpl.
  assert (Hy : 0 <= y) by (apply Hpos; left; reflexivity).
  assert (Hl : 0 <= Rsum l).
  { clear IH Hin. induction l as [|z l IHl]; simpl; [lra|].
    assert (0 <= z) by (apply Hpos; right; left; reflexivity).
    assert (0 <= Rsum l).
    { apply IHl. intros w [->|Hw]; apply Hpos; [left | right; right]; auto. }
    lra. }
  destruct Hin as [->|Hin]; [lra|].
  assert (x <= Rsum l) by (apply IH; [intros w Hw; apply Hpos; right|]; assumption).
  lra.
Qed.

(** On finite scores [softmax_stable] shifts the scores by the largest one,
    [m]; no exponential overflows, the exponential of the largest score is
    1, and the result is the quotient of each exponential by their sum. *)
Lemma softmax_stable_finite (scores : list R) :
  scores <> [] ->
  exists m,
    In m scores /\
    let exp_x := map (fun v => exp_finite (v - m)) scores in
    1 <= Rsum exp_x /\
    softmax_stable (map Fin scores) = inr (map Fin (map (fun e => e / Rsum exp_x) exp_x)).
Proof.
  intros Hne. destruct scores as [|a l]; [congruence|].
  unfold softmax_stable. simpl np_max.
  destruct (fold_left_max_Fin l a) as (m & Hm & Hin & Hle).
  unfold ret, bind. rewrite Hm. exists m. split; [exact Hin|]. cbv zeta.
  set (scores := a :: l) in *.
  assert (Hone : 1 <= Rsum (map (fun v => exp_finite (v - m)) scores)).
  { rewrite <- exp_finite_0. apply Rsum_ge_member.
    - intros y Hy. apply in_map_iff in Hy. destruct Hy as (v & <- & _).
      apply exp_finite_nonneg.
    - apply in_map_iff. exists m. split; [f_equal; lra | exact Hin]. }
  split; [exact Hone|].
  f_equal.
  assert (Hsub : map (fun v => sub v (Fin m)) (map Fin scores)
                 = map Fin (map (fun v => v - m) scores)).
  { rewrite !map_map. apply map_ext. intros v. reflexivity. }
  rewrite Hsub.
  assert (Hexp : map exp (map Fin (map (fun v => v - m) scores))
                 = map Fin (map (fun v => exp_finite (v - m)) scores)).
  { rewrite !map_map. apply map_ext_in. intros v Hv.
    apply exp_nonpositive. specialize (Hle v Hv). lra. }
  rewrite Hexp, np_sum_Fin. rewrite !map_map. apply map_ext. intros v.
  unfold div. destruct (Req_dec_T _ 0) as [H0|_]; [lra | reflexivity].
Qed.

(** The probabilities of [softmax_stable] on finite scores: one per score,
    adding up to 1. *)
Lemma softmax_stable_normalised (scores : list R) :
  scores <> [] ->
  exists probs : list R,
    softmax_stable (map Fin scores) = inr (map Fin probs) /\
    length probs = length scores /\
    Rsum probs = 1.
Proof.
  intros Hne. destruct (softmax_stable_finite Hne) as (m & _ & Hpos & Hrun).
  cbv zeta in Hpos, Hrun. eexists. split; [exact Hrun|]. split.
  - rewrite !length_map. reflexivity.
  - unfold Rdiv. rewrite Rsum_map_scale. field. lra.
Qed.



(** ** The calibration as [groupby.transform] runs it *)

Lemma softmax_stable_Series_length (x : list num) :
  length (softmax_stable_Series x) = length x.
Proof. unfold softmax_stable_Series. rewrite !length_map. reflexivity. Qed.

Lemma notna_exp_Fin (x : R) : notna (exp (Fin x)) = true.
Proof. unfold exp. destruct (Rlt_dec exp_overflow x); reflexivity. Qed.

(** On finite scores the reductions of a Series and those of an array
    agree: nothing is skipped. *)
Lemma softmax_stable_Series_finite (scores : list R) :
  scores <> [] ->
  softmax_stable (map Fin scores) = inr (softmax_stable_Series (map Fin scores)).
Proof.
  intros Hne. destruct scores as [|a l]; [congruence|].
  destruct (fold_left_max_Fin l a) as (m & Hm & _ & _).
  assert (Hnp : np_max (map Fin (a :: l)) = inr (Fin m)).
  { change (np_max (map Fin (a :: l))) with (ret (A := num) (fold_left max (map Fin l) (Fin a))).
    rewrite Hm. reflexivity. }
  assert (Hseries : Series_max (map Fin (a :: l)) = Fin m).
  { unfold Series_max. rewrite dropna_Fin. exact Hm. }
  assert (Hall : forall r : list R,
             dropna (map exp (map (fun v => sub v (Fin m)) (map Fin r)))
             = map exp (map (fun v => sub v (Fin m)) (map Fin r))).
  { unfold dropna. induction r as [|v r IH]; [reflexivity|].
    cbn [map filter]. change (sub (Fin v) (Fin m)) with (Fin (v + - m)).
    rewrite notna_exp_Fin. f_equal. exact IH. }
  unfold softmax_stable, softmax_stable_Series. rewrite Hnp, Hseries.
  unfold bind, ret, nansum. cbv zeta. rewrite Hall. reflexivity.
Qed.

End SoftmaxFacts.

(* ================================================================== *)
(** * groupby *)

Module GroupByFacts.
Import Num Pandas.

(** A key produced by [group_key] is equal to itself. *)
Lemma group_key_refl (c k : cell) : group_key c = Some k -> cell_eqb k k = true.
Proof.
  unfold group_key. destruct (cell_isna c) eqn:Hna; [discriminate|].
  intros H; inversion H; subst k.
  destruct c as [z|x|s]; simpl.
  - apply Z.eqb_refl.
  - destruct x; simpl in *; try reflexivity; try discriminate.
    destruct (Req_dec_T r r); congruence.
  - apply String.eqb_refl.
Qed.

Section Groups.
Variables K A B : Type.
Variable K_eqb : K -> K -> bool.

Lemma get_group_cons (k : K) (o : option K) keys (a : A) vals :
  get_group K_eqb k (o :: keys) (a :: vals)
  = if has_key K_eqb k o then a :: get_group K_eqb k keys vals
    else get_group K_eqb k keys vals.
Proof. unfold get_group. simpl. destruct (has_key K_eqb k o); reflexivity. Qed.

(** The row [i] of the table sits in its group at the position counted by
    [group_pos]. *)
Lemma nth_error_get_group (k : K) (keys : list (option K)) (vals : list A)
    (i : nat) (v : A) :
  K_eqb k k = true ->
  nth_error keys i = Some (Some k) ->
  nth_error vals i = Some v ->
  nth_error (get_group K_eqb k keys vals) (group_pos K_eqb k (firstn i keys)) = Some v.
Proof.
  intros Hrefl. revert vals i.
  induction keys as [|o keys IH]; intros vals i Hk Hv.
  - destruct i; discriminate.
  - destruct vals as [|a vals]; [destruct i; discriminate|].
    rewrite get_group_cons. destruct i as [|i]; simpl in Hk, Hv.
    + inversion Hk; subst o. inversion Hv; subst a.
      simpl. rewrite Hrefl. reflexivity.
    + simpl firstn. unfold group_pos. simpl filter.
      destruct (has_key K_eqb k o); simpl; apply IH; assumption.
Qed.

(** [transform] with a function that maps each value of the group on its
    own, given the whole group: every row with a key gets the image of its
    value. *)
Lemma transform_pointwise (phi : list A -> A -> B) (na : B)
    (keys : list (option K)) (vals : list A) :
  length keys = length vals ->
  (forall k, In (Some k) keys -> K_eqb k k = true) ->
  exists out,
    transform K_eqb (fun g => ret (map (phi g) g)) na keys vals = inr out /\
    length out = length keys /\
    forall i k v,
      nth_error keys i = Some (Some k) ->
      nth_error vals i = Some v ->
      nth_error out i = Some (phi (get_group K_eqb k keys vals) v).
Proof.
  intros Hlen Hrefl.
  set (row := fun i =>
         match nth_error keys i, nth_error vals i with
         | Some (Some k), Some v => phi (get_group K_eqb k keys vals) v
         | _, _ => na
         end).
  exists (map row (seq 0 (length keys))).
  split; [|split].
  - unfold transform. apply mapM_ok. intros i Hi. apply in_seq in Hi.
    unfold row. destruct (nth_error keys i) as [[k|]|] eqn:Hk; try reflexivity.
    destruct (nth_error vals i) as [v|] eqn:Hv.
    + unfold bind, ret.
      pose proof (@nth_error_get_group k keys vals i v
                    (Hrefl k (nth_error_In _ _ Hk)) Hk Hv) as Hg.
      erewrite map_nth_error by exact Hg. reflexivity.
    + apply nth_error_None in Hv. lia.
  - rewrite length_map, length_seq. reflexivity.
  - intros i k v Hk Hv.
    assert (Hi : i < length keys) by (apply nth_error_Some; congruence).
    rewrite nth_error_map, nth_error_seq.
    apply Nat.ltb_lt in Hi. rewrite Hi. simpl. unfold row. rewrite Hk, Hv. reflexivity.
Qed.

End Groups.

Section Reassembly.
Variables K A B : Type.
Variable K_eqb : K -> K -> bool.

Lemma get_group_length (k : K) (keys : list (option K)) (vals : list A) :
  length keys = length vals ->
  length (get_group K_eqb k keys vals) = group_pos K_eqb k keys.
Proof.
  revert vals. induction keys as [|o keys IH]; intros vals Hlen.
  - reflexivity.
  - destruct vals as [|a vals]; [discriminate|].
    rewrite get_group_cons. unfold group_pos. simpl filter.
    destruct (has_key K_eqb k o); simpl; rewrite IH by (simpl in Hlen; lia);
      reflexivity.
Qed.

(** Gathering the rows of group [k] from a column whose rows of that group
    were filled, in order, from the list [hk]. *)
Lemma get_group_scattered (k : K) (hk : list B) (keys : list (option K))
    (outs : list B) (c : nat) :
  length keys = length outs ->
  (forall j, has_key K_eqb k (nth j keys None) = true -> (j < length keys)%nat ->
             nth_error outs j = nth_error hk (c + group_pos K_eqb k (firstn j keys)) /\
             nth_error outs j <> None) ->
  get_group K_eqb k keys outs = firstn (group_pos K_eqb k keys) (skipn c hk).
Proof.
  revert outs c. induction keys as [|o keys IH]; intros outs c Hlen Hrow.
  - reflexivity.
  - destruct outs as [|b outs]; [discriminate|].
    rewrite get_group_cons. unfold group_pos. simpl filter.
    destruct (has_key K_eqb k o) eqn:Hk.
    + destruct (Hrow 0%nat Hk) as (H0 & _); [simpl; lia|].
      simpl in H0. rewrite Nat.add_0_r in H0.
      assert (Hskip : skipn c hk = b :: skipn (S c) hk).
      { clear - H0. revert c H0. induction hk as [|x hk IHhk]; intros c H0.
        - destruct c; discriminate.
        - destruct c as [|c]; simpl in *.
          + inversion H0. reflexivity.
          + apply IHhk. exact H0. }
      simpl length. fold (group_pos K_eqb k keys). rewrite Hskip, firstn_cons. f_equal.
      apply (IH outs (S c)); [simpl in Hlen; lia|].
      intros j Hj Hlt. destruct (Hrow (S j)) as (H1 & H2); [exact Hj | simpl; lia|].
      simpl in H1, H2. unfold group_pos in H1. simpl filter in H1. rewrite Hk in H1.
      simpl length in H1. rewrite Nat.add_succ_r in H1. split; assumption.
    + fold (group_pos K_eqb k keys). apply (IH outs c); [simpl in Hlen; lia|].
      intros j Hj Hlt. destruct (Hrow (S j)) as (H1 & H2); [exact Hj | simpl; lia|].
      simpl in H1, H2. unfold group_pos in H1. simpl filter in H1. rewrite Hk in H1.
      split; assumption.
Qed.

(** [transform] group by group: when [f] turns the values of each group
    into as many results [h k], the call succeeds and the rows of each
    group hold [h k], in order. *)
Lemma transform_groups (f : list A -> result (list B)) (h : K -> list B) (na : B)
    (keys : list (option K)) (vals : list A) :
  length keys = length vals ->
  (forall k k', K_eqb k k' = true <-> k = k') ->
  (forall k, In (Some k) keys ->
             f (get_group K_eqb k keys vals) = inr (h k) /\
             length (h k) = length (get_group K_eqb k keys vals)) ->
  exists out,
    transform K_eqb f na keys vals = inr out /\
    length out = length keys /\
    forall k, In (Some k) keys -> get_group K_eqb k keys out = h k.
Proof.
  intros Hlen Heqb Hf.
  set (row := fun i =>
         match nth_error keys i with
         | Some (Some k) => nth (group_pos K_eqb k (firstn i keys)) (h k) na
         | _ => na
         end).
  assert (Hpos : forall i k, nth_error keys i = Some (Some k) ->
                 (group_pos K_eqb k (firstn i keys) < length (h k))%nat).
  { intros i k Hk.
    destruct (Hf k (nth_error_In _ _ Hk)) as (_ & Hl). rewrite Hl.
    assert (Hi : (i < length vals)%nat)
      by (rewrite <- Hlen; apply nth_error_Some; congruence).
    destruct (nth_error vals i) as [v|] eqn:Hv;
      [|apply nth_error_None in Hv; lia].
    apply nth_error_Some.
    rewrite (@nth_error_get_group K A K_eqb k keys vals i v
               (proj2 (Heqb k k) eq_refl) Hk Hv).
    discriminate. }
  exists (map row (seq 0 (length keys))).
  assert (Hlout : length (map row (seq 0 (length keys))) = length keys)
    by (rewrite length_map, length_seq; reflexivity).
  split; [|split; [exact Hlout|]].
  - unfold transform. apply mapM_ok. intros i Hi. unfold row.
    destruct (nth_error keys i) as [[k|]|] eqn:Hk; try reflexivity.
    destruct (Hf k (nth_error_In _ _ Hk)) as (Hrun & _). rewrite Hrun.
    unfold bind, ret. rewrite (nth_error_nth' (h k) na (Hpos i k Hk)). reflexivity.
  - intros k Hk.
    rewrite (@get_group_scattered k (h k) keys (map row (seq 0 (length keys))) 0).
    + destruct (Hf k Hk) as (_ & Hl).
      simpl skipn.
      rewrite <- (get_group_length k keys vals Hlen), <- Hl. apply firstn_all.
    + symmetry. exact Hlout.
    + intros j Hj Hlt.
      assert (Hkj : nth_error keys j = Some (Some k)).
      { rewrite (nth_error_nth' keys None Hlt).
        destruct (nth j keys None) as [k'|]; [|discriminate].
        simpl in Hj. apply Heqb in Hj. subst k'. reflexivity. }
      rewrite nth_error_map, nth_error_seq.
      apply Nat.ltb_lt in Hlt. rewrite Hlt. simpl. unfold row. rewrite Hkj.
      rewrite <- (nth_error_nth' (h k) na (Hpos j k Hkj)).
      split; [reflexivity|].
      apply nth_error_Some. exact (Hpos j k Hkj).
Qed.

End Reassembly.

End GroupByFacts.

(* ================================================================== *)
(** * src/features.py: the race-relative z-score *)

Module ZScoreFacts.
Import Num Pandas Features Statistics Examples NumFacts GroupByFacts.
Local Open Scope R_scope.

Lemma Rsum_squares_nonneg (f : R -> R) (l : list R) :
  0 <= Rsum (map (fun o => f o * f o) l).
Proof.
  induction l as [|x l IH]; simpl; [lra|].
  pose proof (Rle_0_sqr (f x)) as Hsq. unfold Rsqr in Hsq. lra.
Qed.

Section Group.
Variable g : list num.
Variable obs : list R.
Hypothesis Hobs : dropna g = map Fin obs.

Lemma count_finite : count g = length obs.
Proof. unfold count. rewrite Hobs, length_map. reflexivity. Qed.

Lemma mean_finite : (0 < length obs)%nat -> mean g = Fin (Rmean obs).
Proof.
  intros Hn. unfold mean. rewrite count_finite.
  destruct (length obs) as [|n] eqn:Hlen; [lia|].
  unfold nansum. rewrite Hobs, np_sum_Fin. unfold div.
  destruct (Req_dec_T (INR (S n)) 0) as [H0|_].
  - assert (0 < INR (S n)) by (apply lt_0_INR; lia). lra.
  - unfold Rmean. rewrite Hlen. reflexivity.
Qed.

Lemma var_finite (ddof : nat) :
  (ddof < length obs)%nat ->
  var ddof g = Fin (squared_deviations obs / INR (length obs - ddof)).
Proof.
  intros Hn. unfold var. rewrite count_finite.
  assert (Hle : (length obs <=? ddof)%nat = false) by (apply Nat.leb_gt; exact Hn).
  rewrite Hle, mean_finite by lia. rewrite Hobs.
  assert (Hsq : map (fun v => mul (sub (Fin (Rmean obs)) v) (sub (Fin (Rmean obs)) v))
                    (map Fin obs)
                = map Fin (map (fun o => (Rmean obs - o) * (Rmean obs - o)) obs)).
  { rewrite !map_map. apply map_ext. intros o. reflexivity. }
  rewrite Hsq, np_sum_Fin. unfold div.
  destruct (Req_dec_T (INR (length obs - ddof)) 0) as [H0|_].
  - assert (0 < INR (length obs - ddof)) by (apply lt_0_INR; lia). lra.
  - reflexivity.
Qed.

Lemma squared_deviations_nonneg : 0 <= squared_deviations obs.
Proof. unfold squared_deviations. apply Rsum_squares_nonneg. Qed.

Lemma std_finite :
  (1 < length obs)%nat -> std g = Fin (sample_deviation obs).
Proof.
  intros Hn. unfold std. rewrite var_finite by exact Hn. unfold Num.sqrt.
  destruct (Rlt_dec _ 0) as [Hneg|_]; [|reflexivity].
  exfalso. pose proof squared_deviations_nonneg.
  assert (0 < INR (length obs - 1)) by (apply lt_0_INR; lia).
  assert (0 <= squared_deviations obs / INR (length obs - 1)).
  { unfold Rdiv. apply Rle_mult_inv_pos; assumption. }
  lra.
Qed.

Lemma std_population_finite :
  (0 < length obs)%nat -> std_population g = Fin (population_deviation obs).
Proof.
  intros Hn. unfold std_population. rewrite var_finite by exact Hn.
  rewrite Nat.sub_0_r. unfold Num.sqrt.
  destruct (Rlt_dec _ 0) as [Hneg|_]; [|reflexivity].
  exfalso. pose proof squared_deviations_nonneg.
  assert (0 < INR (length obs)) by (apply lt_0_INR; lia).
  assert (0 <= squared_deviations obs / INR (length obs)).
  { unfold Rdiv. apply Rle_mult_inv_pos; assumption. }
  lra.
Qed.

(** With a single value present the sample deviation, and with it every
    z-score of the group, is missing. *)
Lemma std_single : length obs = 1%nat -> std g = NaN.
Proof.
  intros Hn. unfold std, var. rewrite count_finite, Hn. reflexivity.
Qed.

End Group.

Lemma sample_deviation_nonneg (obs : list R) : 0 <= sample_deviation obs.
Proof. unfold sample_deviation. apply sqrt_pos. Qed.

(** The lambda of the source on one value of a group. *)
Lemma zscore_value (g : list num) (obs : list R) (v : R) :
  dropna g = map Fin obs ->
  (1 < length obs)%nat ->
  div (sub (Fin v) (mean g)) (add (std g) eps)
  = Fin ((v - Rmean obs) / (sample_deviation obs + 1e-5)).
Proof.
  intros Hobs Hn.
  rewrite (@mean_finite _ _ Hobs) by lia. rewrite (@std_finite _ _ Hobs Hn).
  unfold eps, add, sub, opp, add, div.
  pose proof (sample_deviation_nonneg obs).
  destruct (Req_dec_T _ 0) as [H0|_]; [lra | reflexivity].
Qed.

(** The z-score column row by row: the lambda of the source, on the speed
    of the row and the speeds of its race. *)
Lemma z_Speed_PreviousRun_row (race_ids : list cell) (speed : list num) :
  length race_ids = length speed ->
  exists z,
    z_Speed_PreviousRun (map group_key race_ids) speed = inr z /\
    length z = length race_ids /\
    forall i race v,
      nth_error race_ids i = Some race ->
      cell_isna race = false ->
      nth_error speed i = Some v ->
      let g := get_group cell_eqb race (map group_key race_ids) speed in
      nth_error z i = Some (div (sub v (mean g)) (add (std g) eps)).
Proof.
  intros Hlen.
  destruct (@transform_pointwise cell num num cell_eqb
              (fun g v => div (sub v (mean g)) (add (std g) eps)) NaN
              (map group_key race_ids) speed) as (z & Hz & Hzlen & Hrow).
  - rewrite length_map. exact Hlen.
  - intros k Hk. apply in_map_iff in Hk. destruct Hk as (c & Hc & _).
    exact (@group_key_refl _ _ Hc).
  - exists z. unfold z_Speed_PreviousRun.
    split; [exact Hz|]. split; [rewrite Hzlen, length_map; reflexivity|].
    intros i race v Hrace Hna Hv. cbv zeta. apply Hrow; [|exact Hv].
    rewrite nth_error_map, Hrace. simpl. unfold group_key. rewrite Hna. reflexivity.
Qed.


Lemma pair_mean : Rmean [1; 3] = 2.
Proof. unfold Rmean. simpl. lra. Qed.

Lemma pair_squared_deviations : squared_deviations [1; 3] = 2.
Proof. unfold squared_deviations. rewrite pair_mean. simpl. lra. Qed.

Lemma pair_sample_deviation : sample_deviation [1; 3] = R_sqrt.sqrt 2.
Proof.
  unfold sample_deviation. rewrite pair_squared_deviations. simpl. f_equal. lra.
Qed.

Lemma pair_population_deviation : population_deviation [1; 3] = 1.
Proof.
  unfold population_deviation. rewrite pair_squared_deviations. simpl.
  replace (2 / (1 + 1)) with 1 by lra. apply sqrt_1.
Qed.

Lemma sqrt_2_neq_1 : R_sqrt.sqrt 2 <> 1.
Proof.
  intros H. assert (H2 : R_sqrt.sqrt 2 * R_sqrt.sqrt 2 = 2) by (apply sqrt_sqrt; lra).
  rewrite H in H2. lra.
Qed.



End ZScoreFacts.

(* ================================================================== *)
(** * src/model.py: the calibration of a whole table *)

Module CalibrationFacts.
Import Num Pandas Sklearn Model Examples NumFacts GroupByFacts SoftmaxFacts.
Local Open Scope R_scope.

Lemma get_group_map (K A B : Type) (K_eqb : K -> K -> bool) (g : A -> B)
    (k : K) (keys : list (option K)) (vals : list A) :
  get_group K_eqb k keys (map g vals) = map g (get_group K_eqb k keys vals).
Proof.
  revert vals. induction keys as [|o keys IH]; intros vals; [reflexivity|].
  destruct vals as [|a vals]; [reflexivity|].
  simpl map at 1. rewrite !get_group_cons.
  destruct (has_key K_eqb k o); simpl; rewrite IH; reflexivity.
Qed.

Lemma get_group_nonempty (K A : Type) (K_eqb : K -> K -> bool)
    (k : K) (keys : list (option K)) (vals : list A) :
  K_eqb k k = true -> length keys = length vals -> In (Some k) keys ->
  get_group K_eqb k keys vals <> [].
Proof.
  intros Hrefl Hlen Hin. apply In_nth_error in Hin. destruct Hin as (i & Hi).
  assert (Hlt : (i < length vals)%nat)
    by (rewrite <- Hlen; apply nth_error_Some; congruence).
  destruct (nth_error vals i) as [v|] eqn:Hv; [|apply nth_error_None in Hv; lia].
  pose proof (@nth_error_get_group K A K_eqb k keys vals i v Hrefl Hi Hv) as Hg.
  intros Hnil. rewrite Hnil in Hg. destruct (group_pos K_eqb k (firstn i keys)); discriminate.
Qed.

Lemma update_length (A : Type) (i : nat) (v : A) (l : list A) :
  length (update i v l) = length l.
Proof.
  revert i. induction l as [|x l IH]; intros i; destruct i; simpl;
    try reflexivity.
  rewrite IH. reflexivity.
Qed.

Lemma iloc_set_length (idx : list nat) (vals s : list num) :
  length (iloc_set idx vals s) = length s.
Proof.
  revert vals s. induction idx as [|i idx IH]; intros vals s; [reflexivity|].
  destruct vals as [|v vals]; [reflexivity|]. simpl. rewrite IH. apply update_length.
Qed.

Lemma fold_loop_length fit_predict metrics (race_ids : list Z) folds
    (init oof_scores : list num) :
  fold_loop fit_predict metrics race_ids folds init = inr oof_scores ->
  length oof_scores = length init.
Proof.
  revert init. induction folds as [|fold folds IH]; intros init Hrun; simpl in Hrun.
  - inversion Hrun. reflexivity.
  - apply bind_inr in Hrun. destruct Hrun as (step & Hstep & Hrun).
    rewrite (IH _ Hrun). unfold fold_step in Hstep.
    apply bind_inr in Hstep. destruct Hstep as (probs & _ & Hstep).
    apply bind_inr in Hstep. destruct Hstep as (losses & _ & Hret).
    inversion Hret. apply iloc_set_length.
Qed.

Lemma out_of_fold_scores_length fit_predict metrics (race_ids : list Z) folds oof_scores :
  out_of_fold_scores fit_predict metrics race_ids folds = inr oof_scores ->
  length oof_scores = length race_ids.
Proof.
  unfold out_of_fold_scores. intros Hrun.
  rewrite (fold_loop_length _ _ _ _ _ Hrun). apply repeat_length.
Qed.

(** The calibration step race by race: it raises nothing, and the
    probabilities of the rows of each race are the softmax of the scores
    of that race. *)
Lemma Predicted_Probability_groups (race_ids : list Z) (scores : list num) :
  length race_ids = length scores ->
  exists probs,
    Predicted_Probability race_ids scores = inr probs /\
    length probs = length race_ids /\
    forall race, In race race_ids ->
      get_group Z.eqb race (map Some race_ids) probs
      = softmax_stable_Series (get_group Z.eqb race (map Some race_ids) scores).
Proof.
  intros Hlen.
  set (keys := map Some race_ids).
  destruct (@transform_groups Z num num Z.eqb (fun g => ret (softmax_stable_Series g))
              (fun race => softmax_stable_Series (get_group Z.eqb race keys scores))
              NaN keys scores)
    as (probs & Hrun & Hplen & Hrows).
  - unfold keys. rewrite length_map. exact Hlen.
  - intros k k'. apply Z.eqb_eq.
  - intros race Hin. split; [reflexivity | apply softmax_stable_Series_length].
  - exists probs. unfold Predicted_Probability. fold keys.
    split; [exact Hrun|].
    split; [unfold keys in Hplen; rewrite length_map in Hplen; exact Hplen|].
    intros race Hin. apply Hrows. unfold keys. apply in_map. exact Hin.
Qed.

(** On finite scores the probabilities of each race are those of
    [softmax_stable], and add up to 1. *)
Lemma Predicted_Probability_by_race (race_ids : list Z) (scores : list R) :
  length race_ids = length scores ->
  exists probs,
    Predicted_Probability race_ids (map Fin scores) = inr probs /\
    length probs = length race_ids /\
    forall race, In race race_ids ->
      exists ps : list R,
        get_group Z.eqb race (map Some race_ids) probs = map Fin ps /\
        softmax_stable (map Fin (get_group Z.eqb race (map Some race_ids) scores))
        = inr (map Fin ps) /\
        Rsum ps = 1.
Proof.
  intros Hlen.
  destruct (@Predicted_Probability_groups race_ids (map Fin scores))
    as (probs & Hrun & Hplen & Hrows); [rewrite length_map; exact Hlen|].
  exists probs. split; [exact Hrun|]. split; [exact Hplen|].
  intros race Hin.
  assert (Hne : get_group Z.eqb race (map Some race_ids) scores <> []).
  { apply get_group_nonempty; [apply Z.eqb_refl | | apply in_map; exact Hin].
    rewrite length_map. exact Hlen. }
  destruct (softmax_stable_normalised Hne) as (ps & Hps & _ & Hsum).
  exists ps. rewrite (Hrows race Hin), get_group_map.
  pose proof (softmax_stable_Series_finite Hne) as Hseries.
  rewrite Hps in Hseries. inversion Hseries as [Heq].
  split; [reflexivity|]. split; [exact Hps | exact Hsum].
Qed.

(** X1: the spec's property on [train_and_evaluate]: when the out-of-fold
    scores are finite, the probabilities it returns add up to 1 within
    every race. *)
Theorem out_of_fold_probabilities_sum_to_one
    (fit_predict : list nat -> list nat -> list nat -> list nat -> list num)
    (metrics : list nat -> list num -> result (num * num))
    (race_ids : list Z) (num_folds : nat) folds probs (scores : list R) :
  train_and_evaluate fit_predict metrics race_ids num_folds = inr (folds, probs) ->
  out_of_fold_scores fit_predict metrics race_ids folds = inr (map Fin scores) ->
  length probs = length race_ids /\
  forall race, In race race_ids ->
    exists ps : list R,
      get_group Z.eqb race (map Some race_ids) probs = map Fin ps /\
      Rsum ps = 1.
Proof.
  intros Hrun Hscores. unfold train_and_evaluate in Hrun.
  apply bind_inr in Hrun. destruct Hrun as (folds' & Hsplit & Hrest).
  apply bind_inr in Hrest. destruct Hrest as (oof_scores & Hoof & Hrest).
  apply bind_inr in Hrest. destruct Hrest as (probs' & Hcal & Hrest).
  apply bind_inr in Hrest. destruct Hrest as (losses & _ & Hret).
  inversion Hret; subst folds' probs'. clear Hret.
  rewrite Hscores in Hoof. inversion Hoof; subst oof_scores. clear Hoof.
  destruct (@Predicted_Probability_by_race race_ids scores) as (p & Hp & Hl & Hrows).
  - rewrite <- (out_of_fold_scores_length _ _ _ _ Hscores).
    rewrite length_map. reflexivity.
  - rewrite Hp in Hcal. inversion Hcal; subst p. split; [exact Hl|].
    intros race Hin. destruct (Hrows race Hin) as (ps & H1 & _ & H3).
    exists ps. auto.
Qed.

(** The seven rows of the example, every fold scored 0. *)
Lemma out_of_fold_probabilities_sum_to_one_witness :
  exists probs,
    length probs = 7%nat /\
    forall race, In race example_race_ids ->
      exists ps : list R,
        get_group Z.eqb race (map Some example_race_ids) probs = map Fin ps /\
        Rsum ps = 1.
Proof.
  assert (Hrun : { probs | train_and_evaluate constant_scores constant_metrics
                              example_race_ids 2
                   = inr ([([0; 1; 6], [2; 3; 4; 5]); ([2; 3; 4; 5], [0; 1; 6])]%nat, probs) }).
  { eexists. unfold train_and_evaluate. rewrite FoldFacts.example_folds.
    lazy -[Rtrigo_def.exp Rplus Rminus Rdiv Rmult Ropp Rinv IZR Rlt_dec Req_dec_T].
    reflexivity. }
  destruct Hrun as (probs & Hrun). exists probs.
  apply (@out_of_fold_probabilities_sum_to_one constant_scores constant_metrics
           example_race_ids 2 _ probs [0; 0; 0; 0; 0; 0; 0] Hrun).
  reflexivity.
Defined.

End CalibrationFacts.

(* ================================================================== *)
(** * src/features.py: the pipeline and its exceptions *)

Module PipelineFacts.
Import Num Pandas Features Notions Examples.
Local Open Scope string_scope.

(** Takes a successful run of monadic code apart into its steps. *)
Ltac invert_run :=
  repeat match goal with
         | H : bind _ _ = inr _ |- _ =>
             apply bind_inr in H; let a := fresh "a" in
             let Ha := fresh "Hstep" in destruct H as (a & Ha & H)
         | H : (let (_, _) := ?p in _) = inr _ |- _ => destruct p
         | H : (if ?c then _ else _) = inr _ |- _ => destruct c
         | H : ret _ = inr _ |- _ => unfold ret in H
         | H : inr _ = inr _ |- _ => inversion H; subst; clear H
         end.

Lemma lookup_assign (name c : string) (col : list cell) cols :
  lookup c (assign name col cols)
  = if String.eqb name c then Some col else lookup c cols.
Proof.
  induction cols as [|[n x] cols IH]; simpl.
  - rewrite String.eqb_sym. reflexivity.
  - destruct (String.eqb n name) eqn:Hn; simpl.
    + apply String.eqb_eq in Hn. subst n.
      destruct (String.eqb name c); reflexivity.
    + rewrite IH. destruct (String.eqb n c) eqn:Hc; [|reflexivity].
      apply String.eqb_eq in Hc. subst n. rewrite String.eqb_sym, Hn. reflexivity.
Qed.

(** Setting a column leaves the presence of the other columns alone. *)
Lemma has_column_setitem (df : DataFrame) (name c : string) (col : list cell) :
  has_column (setitem df name col) c = String.eqb name c || has_column df c.
Proof.
  unfold has_column, setitem. simpl. rewrite lookup_assign.
  destruct (String.eqb name c); reflexivity.
Qed.

Ltac keeps_by_setitem :=
  intros df df' c Hrun Hc;
  match type of Hrun with ?t _ = _ => unfold t, groupby_col, row_mean2 in Hrun end;
  invert_run;
  simpl in Hc; decompose [or] Hc; subst; try contradiction;
  rewrite ?has_column_setitem; reflexivity.

Lemma add_race_relative_features_keeps : keeps_rolling_inputs add_race_relative_features.
Proof. keeps_by_setitem. Qed.

Lemma add_interaction_features_keeps : keeps_rolling_inputs add_interaction_features.
Proof. keeps_by_setitem. Qed.

Lemma add_form_features_keeps : keeps_rolling_inputs add_form_features.
Proof. keeps_by_setitem. Qed.

Lemma add_market_features_keeps : keeps_rolling_inputs add_market_features.
Proof. keeps_by_setitem. Qed.

Lemma add_form_aggregates_keeps : keeps_rolling_inputs add_form_aggregates.
Proof. keeps_by_setitem. Qed.

Lemma add_race_context_features_keeps : keeps_rolling_inputs add_race_context_features.
Proof. keeps_by_setitem. Qed.

Lemma add_advanced_interactions_keeps : keeps_rolling_inputs add_advanced_interactions.
Proof. keeps_by_setitem. Qed.

(** The merge of [add_rolling_win_rates] asks the left frame for a column
    [level_1]; without it the merge raises, whatever the frames hold. *)
Lemma add_rolling_win_rates_for_raises (df : DataFrame) (col : string) :
  String.eqb col "level_1" = false ->
  has_column df col = true ->
  has_column df "Winner" = true ->
  has_column df "level_1" = false ->
  exists e, add_rolling_win_rates_for df col = inl e.
Proof.
  intros Hcol Hc Hw Hl. unfold add_rolling_win_rates_for. rewrite Hc, Hw. simpl.
  destruct (rolling_frame df col) as [e|rolling] eqn:Hroll; [exists e; reflexivity|].
  unfold rolling_frame in Hroll. invert_run. simpl.
  unfold merge_left, getitem at 1 2. simpl. rewrite Hcol. simpl.
  unfold has_column in Hl. destruct (lookup "level_1" (columns df)); [discriminate|].
  eexists. reflexivity.
Qed.

(** With numeric win indicators the exception is the [KeyError] of the
    merge key. *)
Lemma add_rolling_win_rates_for_KeyError (df : DataFrame) (col : string) keys winner wn :
  String.eqb col "level_1" = false ->
  getitem df col = inr keys ->
  getitem df "Winner" = inr winner ->
  as_nums winner = inr wn ->
  has_column df "level_1" = false ->
  add_rolling_win_rates_for df col = inl (KeyError "level_1").
Proof.
  intros Hcol Hk Hw Hn Hl. unfold add_rolling_win_rates_for.
  assert (Hc : has_column df col = true).
  { unfold has_column. unfold getitem in Hk. destruct (lookup col (columns df)); [reflexivity|discriminate]. }
  assert (Hw' : has_column df "Winner" = true).
  { unfold has_column. unfold getitem in Hw. destruct (lookup "Winner" (columns df)); [reflexivity|discriminate]. }
  rewrite Hc, Hw'. simpl. unfold rolling_frame. rewrite Hk, Hw. simpl. rewrite Hn. simpl.
  unfold merge_left, getitem at 1 2. simpl. rewrite Hcol. simpl.
  unfold has_column in Hl. destruct (lookup "level_1" (columns df)); [discriminate|].
  reflexivity.
Qed.

Lemma add_rolling_win_rates_raises (df : DataFrame) :
  has_column df "Winner" = true ->
  has_column df "JockeyID" = true \/ has_column df "TrainerID" = true ->
  has_column df "level_1" = false ->
  exists e, add_rolling_win_rates df = inl e.
Proof.
  intros Hw Hid Hl. unfold add_rolling_win_rates.
  destruct (has_column df "JockeyID") eqn:Hj.
  - destruct (@add_rolling_win_rates_for_raises df "JockeyID" eq_refl Hj Hw Hl) as (e & He).
    exists e. rewrite He. reflexivity.
  - destruct Hid as [Hid|Ht]; [discriminate|].
    unfold add_rolling_win_rates_for at 1. rewrite Hj. simpl.
    exact (@add_rolling_win_rates_for_raises df "TrainerID" eq_refl Ht Hw Hl).
Qed.

Section Pipeline.
Variable repr_float : R -> string.

(** X2: no table with a [Winner] column, a [JockeyID] or a [TrainerID] column
    and no column named [level_1] gets through [engineer_features]. *)
Lemma engineer_features_raises (df : DataFrame) :
  has_column df "Winner" = true ->
  has_column df "JockeyID" = true \/ has_column df "TrainerID" = true ->
  has_column df "level_1" = false ->
  exists e, engineer_features repr_float df = inl e.
Proof.
  intros Hw Hid Hl. unfold engineer_features.
  assert (Hstep : forall t d (k : DataFrame -> result DataFrame),
             keeps_rolling_inputs t ->
             has_column d "Winner" = true ->
             (has_column d "JockeyID" = true \/ has_column d "TrainerID" = true) ->
             has_column d "level_1" = false ->
             (forall d', has_column d' "Winner" = true ->
                         (has_column d' "JockeyID" = true \/ has_column d' "TrainerID" = true) ->
                         has_column d' "level_1" = false ->
                         exists e, k d' = inl e) ->
             exists e, bind (t d) k = inl e).
  { intros t d k Hkeep Hw' Hid' Hl' Hk.
    destruct (t d) as [e|d'] eqn:Ht; [exists e; reflexivity|]. simpl.
    apply Hk.
    - rewrite (Hkeep d d' "Winner" Ht) by (simpl; tauto). exact Hw'.
    - rewrite (Hkeep d d' "JockeyID" Ht), (Hkeep d d' "TrainerID" Ht) by (simpl; tauto).
      exact Hid'.
    - rewrite (Hkeep d d' "level_1" Ht) by (simpl; tauto). exact Hl'. }
  apply Hstep; [apply add_race_relative_features_keeps | assumption..|].
  intros d1 Hw1 Hid1 Hl1.
  apply Hstep; [apply add_interaction_features_keeps | assumption..|].
  intros d2 Hw2 Hid2 Hl2.
  apply Hstep; [apply add_form_features_keeps | assumption..|].
  intros d3 Hw3 Hid3 Hl3.
  apply Hstep; [apply add_market_features_keeps | assumption..|].
  intros d4 Hw4 Hid4 Hl4.
  apply Hstep; [apply add_form_aggregates_keeps | assumption..|].
  intros d5 Hw5 Hid5 Hl5.
  apply Hstep; [apply add_race_context_features_keeps | assumption..|].
  intros d6 Hw6 Hid6 Hl6.
  apply Hstep; [apply add_advanced_interactions_keeps | assumption..|].
  intros d7 Hw7 Hid7 Hl7.
  destruct (@add_rolling_win_rates_raises d7 Hw7 Hid7 Hl7) as (e & He).
  exists e. rewrite He. reflexivity.
Qed.

(** C7, on the code: [race_table] has every column the pipeline reads and
    no unparsable value, yet [add_rolling_win_rates], and with it
    [engineer_features], stops with the exception [KeyError: level_1]; the
    seven transforms before it go through. *)
Theorem engineer_features_aborts_on_race_table :
  add_rolling_win_rates race_table = inl (KeyError "level_1") /\
  engineer_features repr_float race_table = inl (KeyError "level_1") /\
  exists df,
    (df <- add_race_relative_features race_table ;;
     df <- add_interaction_features df ;;
     df <- add_form_features df ;;
     df <- add_market_features df ;;
     df <- add_form_aggregates df ;;
     df <- add_race_context_features df ;;
     add_advanced_interactions df) = inr df.
Proof.
  split; [reflexivity|]. split; [reflexivity|].
  eexists. reflexivity.
Qed.

End Pipeline.

(** [race_table] is such a table. *)
Lemma engineer_features_raises_witness :
  exists e, engineer_features (fun _ => EmptyString) race_table = inl e.
Proof.
  apply (@engineer_features_raises (fun _ => EmptyString) race_table).
  - reflexivity.
  - left. reflexivity.
  - reflexivity.
Defined.

End PipelineFacts.

(* ================================================================== *)
(** * src/processing/combine.py: the shape of the backtest table *)

Module BacktestFacts.
Import Pandas Combine Examples Keys.

Section UniqueMatch.
Variables A B K : Type.
Variable matches : A -> B -> bool.
Variable key_a : A -> K.
Variable key_b : B -> K.
Hypothesis matches_key : forall a b, matches a b = true <-> key_a a = key_b b.

Lemma filter_unique_key (a : A) (r : list B) :
  NoDup (map key_b r) ->
  filter (matches a) r = match find (matches a) r with Some b => [b] | None => [] end.
Proof.
  induction r as [|b r IH]; intros Hnd; [reflexivity|].
  inversion Hnd as [|? ? Hnotin Hnd']; subst. simpl.
  destruct (matches a b) eqn:Hm.
  - f_equal. apply matches_key in Hm.
    assert (Hnone : forall b', In b' r -> matches a b' = false).
    { intros b' Hb'. destruct (matches a b') eqn:Hm'; [|reflexivity].
      apply matches_key in Hm'. exfalso. apply Hnotin.
      rewrite <- Hm, Hm'. apply in_map. exact Hb'. }
    clear - Hnone. induction r as [|b' r IH]; [reflexivity|]. simpl.
    rewrite (Hnone b') by (left; reflexivity).
    apply IH. intros b'' Hb''. apply Hnone. right. exact Hb''.
  - apply IH. exact Hnd'.
Qed.

(** With unique keys on the right, a left join is a lookup. *)
Lemma left_join_unique (l : list A) (r : list B) :
  NoDup (map key_b r) ->
  left_join matches l r = map (fun a => (a, find (matches a) r)) l.
Proof.
  intros Hnd. unfold left_join.
  rewrite (flat_map_ext _ (fun a => [(a, find (matches a) r)])).
  - induction l as [|a l IH]; [reflexivity|]. simpl. rewrite IH. reflexivity.
  - intros a. rewrite (@filter_unique_key a r Hnd).
    destruct (find (matches a) r); reflexivity.
Qed.

End UniqueMatch.

Lemma same_key_eq (r1 : Z) (h1 : string) (r2 : Z) (h2 : string) :
  same_key r1 h1 r2 h2 = true <-> (r1, h1) = (r2, h2).
Proof.
  unfold same_key. rewrite andb_true_iff, Z.eqb_eq, String.eqb_eq. split.
  - intros (-> & ->). reflexivity.
  - intros H. inversion H. auto.
Qed.

Lemma left_join_length (A B : Type) (matches : A -> B -> bool) (l : list A) (r : list B) :
  length l <= length (left_join matches l r).
Proof.
  unfold left_join. induction l as [|a l IH]; [simpl; lia|].
  cbn [flat_map]. rewrite length_app. change (length (a :: l)) with (S (length l)).
  destruct (filter (matches a) r) as [|m ms].
  - change (length [(a, @None B)]) with 1. lia.
  - rewrite length_map. change (length (m :: ms)) with (S (length ms)). lia.
Qed.

(** A left join repeats each left row once per match, and keeps it once
    when nothing matches. *)
Lemma left_join_fst (A B : Type) (matches : A -> B -> bool) (l : list A) (r : list B) :
  map fst (left_join matches l r)
  = flat_map (fun a => repeat a (Nat.max 1 (length (filter (matches a) r)))) l.
Proof.
  unfold left_join. induction l as [|a l IH]; [reflexivity|].
  cbn [flat_map]. rewrite map_app, IH. f_equal.
  destruct (filter (matches a) r) as [|m ms]; [reflexivity|].
  change (Nat.max 1 (length (m :: ms))) with (S (length ms)).
  rewrite map_map. cbn [map fst repeat]. f_equal.
  induction ms as [|m' ms IHms]; [reflexivity|].
  cbn [map length repeat]. f_equal. exact IHms.
Qed.

Lemma flat_map_repeat_twice (A C : Type) (f : A -> C) (n1 n2 : A -> nat) (l : list A) :
  flat_map (fun a => repeat (f a) (n2 a)) (flat_map (fun a => repeat a (n1 a)) l)
  = flat_map (fun a => repeat (f a) (n1 a * n2 a)) l.
Proof.
  induction l as [|a l IH]; [reflexivity|].
  cbn [flat_map]. rewrite flat_map_app, IH. f_equal.
  induction (n1 a) as [|n IHn]; [reflexivity|].
  cbn [repeat flat_map]. rewrite IHn, <- repeat_app. reflexivity.
Qed.

Lemma map_flat_map_repeat (A C : Type) (f : A -> C) (n : A -> nat) (l : list A) :
  map f (flat_map (fun a => repeat a (n a)) l) = flat_map (fun a => repeat (f a) (n a)) l.
Proof.
  induction l as [|a l IH]; [reflexivity|].
  cbn [flat_map]. rewrite map_app, IH. f_equal.
  induction (n a) as [|k IHk]; [reflexivity|]. cbn [repeat map]. f_equal. exact IHk.
Qed.

Lemma flat_map_of_fst (A B C : Type) (h : A -> list C) (l : list (A * B)) :
  flat_map (fun row => h (fst row)) l = flat_map h (map fst l).
Proof.
  induction l as [|x l IH]; [reflexivity|]. cbn [flat_map map]. rewrite IH. reflexivity.
Qed.

(** X3: the backtest table never loses a prediction and never invents a
    row.  Read by race, horse and probability, its rows are the rows of the
    predictions table in their order, each one repeated once for every
    pair of a market row and a label row with its key (a table without a
    row of that key counting as one); so every prediction has a row, every
    row stems from a prediction, and there are at least as many rows as
    predictions. *)
Theorem backtest_rows_are_predictions preds market labels :
  let out := create_edge_backtest_file preds market labels in
  let market_matches p :=
    length (filter (fun m => same_key (preds_Race_ID p) (preds_Horse p)
                                      (market_Race_ID m) (market_Horse m)) market) in
  let label_matches p :=
    length (filter (fun l => same_key (preds_Race_ID p) (preds_Horse p)
                                      (labels_Race_ID l) (labels_Horse l)) labels) in
  map (fun b => (Race_ID b, Horse b, Predicted_Probability b)) out
  = flat_map (fun p => repeat (preds_Race_ID p, preds_Horse p, preds_Predicted_Probability p)
                              (Nat.max 1 (market_matches p) * Nat.max 1 (label_matches p)))
             preds /\
  (forall p, In p preds ->
     exists b, In b out /\
       Race_ID b = preds_Race_ID p /\
       Horse b = preds_Horse p /\
       Predicted_Probability b = preds_Predicted_Probability p) /\
  (forall b, In b out ->
     exists p, In p preds /\
       Race_ID b = preds_Race_ID p /\
       Horse b = preds_Horse p /\
       Predicted_Probability b = preds_Predicted_Probability p) /\
  length preds <= length out.
Proof.
  cbv zeta. split; [|split; [|split]].
  - unfold create_edge_backtest_file, merge_labels, merge_market.
    rewrite map_map.
    change (fun x => (Race_ID (edge_row x), Horse (edge_row x),
                      Predicted_Probability (edge_row x)))
      with (fun x : preds_row * option market_row * option labels_row =>
              (fun q : preds_row * option market_row =>
                 (preds_Race_ID (fst q), preds_Horse (fst q),
                  preds_Predicted_Probability (fst q))) (fst x)).
    rewrite <- (map_map fst), left_join_fst, map_flat_map_repeat.
    rewrite (flat_map_of_fst
               (fun p => repeat (preds_Race_ID p, preds_Horse p, preds_Predicted_Probability p)
                                (Nat.max 1 (length (filter
                                   (fun l => same_key (preds_Race_ID p) (preds_Horse p)
                                                      (labels_Race_ID l) (labels_Horse l))
                                   labels))))).
    rewrite left_join_fst. apply flat_map_repeat_twice.
  - intros p Hp.
    destruct (@left_join_keeps _ _
                (fun p m => same_key (preds_Race_ID p) (preds_Horse p)
                                     (market_Race_ID m) (market_Horse m))
                preds market p Hp) as (om & Hom).
    destruct (@left_join_keeps _ _
                (fun r l => same_key (preds_Race_ID (fst r)) (preds_Horse (fst r))
                                     (labels_Race_ID l) (labels_Horse l))
                (merge_market preds market) labels (p, om) Hom) as (ol & Hol).
    exists (edge_row ((p, om), ol)). split; [|simpl; tauto].
    apply CombineFacts.backtest_row_origin. exists p, om, ol. auto.
  - intros b Hb. apply CombineFacts.backtest_row_origin in Hb.
    destruct Hb as (p & om & ol & -> & Hin & _).
    unfold merge_market in Hin. apply left_join_spec in Hin.
    exists p. simpl. tauto.
  - unfold create_edge_backtest_file, merge_labels, merge_market.
    rewrite length_map.
    eapply Nat.le_trans; [|apply left_join_length]. apply left_join_length.
Qed.

(** X4: when no key (Race_ID, Horse) occurs twice in the market table nor
    in the labels table, the backtest table has exactly one row per
    prediction row, in the order of the predictions: the row computed from
    the prediction, the market row with its key and the label row with its
    key, where there are such rows. *)
Theorem backtest_one_row_per_prediction preds market labels :
  NoDup (map market_key market) ->
  NoDup (map labels_key labels) ->
  create_edge_backtest_file preds market labels
  = map (fun p =>
           edge_row ((p, find (fun m => same_key (preds_Race_ID p) (preds_Horse p)
                                                 (market_Race_ID m) (market_Horse m)) market),
                     find (fun l => same_key (preds_Race_ID p) (preds_Horse p)
                                             (labels_Race_ID l) (labels_Horse l)) labels))
        preds /\
  length (create_edge_backtest_file preds market labels) = length preds.
Proof.
  intros Hm Hl.
  assert (Heq : create_edge_backtest_file preds market labels
    = map (fun p =>
           edge_row ((p, find (fun m => same_key (preds_Race_ID p) (preds_Horse p)
                                                 (market_Race_ID m) (market_Horse m)) market),
                     find (fun l => same_key (preds_Race_ID p) (preds_Horse p)
                                             (labels_Race_ID l) (labels_Horse l)) labels))
        preds).
  { unfold create_edge_backtest_file, merge_labels, merge_market.
    rewrite (@left_join_unique preds_row market_row (Z * string) _ preds_key market_key
               (fun p m => same_key_eq _ _ _ _) preds market Hm).
    rewrite (@left_join_unique (preds_row * option market_row) labels_row (Z * string) _
               (fun r => preds_key (fst r)) labels_key
               (fun r l => same_key_eq _ _ _ _) _ labels Hl).
    rewrite !map_map. reflexivity. }
  split; [exact Heq|]. rewrite Heq, length_map. reflexivity.
Qed.

Lemma sub_nan (x : float) : PrimFloat.sub x nan = nan.
Proof.
  apply Prim2SF_inj. rewrite sub_spec.
  change (Prim2SF nan) with S754_nan.
  destruct (Prim2SF x); reflexivity.
Qed.

(** X5: a prediction whose key has no match in the market table is not an
    error: the rows of the backtest table with that key have the missing
    value NaN as market odds, as market probability and as edge score. *)
Theorem unmatched_market_gives_missing_edge preds market labels
    (race : Z) (horse : string) :
  (forall m, In m market ->
             same_key race horse (market_Race_ID m) (market_Horse m) = false) ->
  forall b, In b (create_edge_backtest_file preds market labels) ->
            Race_ID b = race -> Horse b = horse ->
            Market_Odds b = nan /\ Market_Prob b = nan /\ Edge_Score b = nan.
Proof.
  intros Hno b Hb Hrace Hhorse. apply CombineFacts.backtest_row_origin in Hb.
  destruct Hb as (q & om & ol & -> & Hin & _).
  unfold merge_market in Hin. apply left_join_spec in Hin.
  destruct Hin as (_ & Hom). simpl in Hrace, Hhorse.
  destruct om as [m|].
  - destruct Hom as (Hm & Hmatch). rewrite Hrace, Hhorse in Hmatch.
    rewrite (Hno m Hm) in Hmatch. discriminate.
  - unfold edge_row. simpl.
    change (PrimFloat.div 1 nan) with nan.
    split; [reflexivity|]. split; [reflexivity|]. apply sub_nan.
Qed.

(** The prediction of the example against an empty market table. *)
Lemma unmatched_market_gives_missing_edge_witness :
  exists b, In b (create_edge_backtest_file example_preds [] example_labels) /\
            Market_Odds b = nan /\ Market_Prob b = nan /\ Edge_Score b = nan.
Proof.
  eexists. split; [left; reflexivity|].
  apply (@unmatched_market_gives_missing_edge example_preds [] example_labels 1 "A").
  - intros m Hm. destruct Hm.
  - left. reflexivity.
  - reflexivity.
  - reflexivity.
Defined.

(** The tables of the example have one row per key. *)
Lemma backtest_one_row_per_prediction_witness :
  length (create_edge_backtest_file example_preds example_market example_labels) = 1.
Proof.
  apply (@backtest_one_row_per_prediction example_preds example_market example_labels).
  - repeat constructor. intros H. destruct H.
  - repeat constructor. intros H. destruct H.
Defined.

End BacktestFacts.

(* ================================================================== *)
(** * scikit-learn's GroupKFold as [train_and_evaluate] uses it *)

Module SplitFacts.
Import Num Pandas Sklearn Model.

Lemma in_insert_unique (x y : Z) (l : list Z) :
  In x (insert_unique y l) <-> x = y \/ In x l.
Proof.
  induction l as [|z l IH]; simpl.
  - intuition.
  - destruct (y <? z)%Z eqn:Hlt; [simpl; intuition|].
    destruct (y =? z)%Z eqn:Heq.
    + apply Z.eqb_eq in Heq. subst z. simpl. intuition.
    + simpl. rewrite IH. intuition.
Qed.

Lemma in_np_unique (x : Z) (l : list Z) : In x (np_unique l) <-> In x l.
Proof.
  unfold np_unique. induction l as [|y l IH]; simpl; [tauto|].
  rewrite in_insert_unique, IH. intuition.
Qed.

Lemma insert_unique_sorted (y : Z) (l : list Z) :
  StronglySorted Z.lt l -> StronglySorted Z.lt (insert_unique y l).
Proof.
  induction l as [|z l IH]; intros Hs; simpl.
  - constructor; constructor.
  - inversion Hs as [|? ? Hs' Hall]; subst.
    destruct (y <? z)%Z eqn:Hlt.
    + apply Z.ltb_lt in Hlt. constructor; [exact Hs|].
      constructor; [exact Hlt|].
      rewrite Forall_forall in *. intros w Hw. specialize (Hall w Hw). lia.
    + destruct (y =? z)%Z eqn:Heq; [exact Hs|].
      apply Z.ltb_ge in Hlt. apply Z.eqb_neq in Heq.
      constructor; [apply IH; exact Hs'|].
      rewrite Forall_forall in *. intros w Hw.
      apply in_insert_unique in Hw. destruct Hw as [->|Hw]; [lia | apply Hall; exact Hw].
Qed.

Lemma np_unique_sorted (l : list Z) : StronglySorted Z.lt (np_unique l).
Proof.
  unfold np_unique. induction l as [|y l IH]; simpl; [constructor|].
  apply insert_unique_sorted. exact IH.
Qed.

Lemma sorted_NoDup (l : list Z) : StronglySorted Z.lt l -> NoDup l.
Proof.
  induction 1 as [|z l Hs IH Hall]; constructor; [|exact IH].
  intros Hin. rewrite Forall_forall in Hall. specialize (Hall z Hin). lia.
Qed.

Lemma np_unique_NoDup (l : list Z) : NoDup (np_unique l).
Proof. apply sorted_NoDup, np_unique_sorted. Qed.

Lemma np_unique_length (l : list Z) : length (np_unique l) <= length l.
Proof.
  apply NoDup_incl_length; [apply np_unique_NoDup|].
  intros x Hx. apply in_np_unique. exact Hx.
Qed.

(** X6: [GroupKFold_split], and so [train_and_evaluate], raises a
    [ValueError] exactly when fewer than two folds are asked for or more
    folds than there are distinct race identifiers; otherwise it returns as
    many folds as asked for.  The distinct identifiers are counted by
    [np_unique], which lists each identifier of the column once. *)
Theorem GroupKFold_split_errors (n_splits : nat) (groups : list Z) :
  NoDup (np_unique groups) /\
  (forall g, In g (np_unique groups) <-> In g groups) /\
  (n_splits < 2 \/ length (np_unique groups) < n_splits ->
   exists msg, GroupKFold_split n_splits groups = inl (ValueError msg)) /\
  (2 <= n_splits <= length (np_unique groups) ->
   exists folds, GroupKFold_split n_splits groups = inr folds /\
                 length folds = n_splits).
Proof.
  split; [apply np_unique_NoDup|]. split; [intros g; apply in_np_unique|].
  pose proof (np_unique_length groups) as Hle.
  unfold GroupKFold_split. split.
  - intros Hbad.
    destruct (n_splits <? 2) eqn:H2; [eexists; reflexivity|].
    destruct (length groups <? n_splits) eqn:Hs; [eexists; reflexivity|].
    destruct (length (np_unique groups) <? n_splits) eqn:Hg; [eexists; reflexivity|].
    apply Nat.ltb_ge in H2, Hg. lia.
  - intros (H2 & Hg).
    assert (E2 : (n_splits <? 2) = false) by (apply Nat.ltb_ge; lia).
    assert (Es : (length groups <? n_splits) = false) by (apply Nat.ltb_ge; lia).
    assert (Eg : (length (np_unique groups) <? n_splits) = false) by (apply Nat.ltb_ge; lia).
    rewrite E2, Es, Eg. eexists. split; [reflexivity|].
    rewrite length_map, length_seq. reflexivity.
Qed.

(** ** Every row is validated once *)

Lemma update_Forall (A : Type) (P : A -> Prop) (i : nat) (v : A) (l : list A) :
  P v -> Forall P l -> Forall P (update i v l).
Proof.
  intros Hv. revert i. induction l as [|x l IH]; intros i Hl; destruct i; simpl;
    try exact Hl.
  - inversion Hl; subst. constructor; assumption.
  - inversion Hl; subst. constructor; [assumption | apply IH; assumption].
Qed.

Lemma first_index_lt (v : nat) (l : list nat) : In v l -> first_index v l < length l.
Proof.
  induction l as [|x l IH]; intros Hin; [destruct Hin|]. simpl.
  destruct (x =? v) eqn:Hx; [lia|].
  apply Nat.eqb_neq in Hx. destruct Hin as [Heq|Hin]; [congruence|].
  specialize (IH Hin). lia.
Qed.

Lemma min_in (d : nat) (l : list nat) :
  In (fold_right Nat.min d l) (d :: l).
Proof.
  induction l as [|x l IH]; simpl; [tauto|].
  destruct (Nat.min_dec x (fold_right Nat.min d l)) as [H|H]; rewrite H.
  - right. left. reflexivity.
  - destruct IH as [IH|IH]; [left; exact IH | right; right; exact IH].
Qed.

(** [np.argmin] points inside a non-empty array. *)
Lemma argmin_lt (l : list nat) : l <> [] -> argmin l < length l.
Proof.
  intros Hne. unfold argmin. apply first_index_lt.
  destruct l as [|x l]; [congruence|]. simpl hd.
  destruct (min_in x (x :: l)) as [H|H]; [rewrite <- H; left; reflexivity | exact H].
Qed.

Lemma distribute_bound (n : nat) (order w per_fold g2f : list nat) :
  length per_fold = n -> 0 < n ->
  Forall (fun f => f < n) g2f ->
  Forall (fun f => f < n) (distribute order w per_fold g2f).
Proof.
  revert per_fold g2f. induction order as [|g order IH]; intros per_fold g2f Hlen Hn Hall.
  - exact Hall.
  - simpl. apply IH; [rewrite CalibrationFacts.update_length; exact Hlen | exact Hn|].
    apply update_Forall; [|exact Hall].
    rewrite <- Hlen. apply argmin_lt. destruct per_fold; [simpl in Hlen; lia | discriminate].
Qed.

(** The fold numbers of the rows are below the number of folds. *)
Lemma fold_of_rows_bound (n_splits : nat) (groups : list Z) :
  0 < n_splits -> Forall (fun f => f < n_splits) (fold_of_rows n_splits groups).
Proof.
  intros Hn. unfold fold_of_rows. rewrite Forall_forall. intros f Hf.
  apply in_map_iff in Hf. destruct Hf as (gi & <- & _).
  assert (Hall : Forall (fun f => f < n_splits)
            (distribute (rev (argsort (bincount (map (fun g => index_of g (np_unique groups)) groups)
                                                  (length (np_unique groups)))))
                        (bincount (map (fun g => index_of g (np_unique groups)) groups)
                                  (length (np_unique groups)))
                        (repeat 0 n_splits) (repeat 0 (length (np_unique groups))))).
  { apply distribute_bound; [apply repeat_length | exact Hn|].
    rewrite Forall_forall. intros x Hx. apply repeat_spec in Hx. lia. }
  rewrite Forall_forall in Hall.
  destruct (nth_in_or_default gi
              (distribute (rev (argsort (bincount (map (fun g => index_of g (np_unique groups)) groups)
                                                  (length (np_unique groups)))))
                        (bincount (map (fun g => index_of g (np_unique groups)) groups)
                                  (length (np_unique groups)))
                        (repeat 0 n_splits) (repeat 0 (length (np_unique groups)))) 0) as [Hin|Hd].
  - apply Hall. exact Hin.
  - rewrite Hd. exact Hn.
Qed.

(** X7: the out-of-fold guarantee of the split.  When [GroupKFold_split]
    succeeds, every row of the table has one fold in which it is a
    validation row; in every other fold it is a training row, and in no
    fold it is both. *)
Theorem every_row_validated_once (n_splits : nat) (groups : list Z) folds (i : nat) :
  GroupKFold_split n_splits groups = inr folds ->
  i < length groups ->
  exists f, f < n_splits /\
    forall g train_idx val_idx,
      nth_error folds g = Some (train_idx, val_idx) ->
      (In i val_idx <-> g = f) /\ (In i train_idx <-> g <> f).
Proof.
  intros Hrun Hi.
  assert (Hn : 2 <= n_splits).
  { unfold GroupKFold_split in Hrun.
    destruct (n_splits <? 2) eqn:H2; [discriminate|]. apply Nat.ltb_ge in H2. exact H2. }
  assert (Hfolds : folds = map (fun f => (np_where (fun j => negb (j =? f)) (fold_of_rows n_splits groups),
                                          np_where (fun j => j =? f) (fold_of_rows n_splits groups)))
                               (seq 0 n_splits)).
  { unfold GroupKFold_split in Hrun.
    destruct (n_splits <? 2); [discriminate|].
    destruct (length groups <? n_splits); [discriminate|].
    destruct (length (np_unique groups) <? n_splits); [discriminate|].
    inversion Hrun. reflexivity. }
  assert (Hlen : length (fold_of_rows n_splits groups) = length groups).
  { unfold fold_of_rows. rewrite !length_map. reflexivity. }
  destruct (nth_error (fold_of_rows n_splits groups) i) as [f|] eqn:Hf;
    [|apply nth_error_None in Hf; lia].
  exists f. split.
  - pose proof (fold_of_rows_bound groups (n_splits := n_splits)) as Hb.
    rewrite Forall_forall in Hb. apply Hb; [lia|]. eapply nth_error_In. exact Hf.
  - intros g train_idx val_idx Hg. subst folds.
    rewrite nth_error_map, nth_error_seq in Hg.
    destruct (g <? n_splits); [|discriminate]. simpl in Hg. inversion Hg; subst. clear Hg.
    rewrite !FoldFacts.np_where_spec. split; split.
    + intros (x & Hx & Hp). rewrite Hf in Hx. inversion Hx; subst.
      apply Nat.eqb_eq in Hp. auto.
    + intros ->. exists f. split; [exact Hf | apply Nat.eqb_refl].
    + intros (x & Hx & Hp) ->. rewrite Hf in Hx. inversion Hx; subst.
      rewrite Nat.eqb_refl in Hp. discriminate.
    + intros Hne. exists f. split; [exact Hf|].
      apply negb_true_iff, Nat.eqb_neq. auto.
Qed.

(** One fold cannot be asked for. *)
Lemma GroupKFold_split_errors_witness :
  exists msg, GroupKFold_split 1 Examples.example_race_ids = inl (ValueError msg).
Proof.
  apply (proj1 (proj2 (proj2 (GroupKFold_split_errors 1 Examples.example_race_ids)))).
  left. lia.
Defined.

(** The first row of the example is validated in the second fold. *)
Lemma every_row_validated_once_witness :
  exists f, f < 2 /\
    forall g train_idx val_idx,
      nth_error [([0; 1; 6], [2; 3; 4; 5]); ([2; 3; 4; 5], [0; 1; 6])] g
        = Some (train_idx, val_idx) ->
      (In 0 val_idx <-> g = f) /\ (In 0 train_idx <-> g <> f).
Proof.
  apply (@every_row_validated_once 2 Examples.example_race_ids _ 0 FoldFacts.example_folds).
  simpl. lia.
Defined.

End SplitFacts.

(* ================================================================== *)
(** * src/model.py: further properties of [softmax_stable] *)

Module SoftmaxShape.
Import Num Pandas Model NumFacts SoftmaxFacts GroupByFacts.
Local Open Scope R_scope.

(** The closed form of [softmax_stable] on finite scores, with the shift
    [m] pinned down as the largest score. *)
Lemma softmax_stable_closed_form (scores : list R) :
  scores <> [] ->
  exists m,
    In m scores /\ (forall x, In x scores -> x <= m) /\
    let total := Rsum (map (fun v => exp_finite (v - m)) scores) in
    1 <= total /\
    softmax_stable (map Fin scores)
    = inr (map (fun v => Fin (exp_finite (v - m) / total)) scores).
Proof.
  intros Hne. destruct scores as [|a l]; [congruence|].
  unfold softmax_stable. simpl np_max.
  destruct (fold_left_max_Fin l a) as (m & Hm & Hin & Hle).
  unfold ret, bind. rewrite Hm. exists m.
  split; [exact Hin|]. split; [exact Hle|]. cbv zeta.
  set (scores := a :: l) in *.
  assert (Hone : 1 <= Rsum (map (fun v => exp_finite (v - m)) scores)).
  { rewrite <- exp_finite_0. apply Rsum_ge_member.
    - intros y Hy. apply in_map_iff in Hy. destruct Hy as (v & <- & _).
      apply exp_finite_nonneg.
    - apply in_map_iff. exists m. split; [f_equal; lra | exact Hin]. }
  split; [exact Hone|]. f_equal.
  assert (Hexp : map exp (map (fun v => sub v (Fin m)) (map Fin scores))
                 = map Fin (map (fun v => exp_finite (v - m)) scores)).
  { rewrite !map_map. apply map_ext_in. intros v Hv.
    change (sub (Fin v) (Fin m)) with (Fin (v + - m)).
    rewrite exp_nonpositive by (specialize (Hle v Hv); lra). reflexivity. }
  rewrite Hexp, np_sum_Fin, !map_map. apply map_ext. intros v.
  unfold div. destruct (Req_dec_T _ 0) as [H0|_]; [lra | reflexivity].
Qed.

Lemma exp_finite_monotone (x y : R) : x <= y -> exp_finite x <= exp_finite y.
Proof.
  intros Hxy. unfold exp_finite.
  destruct (Rlt_dec x exp_underflow), (Rlt_dec y exp_underflow); try lra.
  - left. apply exp_pos.
  - destruct (Req_dec_T x y) as [->|Hne]; [lra|].
    left. apply exp_increasing. lra.
Qed.

(** X8: on the finite scores of a race, [softmax_stable] gives each horse
    a probability between 0 and 1, keeps the order of the scores (a horse
    with a score at least as high gets a probability at least as high), and
    gives a horse with the highest score at least 1/n. *)
Theorem softmax_stable_bounds_and_order (scores : list R) :
  scores <> [] ->
  exists probs : list R,
    softmax_stable (map Fin scores) = inr (map Fin probs) /\
    (forall i p, nth_error probs i = Some p -> 0 <= p <= 1) /\
    (forall i j si sj pi pj,
        nth_error scores i = Some si -> nth_error scores j = Some sj ->
        nth_error probs i = Some pi -> nth_error probs j = Some pj ->
        si <= sj -> pi <= pj) /\
    (forall i si pi,
        nth_error scores i = Some si -> nth_error probs i = Some pi ->
        (forall x, In x scores -> x <= si) ->
        1 / INR (length scores) <= pi).
Proof.
  intros Hne. destruct (softmax_stable_closed_form Hne) as (m & Hm & Hle & Hone & Hrun).
  cbv zeta in Hone, Hrun.
  set (total := Rsum (map (fun v => exp_finite (v - m)) scores)) in *.
  exists (map (fun v => exp_finite (v - m) / total) scores).
  split; [rewrite Hrun, map_map; reflexivity|].
  assert (Hnth : forall i p, nth_error (map (fun v => exp_finite (v - m) / total) scores) i = Some p ->
                 exists v, nth_error scores i = Some v /\ p = exp_finite (v - m) / total).
  { intros i p Hp. rewrite nth_error_map in Hp.
    destruct (nth_error scores i) as [v|]; [|discriminate].
    inversion Hp. exists v. auto. }
  assert (Htot : forall v, In v scores -> exp_finite (v - m) <= total).
  { intros v Hv. apply Rsum_ge_member.
    - intros y Hy. apply in_map_iff in Hy. destruct Hy as (u & <- & _).
      apply exp_finite_nonneg.
    - apply in_map_iff. exists v. auto. }
  split; [|split].
  - intros i p Hp. destruct (Hnth i p Hp) as (v & Hv & ->).
    pose proof (exp_finite_nonneg (v - m)).
    pose proof (Htot v (nth_error_In _ _ Hv)).
    split.
    + unfold Rdiv. apply Rle_mult_inv_pos; lra.
    + apply (Rmult_le_reg_r total); [lra|].
      unfold Rdiv. rewrite Rmult_assoc, Rinv_l by lra. lra.
  - intros i j si sj pi pj Hsi Hsj Hpi Hpj Hs.
    destruct (Hnth i pi Hpi) as (vi & Hvi & ->).
    destruct (Hnth j pj Hpj) as (vj & Hvj & ->).
    assert (vi = si) by congruence. assert (vj = sj) by congruence. subst.
    assert (Hm' : exp_finite (si - m) <= exp_finite (sj - m))
      by (apply exp_finite_monotone; lra).
    unfold Rdiv. apply Rmult_le_compat_r; [|exact Hm'].
    left. apply Rinv_0_lt_compat. lra.
  - intros i si pi Hsi Hpi Hmax.
    destruct (Hnth i pi Hpi) as (v & Hv & ->).
    assert (v = si) by congruence. subst v.
    assert (Hsm : si = m).
    { apply Rle_antisym; [apply Hle; eapply nth_error_In; exact Hsi | apply Hmax; exact Hm]. }
    subst si. replace (m - m) with 0 by lra. rewrite exp_finite_0.
    assert (Hn : 0 < INR (length scores)).
    { apply lt_0_INR. destruct scores; [congruence | simpl; lia]. }
    assert (Hub : total <= INR (length scores)).
    { unfold total. clear - Hle. induction scores as [|x l IH].
      - simpl. lra.
      - change (Rsum (map (fun v => exp_finite (v - m)) (x :: l)))
          with (exp_finite (x - m) + Rsum (map (fun v => exp_finite (v - m)) l)).
        change (length (x :: l)) with (S (length l)). rewrite S_INR.
        assert (exp_finite (x - m) <= 1).
        { rewrite <- exp_finite_0. apply exp_finite_monotone.
          specialize (Hle x (or_introl eq_refl)). lra. }
        assert (Rsum (map (fun v => exp_finite (v - m)) l) <= INR (length l)).
        { apply IH. intros y Hy. apply Hle. right. exact Hy. }
        lra. }
    unfold Rdiv. rewrite !Rmult_1_l. apply Rinv_le_contravar; lra.
Qed.

(** ** Missing scores *)

Lemma dropna_map_notna (F : num -> num) (g : list num) :
  F NaN = NaN ->
  (forall v, In v g -> notna v = true -> notna (F v) = true) ->
  dropna (map F g) = map F (dropna g).
Proof.
  intros Hna. unfold dropna. induction g as [|v g IH]; intros Hfin; [reflexivity|].
  cbn [map filter].
  rewrite IH by (intros w Hw; apply Hfin; right; exact Hw).
  destruct (notna v) eqn:Hv.
  - rewrite (Hfin v (or_introl eq_refl) Hv). reflexivity.
  - destruct v; try discriminate. rewrite Hna. reflexivity.
Qed.

Lemma in_dropna_finite (g : list num) (obs : list R) (v : num) :
  dropna g = map Fin obs -> In v g -> notna v = true ->
  exists x, v = Fin x /\ In x obs.
Proof.
  intros Hobs Hin Hv.
  assert (Hd : In v (dropna g)) by (apply filter_In; split; assumption).
  rewrite Hobs in Hd. apply in_map_iff in Hd. destruct Hd as (x & <- & Hx).
  exists x. split; [reflexivity | exact Hx].
Qed.

(** In a race with missing scores, the horses with a score get the
    probabilities they would get among themselves, and the others none. *)
Lemma softmax_stable_Series_missing (g : list num) (obs : list R) :
  dropna g = map Fin obs -> obs <> [] ->
  exists G : num -> num,
    G NaN = NaN /\
    softmax_stable_Series g = map G g /\
    dropna (softmax_stable_Series g) = softmax_stable_Series (map Fin obs).
Proof.
  intros Hobs Hne.
  assert (Hmax : Series_max g = Series_max (map Fin obs)).
  { unfold Series_max. rewrite dropna_Fin, Hobs. reflexivity. }
  assert (Hm : exists m, Series_max g = Fin m).
  { rewrite Hmax. unfold Series_max. rewrite dropna_Fin.
    destruct obs as [|a l]; [congruence|].
    destruct (fold_left_max_Fin l a) as (m & Hm & _). exists m. exact Hm. }
  destruct Hm as (m & Hm).
  set (F := fun v => exp (sub v (Fin m))).
  assert (HF : forall l : list num,
             (forall v, In v l -> notna v = true -> exists x, v = Fin x) ->
             dropna (map F l) = map F (dropna l)).
  { intros l Hl. apply dropna_map_notna; [reflexivity|].
    intros v Hv Hnot. destruct (Hl v Hv Hnot) as (x & ->). apply notna_exp_Fin. }
  assert (Hg : forall v, In v g -> notna v = true -> exists x, v = Fin x).
  { intros v Hv Hnot. destruct (@in_dropna_finite g obs v Hobs Hv Hnot) as (x & -> & _).
    exists x. reflexivity. }
  assert (Hfin : forall v, In v (map Fin obs) -> notna v = true -> exists x, v = Fin x).
  { intros v Hv _. apply in_map_iff in Hv. destruct Hv as (x & <- & _).
    exists x. reflexivity. }
  assert (Hsum : nansum (map F g) = nansum (map F (map Fin obs))).
  { unfold nansum. rewrite (HF g Hg), (HF _ Hfin), Hobs, dropna_Fin. reflexivity. }
  set (G := fun v => div (F v) (nansum (map F g))).
  assert (Hseries : forall l, nansum (map F l) = nansum (map F g) ->
                              Series_max l = Fin m ->
                              softmax_stable_Series l = map G l).
  { intros l Hs Hl. unfold softmax_stable_Series. rewrite Hl.
    cbv zeta.
    assert (Hmm : map exp (map (fun v => sub v (Fin m)) l) = map F l)
      by (rewrite map_map; reflexivity).
    rewrite Hmm, Hs, map_map. reflexivity. }
  exists G. split; [reflexivity|].
  assert (H1 : softmax_stable_Series g = map G g) by (apply Hseries; [reflexivity | exact Hm]).
  assert (H2 : softmax_stable_Series (map Fin obs) = map G (map Fin obs))
    by (apply Hseries; [symmetry; exact Hsum | rewrite <- Hmax; exact Hm]).
  split; [exact H1|].
  rewrite H2, H1, <- Hobs. apply dropna_map_notna; [reflexivity|].
  intros v Hv Hnot. destruct (@in_dropna_finite g obs v Hobs Hv Hnot) as (x & -> & Hx).
  pose proof (softmax_stable_Series_finite Hne) as Hsame.
  destruct (softmax_stable_normalised Hne) as (ps & Hps & _ & _).
  rewrite Hps in Hsame. inversion Hsame as [Heq]. rewrite H2 in Heq.
  assert (Hin : In (G (Fin x)) (map G (map Fin obs))).
  { apply in_map. apply in_map. exact Hx. }
  rewrite <- Heq in Hin. apply in_map_iff in Hin. destruct Hin as (p & <- & _).
  reflexivity.
Qed.

(** X10: what a missing score does to [Predicted_Probability].  The
    calibration raises nothing; a horse with a missing score gets no
    probability, and that horse only: in a race with at least one score
    (and no infinite one) the horses with a score get the probabilities
    that [softmax_stable] gives their scores alone, which add up to 1. *)
Theorem missing_score_stays_with_its_horse (race_ids : list Z) (scores : list num) :
  length race_ids = length scores ->
  exists probs,
    Predicted_Probability race_ids scores = inr probs /\
    length probs = length race_ids /\
    (forall i, nth_error scores i = Some NaN -> nth_error probs i = Some NaN) /\
    (forall race (obs : list R),
        In race race_ids ->
        dropna (get_group Z.eqb race (map Some race_ids) scores) = map Fin obs ->
        obs <> [] ->
        exists ps : list R,
          dropna (get_group Z.eqb race (map Some race_ids) probs) = map Fin ps /\
          softmax_stable (map Fin obs) = inr (map Fin ps) /\
          length ps = length obs /\
          Rsum ps = 1).
Proof.
  intros Hlen.
  destruct (CalibrationFacts.Predicted_Probability_groups race_ids scores Hlen)
    as (probs & Hrun & Hplen & Hrows).
  exists probs. split; [exact Hrun|]. split; [exact Hplen|]. split.
  - intros i Hi.
    assert (Hlt : (i < length race_ids)%nat)
      by (rewrite Hlen; apply nth_error_Some; congruence).
    destruct (nth_error race_ids i) as [race|] eqn:Hrace;
      [|apply nth_error_None in Hrace; lia].
    destruct (nth_error probs i) as [p|] eqn:Hp;
      [|apply nth_error_None in Hp; lia].
    assert (Hk : nth_error (map Some race_ids) i = Some (Some race))
      by (rewrite nth_error_map, Hrace; reflexivity).
    pose proof (@GroupByFacts.nth_error_get_group Z num Z.eqb race (map Some race_ids)
                  probs i p (Z.eqb_refl race) Hk Hp) as Hgp.
    pose proof (@GroupByFacts.nth_error_get_group Z num Z.eqb race (map Some race_ids)
                  scores i NaN (Z.eqb_refl race) Hk Hi) as Hgs.
    rewrite (Hrows race (nth_error_In _ _ Hrace)) in Hgp.
    unfold softmax_stable_Series in Hgp. rewrite !nth_error_map, Hgs in Hgp.
    simpl in Hgp. inversion Hgp. reflexivity.
  - intros race obs Hin Hobs Hne.
    destruct (softmax_stable_Series_missing _ Hobs Hne) as (G & _ & _ & Hdrop).
    destruct (softmax_stable_normalised Hne) as (ps & Hps & Hpl & Hsum).
    pose proof (softmax_stable_Series_finite Hne) as Hsame.
    rewrite Hps in Hsame. inversion Hsame as [Heq].
    exists ps. rewrite (Hrows race Hin), Hdrop, <- Heq. auto.
Qed.

(** Two horses with the same score. *)
Lemma softmax_stable_bounds_and_order_witness :
  exists probs : list R,
    softmax_stable (map Fin [0; 0]) = inr (map Fin probs) /\
    (forall i p, nth_error probs i = Some p -> 0 <= p <= 1).
Proof.
  destruct (@softmax_stable_bounds_and_order [0; 0]) as (probs & Hrun & Hrange & _);
    [discriminate|].
  exists probs. split; [exact Hrun | exact Hrange].
Defined.

(** A race of two where the first horse has no score. *)
Lemma missing_score_stays_with_its_horse_witness :
  exists probs,
    Predicted_Probability [1; 1]%Z [NaN; Fin 0] = inr probs /\
    nth_error probs 0 = Some NaN.
Proof.
  destruct (@missing_score_stays_with_its_horse [1; 1]%Z [NaN; Fin 0] eq_refl)
    as (probs & Hrun & _ & Hmissing & _).
  exists probs. split; [exact Hrun|]. apply Hmissing. reflexivity.
Defined.

End SoftmaxShape.

(* ================================================================== *)
(** * src/model.py: group sizes and out-of-fold scores *)

Module TrainingFacts.
Import Num Pandas Sklearn Model Folds NumFacts SplitFacts.

Lemma sorted_same_elements (l l' : list Z) :
  StronglySorted Z.lt l -> StronglySorted Z.lt l' ->
  (forall x, In x l <-> In x l') -> l = l'.
Proof.
  intros Hs. revert l'. induction Hs as [|a l Hs IH Hall]; intros l' Hs' Hiff.
  - destruct l' as [|b l']; [reflexivity|].
    exfalso. apply (Hiff b). left. reflexivity.
  - destruct Hs' as [|b l' Hs' Hall'].
    + exfalso. apply (Hiff a). left. reflexivity.
    + rewrite Forall_forall in Hall, Hall'.
      assert (Hab : a = b).
      { assert (Ha : In a (b :: l')) by (apply Hiff; left; reflexivity).
        assert (Hb : In b (a :: l)) by (apply Hiff; left; reflexivity).
        destruct Ha as [Ha|Ha]; [congruence|]. destruct Hb as [Hb|Hb]; [congruence|].
        specialize (Hall b Hb). specialize (Hall' a Ha). lia. }
      subst b. f_equal. apply IH; [exact Hs'|].
      intros x. split; intros Hx.
      * assert (Hx' : In x (a :: l')) by (apply Hiff; right; exact Hx).
        destruct Hx' as [->|Hx']; [|exact Hx'].
        specialize (Hall x Hx). lia.
      * assert (Hx' : In x (a :: l)) by (apply Hiff; right; exact Hx).
        destruct Hx' as [->|Hx']; [|exact Hx'].
        specialize (Hall' x Hx). lia.
Qed.

Lemma sum_count_occ (l u : list Z) :
  NoDup u -> (forall x, In x l -> In x u) ->
  list_sum (map (count_occ Z.eq_dec l) u) = length l.
Proof.
  intros Hnd. induction l as [|x l IH]; intros Hin.
  - simpl. clear. induction u as [|y u IH]; simpl; [reflexivity | exact IH].
  - assert (Hstep : forall u', NoDup u' ->
       list_sum (map (count_occ Z.eq_dec (x :: l)) u')
       = (if in_dec Z.eq_dec x u' then 1 else 0) + list_sum (map (count_occ Z.eq_dec l) u')).
    { clear. intros u' Hnd'. induction Hnd' as [|y u' Hnotin Hnd' IHu]; [reflexivity|].
      assert (Hc : forall a r, list_sum (a :: r) = a + list_sum r) by reflexivity.
      rewrite !map_cons, !Hc, IHu. cbn [count_occ].
      destruct (Z.eq_dec x y) as [->|Hne].
      - destruct (in_dec Z.eq_dec y (y :: u')) as [_|Hn]; [|exfalso; apply Hn; left; reflexivity].
        destruct (in_dec Z.eq_dec y u') as [Hy|_]; [contradiction | lia].
      - destruct (in_dec Z.eq_dec x (y :: u')) as [[Hy|Hy]|Hn];
          destruct (in_dec Z.eq_dec x u') as [Hx|Hx]; try lia; try congruence;
          try contradiction.
        exfalso. apply Hn. right. exact Hx. }
    rewrite (Hstep u Hnd), IH by (intros y Hy; apply Hin; right; exact Hy).
    destruct (in_dec Z.eq_dec x u) as [_|Hn]; [reflexivity|].
    exfalso. apply Hn, Hin. left. reflexivity.
Qed.

(** X11: the group sizes that [train_and_evaluate] hands to the ranker.
    Each size is at least 1, the sizes add up to the number of rows, and
    they are listed by increasing race identifier whatever the order of the
    rows: permuting the rows does not change them. *)
Theorem group_sizes_sum_and_order (ids : list Z) :
  Forall (fun n => 1 <= n) (group_sizes ids) /\
  list_sum (group_sizes ids) = length ids /\
  length (group_sizes ids) = length (np_unique ids) /\
  forall ids', Permutation ids ids' -> group_sizes ids' = group_sizes ids.
Proof.
  unfold group_sizes. split; [|split; [|split]].
  - rewrite Forall_forall. intros n Hn. apply in_map_iff in Hn.
    destruct Hn as (g & <- & Hg). apply (proj1 (in_np_unique g ids)) in Hg.
    pose proof (proj1 (count_occ_In Z.eq_dec ids g) Hg) as Hpos. lia.
  - apply sum_count_occ; [apply np_unique_NoDup|].
    intros x Hx. apply in_np_unique. exact Hx.
  - apply length_map.
  - intros ids' Hperm.
    assert (Hu : np_unique ids' = np_unique ids).
    { apply sorted_same_elements; try apply np_unique_sorted.
      intros x. rewrite !in_np_unique. split; intros Hx.
      - eapply Permutation_in; [apply Permutation_sym; exact Hperm | exact Hx].
      - eapply Permutation_in; [exact Hperm | exact Hx]. }
    rewrite Hu. apply map_ext. intros g.
    symmetry. apply Permutation_count_occ. exact Hperm.
Qed.

(** ** Out-of-fold scores *)

Lemma nth_error_update (A : Type) (j : nat) (v : A) (s : list A) (i : nat) :
  nth_error (update j v s) i
  = if (i =? j) && (j <? length s) then Some v else nth_error s i.
Proof.
  revert j i. induction s as [|x s IH]; intros j i.
  - destruct j; simpl; rewrite andb_false_r; reflexivity.
  - destruct j as [|j], i as [|i]; simpl; try reflexivity.
    rewrite IH. reflexivity.
Qed.

Lemma iloc_set_keeps_finite (idx : list nat) (vals s : list num) (i : nat) :
  Forall (fun v => exists r, v = Fin r) vals ->
  finite_at s i -> finite_at (iloc_set idx vals s) i.
Proof.
  revert vals s. induction idx as [|j idx IH]; intros vals s Hvals Hs; [exact Hs|].
  destruct vals as [|v vals]; [exact Hs|]. simpl.
  inversion Hvals as [|? ? (r & ->) Hvals']; subst.
  apply IH; [exact Hvals'|].
  unfold finite_at. rewrite nth_error_update.
  destruct ((i =? j) && (j <? length s)); [exists r; reflexivity | exact Hs].
Qed.

Lemma iloc_set_makes_finite (idx : list nat) (vals s : list num) (i : nat) :
  Forall (fun v => exists r, v = Fin r) vals ->
  length idx <= length vals -> In i idx -> i < length s ->
  finite_at (iloc_set idx vals s) i.
Proof.
  revert vals s. induction idx as [|j idx IH]; intros vals s Hvals Hlen Hin Hi;
    [destruct Hin|].
  destruct vals as [|v vals]; [simpl in Hlen; lia|]. simpl.
  inversion Hvals as [|? ? (r & ->) Hvals']; subst.
  destruct (Nat.eq_dec i j) as [->|Hne].
  - apply iloc_set_keeps_finite; [exact Hvals'|].
    unfold finite_at. rewrite nth_error_update, Nat.eqb_refl.
    apply Nat.ltb_lt in Hi. rewrite Hi. exists r. reflexivity.
  - destruct Hin as [Heq|Hin]; [congruence|].
    apply IH; [exact Hvals' | simpl in Hlen; lia | exact Hin|].
    rewrite CalibrationFacts.update_length. exact Hi.
Qed.

Lemma all_finite (s : list num) :
  (forall i, i < length s -> finite_at s i) -> exists scores, s = map Fin scores.
Proof.
  induction s as [|x s IH]; intros Hall; [exists []; reflexivity|].
  destruct (Hall 0%nat) as (r & Hr); [simpl; lia|]. simpl in Hr. inversion Hr; subst x.
  destruct IH as (scores & ->).
  - intros i Hi. destruct (Hall (S i)) as (r' & Hr'); [simpl; lia|].
    exists r'. exact Hr'.
  - exists (r :: scores). reflexivity.
Qed.

(** Every row is a validation row of one of the folds. *)
Lemma row_in_some_validation_set (n_splits : nat) (groups : list Z) folds (i : nat) :
  GroupKFold_split n_splits groups = inr folds ->
  i < length groups ->
  exists train_idx val_idx, In (train_idx, val_idx) folds /\ In i val_idx.
Proof.
  intros Hrun Hi. unfold GroupKFold_split in Hrun.
  destruct (n_splits <? 2) eqn:H2; [discriminate|].
  destruct (length groups <? n_splits); [discriminate|].
  destruct (length (np_unique groups) <? n_splits); [discriminate|].
  inversion Hrun; subst folds. clear Hrun. apply Nat.ltb_ge in H2.
  assert (Hlen : length (fold_of_rows n_splits groups) = length groups).
  { unfold fold_of_rows. rewrite !length_map. reflexivity. }
  destruct (nth_error (fold_of_rows n_splits groups) i) as [f|] eqn:Hf;
    [|apply nth_error_None in Hf; lia].
  assert (Hb : f < n_splits).
  { pose proof (fold_of_rows_bound groups (n_splits := n_splits)) as Hb.
    rewrite Forall_forall in Hb. apply Hb; [lia|]. eapply nth_error_In. exact Hf. }
  eexists. eexists. split.
  - apply in_map_iff. exists f. split; [reflexivity|]. apply in_seq. lia.
  - apply FoldFacts.np_where_spec. exists f. split; [exact Hf | apply Nat.eqb_refl].
Qed.

Lemma iloc_length (A : Type) (s : list A) (idx : list nat) :
  (forall i, In i idx -> i < length s) -> length (iloc s idx) = length idx.
Proof.
  unfold iloc. induction idx as [|i idx IH]; intros Hin; [reflexivity|].
  cbn [flat_map]. rewrite length_app, IH by (intros j Hj; apply Hin; right; exact Hj).
  destruct (nth_error s i) as [a|] eqn:Hi; [reflexivity|].
  apply nth_error_None in Hi. specialize (Hin i (or_introl eq_refl)). lia.
Qed.

(** The validation rows of a fold are rows of the table. *)
Lemma validation_rows_in_range (n_splits : nat) (groups : list Z) folds train_idx val_idx :
  GroupKFold_split n_splits groups = inr folds ->
  In (train_idx, val_idx) folds ->
  forall i, In i val_idx -> i < length groups.
Proof.
  intros Hrun Hin i Hi.
  destruct (@FoldFacts.GroupKFold_split_folds _ _ _ _ _ Hrun Hin) as (f & _ & _ & ->).
  apply FoldFacts.np_where_spec in Hi. destruct Hi as (x & Hx & _).
  assert (Hlen : length (fold_of_rows n_splits groups) = length groups).
  { unfold fold_of_rows. rewrite !length_map. reflexivity. }
  rewrite <- Hlen. apply nth_error_Some. congruence.
Qed.

Section Training.
Variable fit_predict : list nat -> list nat -> list nat -> list nat -> list num.
Variable metrics : list nat -> list num -> result (num * num).

(** The ranker returns one finite score per validation row. *)
Hypothesis fit_predict_scores :
  forall train_idx train_sizes val_idx val_sizes,
    exists scores : list R,
      fit_predict train_idx train_sizes val_idx val_sizes = map Fin scores /\
      length scores = length val_idx.

Lemma fold_step_scores (race_ids : list Z) (oof_scores step : list num) fold :
  fold_step fit_predict metrics race_ids oof_scores fold = inr step ->
  step = iloc_set (snd fold)
           (fit_predict (fst fold) (group_sizes (iloc race_ids (fst fold)))
                        (snd fold) (group_sizes (iloc race_ids (snd fold))))
           oof_scores.
Proof.
  unfold fold_step. intros Hrun.
  apply bind_inr in Hrun. destruct Hrun as (probs & _ & Hrun).
  apply bind_inr in Hrun. destruct Hrun as (losses & _ & Hret).
  inversion Hret. reflexivity.
Qed.

(** When the loop completes, a row that had a score keeps one, and a
    validation row of one of the folds has got one. *)
Lemma fold_loop_finite (race_ids : list Z) folds (init oof_scores : list num) (i : nat) :
  fold_loop fit_predict metrics race_ids folds init = inr oof_scores ->
  i < length init ->
  finite_at init i \/ (exists tr va, In (tr, va) folds /\ In i va) ->
  finite_at oof_scores i.
Proof.
  revert init. induction folds as [|[tr va] folds IH]; intros init Hrun Hi Hcase;
    simpl in Hrun.
  - inversion Hrun; subst. destruct Hcase as [H|(tr & va & [] & _)]. exact H.
  - apply bind_inr in Hrun. destruct Hrun as (step & Hstep & Hrun).
    apply fold_step_scores in Hstep. simpl in Hstep.
    destruct (fit_predict_scores tr (group_sizes (iloc race_ids tr))
                                 va (group_sizes (iloc race_ids va)))
      as (scores & Hsc & Hlen).
    rewrite Hsc in Hstep. subst step.
    assert (Hfin : Forall (fun v => exists r, v = Fin r) (map Fin scores)).
    { rewrite Forall_forall. intros v Hv. apply in_map_iff in Hv.
      destruct Hv as (r & <- & _). exists r. reflexivity. }
    apply (IH _ Hrun); [rewrite CalibrationFacts.iloc_set_length; exact Hi|].
    destruct Hcase as [H|(tr' & va' & [Heq|Hin] & Hiva)].
    + left. apply iloc_set_keeps_finite; assumption.
    + inversion Heq; subst tr' va'. left.
      apply iloc_set_makes_finite; try assumption.
      rewrite length_map. lia.
    + right. exists tr', va'. auto.
Qed.

(** When no call of the metrics raises, the loop goes through all the
    folds. *)
Lemma fold_loop_completes (race_ids : list Z) folds (init : list num) :
  (forall idx probs, exists losses, metrics idx probs = inr losses) ->
  (forall tr va, In (tr, va) folds -> forall i, In i va -> i < length race_ids) ->
  exists oof_scores, fold_loop fit_predict metrics race_ids folds init = inr oof_scores.
Proof.
  intros Hmetrics. revert init.
  induction folds as [|[tr va] folds IH]; intros init Hrows.
  - exists init. reflexivity.
  - simpl. unfold fold_step. simpl.
    destruct (fit_predict_scores tr (group_sizes (iloc race_ids tr))
                                 va (group_sizes (iloc race_ids va)))
      as (scores & Hsc & Hlen).
    destruct (@CalibrationFacts.Predicted_Probability_groups (iloc race_ids va)
                (fit_predict tr (group_sizes (iloc race_ids tr))
                             va (group_sizes (iloc race_ids va))))
      as (probs & Hprobs & _).
    { rewrite Hsc, length_map, Hlen. apply iloc_length.
      apply (Hrows tr va). left. reflexivity. }
    rewrite Hprobs. unfold bind at 2.
    destruct (Hmetrics va probs) as (losses & Hlosses). rewrite Hlosses.
    unfold bind at 2. unfold ret at 1. unfold bind at 1.
    apply IH. intros tr' va' Hin. apply (Hrows tr' va'). right. exact Hin.
Qed.

(** When the metrics of one of the folds raise, the loop raises: with the
    exception of these metrics, or with one raised before. *)
Lemma fold_loop_raises (race_ids : list Z) folds (init : list num) :
  (exists tr va, In (tr, va) folds /\ forall probs, exists e, metrics va probs = inl e) ->
  exists e, fold_loop fit_predict metrics race_ids folds init = inl e.
Proof.
  revert init. induction folds as [|[tr0 va0] folds IH]; intros init (tr & va & Hin & Hraises).
  - destruct Hin.
  - cbn [fold_loop].
    destruct (fold_step fit_predict metrics race_ids init (tr0, va0)) as [e|step] eqn:Hstep;
      [exists e; reflexivity|].
    change (bind (inr step) (fun oof_scores => fold_loop fit_predict metrics race_ids folds oof_scores))
      with (fold_loop fit_predict metrics race_ids folds step).
    destruct Hin as [Heq|Hin].
    + inversion Heq; subst tr0 va0. exfalso.
      unfold fold_step in Hstep. cbn [fst snd] in Hstep.
      apply bind_inr in Hstep. destruct Hstep as (probs & _ & Hstep).
      apply bind_inr in Hstep. destruct Hstep as (losses & Hlosses & _).
      destruct (Hraises probs) as (e & He). congruence.
    + apply IH. exists tr, va. auto.
Qed.

(** X12: no row is left without an out-of-fold score.  Take a ranker that
    returns one finite score per validation row and the folds of
    [GroupKFold_split].  When no call of [log_loss] and [brier_score_loss]
    raises, the loop over the folds completes.  Whenever it completes, it
    has filled the score of every row; the softmax within each race then
    raises nothing and gives one finite probability per row, adding up to
    1 within every race.  When the metrics of one of the folds raise, the
    loop does not complete. *)
Theorem every_row_gets_an_out_of_fold_score (race_ids : list Z) (num_folds : nat) folds :
  GroupKFold_split num_folds race_ids = inr folds ->
  ((forall idx probs, exists losses, metrics idx probs = inr losses) ->
   exists oof_scores,
     out_of_fold_scores fit_predict metrics race_ids folds = inr oof_scores) /\
  (forall oof_scores,
     out_of_fold_scores fit_predict metrics race_ids folds = inr oof_scores ->
     exists (scores probs : list R),
       oof_scores = map Fin scores /\
       Predicted_Probability race_ids oof_scores = inr (map Fin probs) /\
       length scores = length race_ids /\
       length probs = length race_ids /\
       forall race, In race race_ids ->
         exists ps : list R,
           get_group Z.eqb race (map Some race_ids) (map Fin probs) = map Fin ps /\
           Rsum ps = 1%R) /\
  (forall tr va,
     In (tr, va) folds ->
     (forall probs, exists e, metrics va probs = inl e) ->
     exists e, out_of_fold_scores fit_predict metrics race_ids folds = inl e).
Proof.
  intros Hsplit. split; [|split].
  - intros Hmetrics. unfold out_of_fold_scores.
    apply fold_loop_completes; [exact Hmetrics|].
    intros tr va Hin. exact (@validation_rows_in_range _ _ _ _ _ Hsplit Hin).
  - intros oof_scores Hrun.
    pose proof (CalibrationFacts.out_of_fold_scores_length _ _ _ _ Hrun) as Hooflen.
    destruct (@all_finite oof_scores) as (scores & ->).
    { intros i Hi. unfold out_of_fold_scores in Hrun.
      apply (@fold_loop_finite race_ids folds _ oof_scores i Hrun); [rewrite repeat_length; lia|].
      right. apply (@row_in_some_validation_set _ _ _ _ Hsplit). lia. }
    assert (Hlen : length race_ids = length scores)
      by (rewrite length_map in Hooflen; lia).
    destruct (@CalibrationFacts.Predicted_Probability_by_race race_ids scores Hlen)
      as (probs & Hp & Hplen & Hrows).
    assert (Hfin : exists ps, probs = map Fin ps).
    { apply all_finite. intros i Hi. rewrite Hplen in Hi.
      destruct (nth_error race_ids i) as [race|] eqn:Hrace;
        [|apply nth_error_None in Hrace; lia].
      destruct (Hrows race (nth_error_In _ _ Hrace)) as (ps & Hg & _ & _).
      destruct (nth_error probs i) as [p|] eqn:Hpi;
        [|apply nth_error_None in Hpi; lia].
      pose proof (@GroupByFacts.nth_error_get_group Z num Z.eqb race (map Some race_ids)
                    probs i p (Z.eqb_refl race)) as Hnth.
      rewrite nth_error_map, Hrace in Hnth. specialize (Hnth eq_refl Hpi).
      rewrite Hg, nth_error_map in Hnth.
      destruct (nth_error ps _) as [r|]; [|discriminate].
      inversion Hnth. subst p. exists r. exact Hpi. }
    destruct Hfin as (ps & ->).
    exists scores, ps. split; [reflexivity|]. split; [exact Hp|].
    split; [symmetry; exact Hlen|].
    split; [rewrite length_map in Hplen; exact Hplen|].
    intros race Hin. destruct (Hrows race Hin) as (qs & Hg & _ & Hsum).
    exists qs. auto.
  - intros tr va Hin Hraises. unfold out_of_fold_scores.
    exact (fold_loop_raises _ _ _ (ex_intro _ tr (ex_intro _ va (conj Hin Hraises)))).
Qed.

End Training.

(** The seven rows of the example, every fold scored 0. *)
Lemma every_row_gets_an_out_of_fold_score_witness :
  exists scores : list R,
    out_of_fold_scores Examples.constant_scores Examples.constant_metrics
      Examples.example_race_ids
      [([0; 1; 6], [2; 3; 4; 5]); ([2; 3; 4; 5], [0; 1; 6])] = inr (map Fin scores) /\
    length scores = 7.
Proof.
  destruct (@every_row_gets_an_out_of_fold_score Examples.constant_scores
              Examples.constant_metrics)
    with (race_ids := Examples.example_race_ids) (num_folds := 2)
         (folds := [([0; 1; 6], [2; 3; 4; 5]); ([2; 3; 4; 5], [0; 1; 6])])
    as (Hcompletes & Hfilled & _).
  - intros train_idx train_sizes val_idx val_sizes.
    exists (map (fun _ => 0%R) val_idx). unfold Examples.constant_scores.
    rewrite map_map, length_map. split; reflexivity.
  - exact FoldFacts.example_folds.
  - destruct Hcompletes as (oof_scores & Hrun).
    { intros idx probs. eexists. reflexivity. }
    destruct (Hfilled oof_scores Hrun) as (scores & probs & -> & _ & Hlen & _).
    exists scores. split; [exact Hrun | exact Hlen].
Defined.

(** Two orders of the same three rows. *)
Lemma group_sizes_sum_and_order_witness :
  group_sizes [10; 20; 10]%Z = group_sizes [20; 10; 10]%Z.
Proof.
  apply (proj2 (proj2 (proj2 (group_sizes_sum_and_order [20; 10; 10]%Z)))).
  apply perm_swap.
Defined.

End TrainingFacts.

(* ================================================================== *)
(** * scikit-learn's GroupKFold: no fold is empty *)

Module BalanceFacts.
Import Num Pandas Sklearn Model Folds SplitFacts.

Lemma insert_by_perm (w : list nat) (i : nat) (sorted : list nat) :
  Permutation (insert_by w i sorted) (i :: sorted).
Proof.
  induction sorted as [|j r IH]; simpl; [reflexivity|].
  destruct (nth i w 0 <=? nth j w 0); [reflexivity|].
  rewrite IH. apply perm_swap.
Qed.

(** [argsort] lists every position once. *)
Lemma argsort_perm (w : list nat) : Permutation (argsort w) (seq 0 (length w)).
Proof.
  unfold argsort. induction (seq 0 (length w)) as [|i l IH]; simpl; [reflexivity|].
  rewrite insert_by_perm. constructor. exact IH.
Qed.

Lemma index_of_nth (u : list Z) (g : nat) :
  NoDup u -> g < length u -> index_of (nth g u 0%Z) u = g.
Proof.
  intros Hnd. revert g. induction Hnd as [|x u Hnotin Hnd IH]; intros g Hg;
    [simpl in Hg; lia|].
  destruct g as [|g]; simpl.
  - rewrite Z.eqb_refl. reflexivity.
  - simpl in Hg. destruct (nth g u 0 =? x)%Z eqn:Heq.
    + apply Z.eqb_eq in Heq. exfalso. apply Hnotin. rewrite <- Heq.
      apply nth_In. lia.
    + rewrite IH by lia. reflexivity.
Qed.

(** Every group position is the position of a row's group. *)
Lemma group_has_row (groups : list Z) (g : nat) :
  g < length (np_unique groups) ->
  exists i, i < length groups /\
            nth_error (map (fun x => index_of x (np_unique groups)) groups) i = Some g.
Proof.
  intros Hg.
  assert (Hin : In (nth g (np_unique groups) 0%Z) groups).
  { apply in_np_unique. apply nth_In. exact Hg. }
  apply In_nth_error in Hin. destruct Hin as (i & Hi).
  exists i. split; [apply nth_error_Some; congruence|].
  rewrite nth_error_map, Hi. simpl.
  rewrite index_of_nth by (try apply np_unique_NoDup; exact Hg). reflexivity.
Qed.


Lemma nth_update (j v : nat) (l : list nat) (i : nat) :
  nth i (update j v l) 0 = if (i =? j) && (j <? length l) then v else nth i l 0.
Proof.
  revert j i. induction l as [|x l IH]; intros j i.
  - destruct j, i; simpl; rewrite ?andb_false_r; reflexivity.
  - destruct j as [|j], i as [|i]; simpl; try reflexivity.
    rewrite IH. reflexivity.
Qed.

Lemma zeros_none (l : list nat) (f : nat) :
  zeros l = 0 -> f < length l -> 0 < nth f l 0.
Proof.
  unfold zeros. revert f. induction l as [|x l IH]; intros f Hz Hf; [simpl in Hf; lia|].
  simpl in Hz. destruct (x =? 0) eqn:Hx; [simpl in Hz; lia|].
  apply Nat.eqb_neq in Hx. destruct f as [|f]; simpl; [lia|].
  apply IH; [exact Hz | simpl in Hf; lia].
Qed.

Lemma zeros_update (l : list nat) (i v : nat) :
  i < length l -> 0 < v ->
  zeros (update i v l) = if nth i l 0 =? 0 then zeros l - 1 else zeros l.
Proof.
  unfold zeros. revert i. induction l as [|x l IH]; intros i Hi Hv; [simpl in Hi; lia|].
  destruct i as [|i]; simpl.
  - destruct (v =? 0) eqn:Hv0; [apply Nat.eqb_eq in Hv0; lia|].
    destruct (x =? 0); simpl; lia.
  - simpl in Hi. specialize (IH i (proj2 (Nat.succ_lt_mono _ _) Hi) Hv).
    destruct (x =? 0) eqn:Hx; simpl; rewrite IH; [|reflexivity].
    destruct (nth i l 0 =? 0) eqn:Hn; [|reflexivity].
    assert (Hpos : 0 < length (filter (fun x0 => x0 =? 0) l)).
    { clear - Hn Hi. revert i Hn Hi. induction l as [|y l IHl]; intros i Hn Hi;
        [simpl in Hi; lia|].
      destruct i as [|i]; simpl in *.
      - rewrite Hn. simpl. lia.
      - destruct (y =? 0); simpl; [lia|]. apply (IHl i); [exact Hn | lia]. }
    lia.
Qed.

Lemma min_le_all (d : nat) (l : list nat) (x : nat) :
  In x l -> fold_right Nat.min d l <= x.
Proof.
  induction l as [|y l IH]; intros Hin; [destruct Hin|]. simpl.
  destruct Hin as [->|Hin]; [lia|]. specialize (IH Hin). lia.
Qed.

Lemma nth_first_index (v : nat) (l : list nat) :
  In v l -> nth (first_index v l) l 0 = v.
Proof.
  induction l as [|x l IH]; intros Hin; [destruct Hin|]. simpl.
  destruct (x =? v) eqn:Hx; [apply Nat.eqb_eq in Hx; exact Hx|].
  apply Nat.eqb_neq in Hx. destruct Hin as [Heq|Hin]; [congruence|]. apply IH. exact Hin.
Qed.

(** [np.argmin] points at a zero as long as there is one. *)
Lemma argmin_zero (l : list nat) : 0 < zeros l -> nth (argmin l) l 0 = 0.
Proof.
  intros Hz.
  assert (Hin0 : In 0 l).
  { unfold zeros in Hz. destruct (filter (fun x => x =? 0) l) as [|z r] eqn:Hf;
      [simpl in Hz; lia|].
    assert (Hzin : In z (filter (fun x => x =? 0) l)) by (rewrite Hf; left; reflexivity).
    apply filter_In in Hzin. destruct Hzin as (Hzin & Hz0).
    apply Nat.eqb_eq in Hz0. subst z. exact Hzin. }
  unfold argmin.
  assert (Hmin : fold_right Nat.min (hd 0 l) l = 0).
  { pose proof (min_le_all (hd 0 l) l 0 Hin0). lia. }
  rewrite Hmin. apply nth_first_index. exact Hin0.
Qed.

Section Distribute.
Variable n : nat.
Variable w : list nat.

(** The greedy loop reaches every fold when there are at least as many
    groups left as folds still empty. *)
Lemma distribute_onto (order per_fold g2f : list nat) :
  NoDup order ->
  (forall g, In g order -> g < length g2f /\ 1 <= nth g w 0) ->
  length per_fold = n ->
  (forall f, f < n -> 0 < nth f per_fold 0 ->
             exists g, ~ In g order /\ g < length g2f /\ nth g g2f 0 = f) ->
  zeros per_fold <= length order ->
  forall f, f < n ->
    exists g, g < length g2f /\ nth g (distribute order w per_fold g2f) 0 = f.
Proof.
  revert per_fold g2f.
  induction order as [|g order IH]; intros per_fold g2f Hnd Hord Hlen Hinv Hz f Hf.
  - simpl. simpl in Hz.
    destruct (Hinv f Hf) as (g & _ & Hg & Hgf).
    + apply zeros_none; [lia | rewrite Hlen; exact Hf].
    + exists g. auto.
  - simpl. inversion Hnd as [|? ? Hnotin Hnd']; subst.
    destruct (Hord g (or_introl eq_refl)) as (Hg & Hw).
    assert (Hne : per_fold <> []) by (destruct per_fold; [simpl in Hf; lia | discriminate]).
    pose proof (argmin_lt Hne) as Ha.
    set (a := argmin per_fold) in *.
    destruct (IH (update a (nth a per_fold 0 + nth g w 0) per_fold) (update g a g2f))
      with (f := f) as (g' & Hg' & Hres).
    + exact Hnd'.
    + intros g0 Hg0. rewrite CalibrationFacts.update_length. apply Hord. right. exact Hg0.
    + rewrite CalibrationFacts.update_length. reflexivity.
    + intros f0 Hf0 Hpos. rewrite nth_update in Hpos.
      destruct (Nat.eq_dec f0 a) as [->|Hfa].
      * exists g. split; [exact Hnotin|]. rewrite CalibrationFacts.update_length.
        split; [exact Hg|]. rewrite nth_update, Nat.eqb_refl.
        apply Nat.ltb_lt in Hg. rewrite Hg. reflexivity.
      * apply Nat.eqb_neq in Hfa. rewrite Hfa in Hpos. simpl in Hpos.
        destruct (Hinv f0 Hf0 Hpos) as (g0 & Hn0 & Hl0 & Hv0).
        exists g0. split; [intros Hc; apply Hn0; right; exact Hc|].
        rewrite CalibrationFacts.update_length. split; [exact Hl0|].
        rewrite nth_update.
        destruct (g0 =? g) eqn:Hgg.
        -- apply Nat.eqb_eq in Hgg. subst g0. exfalso. apply Hn0. left. reflexivity.
        -- simpl. exact Hv0.
    + rewrite zeros_update by lia.
      destruct (nth a per_fold 0 =? 0) eqn:Hz0; [simpl in Hz; lia|].
      assert (zeros per_fold = 0); [|simpl in Hz; lia].
      destruct (zeros per_fold) eqn:Hzp; [reflexivity|].
      apply Nat.eqb_neq in Hz0. exfalso. apply Hz0. apply argmin_zero. lia.
    + exact Hf.
    + exists g'. rewrite CalibrationFacts.update_length in Hg'. auto.
Qed.

End Distribute.

(** Every fold number below [n_splits] is the fold of some row. *)
Lemma every_fold_has_a_row (n_splits : nat) (groups : list Z) (f : nat) :
  n_splits <= length (np_unique groups) -> f < n_splits ->
  exists i, nth_error (fold_of_rows n_splits groups) i = Some f.
Proof.
  intros Hn Hf. unfold fold_of_rows.
  set (u := np_unique groups).
  set (group_idx := map (fun g => index_of g u) groups).
  set (w := bincount group_idx (length u)).
  assert (Hwlen : length w = length u)
    by (unfold w, bincount; rewrite length_map, length_seq; reflexivity).
  assert (Hperm : Permutation (rev (argsort w)) (seq 0 (length u))).
  { rewrite <- Hwlen, <- Permutation_rev. apply argsort_perm. }
  destruct (@distribute_onto n_splits w (rev (argsort w)) (repeat 0 n_splits)
              (repeat 0 (length u))) with (f := f) as (g & Hg & Hgf).
  - eapply Permutation_NoDup; [apply Permutation_sym; exact Hperm | apply seq_NoDup].
  - intros g Hg. apply (Permutation_in _ Hperm) in Hg. apply in_seq in Hg.
    rewrite repeat_length. split; [lia|].
    unfold w, bincount.
    rewrite (nth_indep _ 0 (count_occ Nat.eq_dec group_idx 0))
      by (rewrite length_map, length_seq; lia).
    rewrite (map_nth (fun g0 => count_occ Nat.eq_dec group_idx g0)), seq_nth by lia.
    simpl.
    destruct (@group_has_row groups g) as (i & _ & Hi); [fold u; lia|].
    apply nth_error_In in Hi. fold u in Hi. fold group_idx in Hi.
    apply (count_occ_In Nat.eq_dec) in Hi. lia.
  - apply repeat_length.
  - intros f0 Hf0 Hpos. exfalso.
    rewrite nth_repeat in Hpos. lia.
  - unfold zeros.
    assert (Hall : filter (fun x => x =? 0) (repeat 0 n_splits) = repeat 0 n_splits).
    { clear. induction n_splits; simpl; [reflexivity | rewrite IHn_splits; reflexivity]. }
    rewrite Hall, repeat_length, length_rev.
    rewrite (Permutation_length (argsort_perm w)), length_seq, Hwlen. exact Hn.
  - exact Hf.
  - rewrite repeat_length in Hg.
    destruct (@group_has_row groups g Hg) as (i & _ & Hi).
    exists i. rewrite nth_error_map. fold u in Hi. fold group_idx in Hi.
    rewrite Hi. simpl. f_equal. exact Hgf.
Qed.

(** X13: in every fold that [GroupKFold_split] returns there is at least
    one validation row and at least one training row, so no model is
    trained or evaluated on an empty table. *)
Theorem no_fold_is_empty (n_splits : nat) (groups : list Z) folds train_idx val_idx :
  GroupKFold_split n_splits groups = inr folds ->
  In (train_idx, val_idx) folds ->
  train_idx <> [] /\ val_idx <> [].
Proof.
  intros Hrun Hin.
  destruct (@FoldFacts.GroupKFold_split_folds _ _ _ _ _ Hrun Hin) as (f & Hf & -> & ->).
  unfold GroupKFold_split in Hrun.
  destruct (n_splits <? 2) eqn:H2; [discriminate|].
  destruct (length groups <? n_splits); [discriminate|].
  destruct (length (np_unique groups) <? n_splits) eqn:Hg; [discriminate|].
  apply Nat.ltb_ge in H2, Hg.
  set (other := if f =? 0 then 1 else 0).
  assert (Ho : other < n_splits /\ other <> f).
  { unfold other. destruct (f =? 0) eqn:Hf0.
    - apply Nat.eqb_eq in Hf0. lia.
    - apply Nat.eqb_neq in Hf0. lia. }
  destruct (@every_fold_has_a_row n_splits groups f Hg Hf) as (i & Hi).
  destruct (@every_fold_has_a_row n_splits groups other Hg (proj1 Ho)) as (j & Hj).
  split.
  - assert (Hjin : In j (np_where (fun i0 => negb (i0 =? f)) (fold_of_rows n_splits groups))).
    { apply FoldFacts.np_where_spec. exists other. split; [exact Hj|].
      apply negb_true_iff, Nat.eqb_neq. tauto. }
    intros Hnil. rewrite Hnil in Hjin. destruct Hjin.
  - assert (Hiin : In i (np_where (fun i0 => i0 =? f) (fold_of_rows n_splits groups))).
    { apply FoldFacts.np_where_spec. exists f. split; [exact Hi | apply Nat.eqb_refl]. }
    intros Hnil. rewrite Hnil in Hiin. destruct Hiin.
Qed.

(** The first fold of the example. *)
Lemma no_fold_is_empty_witness :
  [0; 1; 6] <> @nil nat /\ [2; 3; 4; 5] <> @nil nat.
Proof.
  apply (@no_fold_is_empty 2 Examples.example_race_ids _ [0; 1; 6] [2; 3; 4; 5]
           FoldFacts.example_folds).
  left. reflexivity.
Defined.

End BalanceFacts.

(* ================================================================== *)
(** * run_all.py *)

Module RunAllFacts.
Import RunAll.
Local Open Scope string_scope.

Section Runner.
Variable world : Type.
Variable subprocess_run : list string -> world -> Z * world.
Variable NOTEBOOK_DIR : string.

Local Abbreviation run_notebook := (@run_notebook world subprocess_run NOTEBOOK_DIR).
Local Abbreviation run_each := (@run_each world subprocess_run NOTEBOOK_DIR).
Local Abbreviation main := (@main world subprocess_run NOTEBOOK_DIR).
Local Abbreviation command := (command NOTEBOOK_DIR).

Lemma run_notebook_commands (nb : string) (s : state world) :
  commands (fst (run_notebook nb s)) = (commands s ++ [command nb])%list.
Proof.
  unfold RunAll.run_notebook. simpl.
  destruct (subprocess_run _ _) as [rc w]. destruct (rc =? 0)%Z; reflexivity.
Qed.

(** The loop runs the notebooks of its list in order and stops after the
    first one whose command does not return 0. *)
Lemma run_each_prefix (nbs : list string) (s : state world) :
  exists k,
    k <= length nbs /\
    commands (fst (run_each nbs s)) = (commands s ++ map command (firstn k nbs))%list /\
    match snd (run_each nbs s) with
    | None => k = length nbs
    | Some code =>
        code <> 0%Z /\
        exists nb, nth_error nbs (k - 1) = Some nb /\ 1 <= k /\
                   last (stdout (fst (run_each nbs s))) ""
                   = nl ++ "[ERROR] " ++ nb ++ " failed."
    end.
Proof.
  revert s. induction nbs as [|nb nbs IH]; intros s.
  - exists 0. simpl. rewrite app_nil_r. auto.
  - simpl. pose proof (run_notebook_commands nb s) as Hc.
    destruct (run_notebook nb s) as [s' [code|]] eqn:Hrun.
    + exists 1. simpl in *. split; [lia|]. split; [exact Hc|].
      unfold RunAll.run_notebook in Hrun. simpl in Hrun.
      destruct (subprocess_run _ _) as [rc w].
      destruct (rc =? 0)%Z eqn:Hrc; [discriminate|].
      inversion Hrun; subst. split; [apply Z.eqb_neq; exact Hrc|].
      exists nb. split; [reflexivity|]. split; [lia|].
      simpl. apply last_last.
    + destruct (IH s') as (k & Hk & Hcmd & Hres). exists (S k).
      split; [simpl; lia|]. split.
      * rewrite Hcmd. simpl in Hc. rewrite Hc, <- app_assoc. reflexivity.
      * destruct (snd (run_each nbs s')) as [code|]; [|simpl; lia].
        destruct Hres as (Hcode & nb' & Hnb & Hk1 & Hlast).
        split; [exact Hcode|]. exists nb'. split.
        -- replace (S k - 1) with (S (k - 1)) by lia. exact Hnb.
        -- split; [lia | exact Hlast].
Qed.

Local Abbreviation return_codes := (@return_codes world subprocess_run NOTEBOOK_DIR).

(** One notebook: its command is run on the machine, and the script goes
    on exactly when the command returns 0. *)
Lemma run_notebook_result (nb : string) (s : state world) (rc : Z) (w : world) :
  subprocess_run (command nb) (machine s) = (rc, w) ->
  exists s',
    run_notebook nb s = (s', if (rc =? 0)%Z then None else Some rc) /\
    machine s' = w /\
    commands s' = (commands s ++ [command nb])%list /\
    (rc <> 0%Z -> last (stdout s') "" = nl ++ "[ERROR] " ++ nb ++ " failed.").
Proof.
  intros Hrun. unfold RunAll.run_notebook. simpl machine. rewrite Hrun.
  destruct (rc =? 0)%Z eqn:Hrc; eexists; (split; [reflexivity|]);
    (split; [reflexivity|]); (split; [reflexivity|]); intros Hne.
  - apply Z.eqb_eq in Hrc. contradiction.
  - simpl. apply last_last.
Qed.

(** The loop against the return codes of the commands: it stops after the
    first command that does not return 0, with that return code, and goes
    through the whole list when every command returns 0. *)
Lemma run_each_return_codes (nbs : list string) (s : state world) :
  (forall k rc later,
      return_codes nbs (machine s) = (repeat 0%Z k ++ rc :: later)%list ->
      rc <> 0%Z ->
      snd (run_each nbs s) = Some rc /\
      commands (fst (run_each nbs s))
      = (commands s ++ map command (firstn (S k) nbs))%list /\
      exists nb, nth_error nbs k = Some nb /\
                 last (stdout (fst (run_each nbs s))) ""
                 = nl ++ "[ERROR] " ++ nb ++ " failed.") /\
  (return_codes nbs (machine s) = repeat 0%Z (length nbs) ->
   snd (run_each nbs s) = None /\
   commands (fst (run_each nbs s)) = (commands s ++ map command nbs)%list).
Proof.
  revert s. induction nbs as [|nb nbs IH]; intros s.
  - split.
    + intros k rc later Hcodes. destruct k; discriminate.
    + intros _. simpl. rewrite app_nil_r. auto.
  - cbn [RunAll.return_codes RunAll.run_each].
    destruct (subprocess_run (command nb) (machine s)) as [rc0 w] eqn:Hrun.
    destruct (@run_notebook_result nb s rc0 w Hrun) as (s' & Hnb & Hw & Hcmds & Hlast).
    rewrite Hnb. destruct (IH s') as (IHfail & IHok). rewrite Hw in IHfail, IHok.
    rewrite Hcmds in IHfail, IHok.
    destruct (rc0 =? 0)%Z eqn:Hrc0.
    + apply Z.eqb_eq in Hrc0. subst rc0. split.
      * intros k rc later Hcodes Hrc. destruct k as [|k]; simpl in Hcodes.
        -- inversion Hcodes. congruence.
        -- inversion Hcodes as [Hrest].
           destruct (IHfail k rc later Hrest Hrc) as (Hexit & Hcmd & nb' & Hnb' & Hl).
           split; [exact Hexit|]. split.
           ++ rewrite Hcmd, <- app_assoc. reflexivity.
           ++ exists nb'. split; [exact Hnb' | exact Hl].
      * intros Hcodes. simpl in Hcodes. inversion Hcodes as [Hrest].
        destruct (IHok Hrest) as (Hexit & Hcmd).
        split; [exact Hexit|]. rewrite Hcmd, <- app_assoc. reflexivity.
    + apply Z.eqb_neq in Hrc0. split.
      * intros k rc later Hcodes Hrc. destruct k as [|k]; simpl in Hcodes.
        -- inversion Hcodes. subst rc0. split; [reflexivity|].
           split; [simpl; rewrite Hcmds; reflexivity|].
           exists nb. split; [reflexivity | simpl; apply Hlast; exact Hrc].
        -- inversion Hcodes. congruence.
      * intros Hcodes. simpl in Hcodes. inversion Hcodes. congruence.
Qed.

(** X14: the script against the return codes of its commands.  If the
    first [k] commands return 0 and the next one returns [rc], not 0, the
    script runs these [k + 1] commands and no other, in the order of its
    list, calls [exit] with [rc], and the last line it prints names the
    notebook that failed.  If every command returns 0, it runs the
    commands of the whole list, ends with code 0, and the last line it
    prints is the success message. *)
Theorem main_stops_at_first_failure (s : state world) :
  (forall k rc later,
      return_codes notebooks (machine s) = (repeat 0%Z k ++ rc :: later)%list ->
      rc <> 0%Z ->
      snd (main s) = rc /\
      commands (fst (main s)) = (commands s ++ map command (firstn (S k) notebooks))%list /\
      exists nb, nth_error notebooks k = Some nb /\
                 last (stdout (fst (main s))) "" = nl ++ "[ERROR] " ++ nb ++ " failed.") /\
  (return_codes notebooks (machine s) = repeat 0%Z (length notebooks) ->
   snd (main s) = 0%Z /\
   commands (fst (main s)) = (commands s ++ map command notebooks)%list /\
   last (stdout (fst (main s))) "" = nl ++ "All notebooks completed successfully.").
Proof.
  destruct (run_each_return_codes notebooks s) as (Hfail & Hok).
  unfold RunAll.main. split.
  - intros k rc later Hcodes Hrc.
    destruct (Hfail k rc later Hcodes Hrc) as (Hexit & Hcmd & nb & Hnb & Hlast).
    destruct (run_each notebooks s) as [s' [code|]]; simpl in *; [|discriminate].
    inversion Hexit; subst code. split; [reflexivity|]. split; [exact Hcmd|].
    exists nb. split; [exact Hnb | exact Hlast].
  - intros Hcodes. destruct (Hok Hcodes) as (Hexit & Hcmd).
    destruct (run_each notebooks s) as [s' [code|]]; simpl in *; [discriminate|].
    split; [reflexivity|]. split; [exact Hcmd | apply last_last].
Qed.

Lemma app_inv_prefix (p a b : string) : p ++ a = p ++ b -> a = b.
Proof.
  induction p as [|c p IH]; simpl; intros H; [exact H|].
  inversion H. apply IH. assumption.
Qed.

Lemma command_injective (a b : string) : command a = command b -> a = b.
Proof.
  unfold RunAll.command. intros H. inversion H as [Hpath].
  apply app_inv_prefix in Hpath. inversion Hpath. reflexivity.
Qed.

(** X15: the list of the script has nine entries, not ten: the missing
    comma joins the last two names.  Whatever the machine does, the script
    never runs the notebook 10_market_edge.ipynb, and when the first eight
    notebooks succeed it asks for a notebook named
    09_portfolio_simulator.ipynb10_market_edge.ipynb. *)
Theorem tenth_notebook_is_never_run (s : state world) :
  length notebooks = 9 /\
  last notebooks "" = "09_portfolio_simulator.ipynb10_market_edge.ipynb" /\
  (~ In (command "10_market_edge.ipynb") (commands s) ->
   ~ In (command "10_market_edge.ipynb") (commands (fst (main s)))) /\
  (~ In (command "09_portfolio_simulator.ipynb") (commands s) ->
   ~ In (command "09_portfolio_simulator.ipynb") (commands (fst (main s)))).
Proof.
  split; [reflexivity|]. split; [reflexivity|].
  destruct (run_each_prefix notebooks s) as (k & _ & Hcmd & _).
  assert (Hmain : commands (fst (main s)) = commands (fst (run_each notebooks s))).
  { unfold RunAll.main. destruct (run_each notebooks s) as [s' [code|]]; reflexivity. }
  rewrite Hmain, Hcmd.
  assert (Hnot : forall nb, ~ In nb notebooks -> forall k',
             ~ In (command nb) (map command (firstn k' notebooks))).
  { intros nb Hnb k' Hin. apply in_map_iff in Hin. destruct Hin as (nb' & Heq & Hin').
    apply command_injective in Heq. subst nb'. apply Hnb.
    rewrite <- (firstn_skipn k' notebooks). apply in_or_app. left. exact Hin'. }
  split; intros Hs Hin; apply in_app_or in Hin; destruct Hin as [Hin|Hin];
    try (apply Hs; exact Hin);
    revert Hin; apply Hnot; unfold notebooks; simpl; intuition discriminate.
Qed.

End Runner.

(** A machine on which the first notebook runs and the second one fails
    with code 2: the script runs these two and exits with 2. *)
Lemma main_stops_at_first_failure_witness :
  let run := fun (cmd : list string) (w : nat) =>
               ((if (w =? 0)%nat then 0 else 2)%Z, S w) in
  let s := {| stdout := []; commands := []; machine := 0%nat |} in
  snd (main run "notebooks" s) = 2%Z /\
  commands (fst (main run "notebooks" s))
  = map (command "notebooks") ["01_eda.ipynb"; "02_features.ipynb"].
Proof.
  intros run s.
  destruct (proj1 (@main_stops_at_first_failure nat run "notebooks" s)
              1%nat 2%Z (repeat 2%Z 7))
    as (Hexit & Hcmd & _).
  - reflexivity.
  - discriminate.
  - split; [exact Hexit | exact Hcmd].
Defined.

Lemma tenth_notebook_is_never_run_witness :
  ~ In (command "notebooks" "10_market_edge.ipynb")
       (commands (fst (main (fun (_ : list string) (w : unit) => (0%Z, w)) "notebooks"
                            {| stdout := []; commands := []; machine := tt |}))).
Proof.
  apply (proj1 (proj2 (proj2 (@tenth_notebook_is_never_run unit (fun _ w => (0%Z, w)) "notebooks"
                                {| stdout := []; commands := []; machine := tt |})))).
  intros H. destruct H.
Defined.

End RunAllFacts.

(* ================================================================== *)
(** * src/visuals.py: the probability axis of the top picks *)

Module VisualsFacts.
Import Num Visuals.
Local Open Scope R_scope.

Lemma fold_min_Fin (l : list R) (a : R) :
  exists m,
    fold_left (fun m x => if ltb x m then x else m) (map Fin l) (Fin a) = Fin m /\
    In m (a :: l) /\ forall x, In x (a :: l) -> m <= x.
Proof.
  revert a. induction l as [|y l IH]; intros a.
  - exists a. simpl. split; [reflexivity|]. split; [tauto|]. intros x [->|[]]. lra.
  - simpl fold_left. unfold ltb at 1.
    destruct (Rlt_dec y a) as [Hlt|Hge].
    + destruct (IH y) as (m & Hm & Hin & Hle). exists m. split; [exact Hm|]. split.
      * destruct Hin as [Hin|Hin]; [right; left; exact Hin | right; right; exact Hin].
      * intros x [->|[->|Hx]].
        -- specialize (Hle y (or_introl eq_refl)). lra.
        -- apply Hle. left. reflexivity.
        -- apply Hle. right. exact Hx.
    + destruct (IH a) as (m & Hm & Hin & Hle). exists m. split; [exact Hm|]. split.
      * destruct Hin as [Hin|Hin]; [left; exact Hin | right; right; exact Hin].
      * intros x [->|[->|Hx]].
        -- apply Hle. left. reflexivity.
        -- specialize (Hle a (or_introl eq_refl)). lra.
        -- apply Hle. right. exact Hx.
Qed.

Lemma fold_max_Fin (l : list R) (a : R) :
  exists m,
    fold_left (fun m x => if ltb m x then x else m) (map Fin l) (Fin a) = Fin m /\
    In m (a :: l) /\ forall x, In x (a :: l) -> x <= m.
Proof.
  revert a. induction l as [|y l IH]; intros a.
  - exists a. simpl. split; [reflexivity|]. split; [tauto|]. intros x [->|[]]. lra.
  - simpl fold_left. unfold ltb at 1.
    destruct (Rlt_dec a y) as [Hlt|Hge].
    + destruct (IH y) as (m & Hm & Hin & Hle). exists m. split; [exact Hm|]. split.
      * destruct Hin as [Hin|Hin]; [right; left; exact Hin | right; right; exact Hin].
      * intros x [->|[->|Hx]].
        -- specialize (Hle y (or_introl eq_refl)). lra.
        -- apply Hle. left. reflexivity.
        -- apply Hle. right. exact Hx.
    + destruct (IH a) as (m & Hm & Hin & Hle). exists m. split; [exact Hm|]. split.
      * destruct Hin as [Hin|Hin]; [left; exact Hin | right; right; exact Hin].
      * intros x [->|[->|Hx]].
        -- apply Hle. left. reflexivity.
        -- specialize (Hle a (or_introl eq_refl)). lra.
        -- apply Hle. right. exact Hx.
Qed.

(** X16: with [dynamic_xlim], the probability axis of
    [plot_top_picks_barplot] stays within 0 and 1 and shows every bar: for
    probabilities between 0 and 1 the limits are finite, the lower one is
    at least 0 and not above any probability, the upper one at most 1 and
    not below any probability.  Without it the axis starts at 0.5, so a
    probability below 0.5 is left of the axis. *)
Theorem top_picks_xlim_shows_all (probs : list R) :
  probs <> [] ->
  (forall p, In p probs -> 0 <= p <= 1) ->
  (exists lo hi,
      top_picks_xlim (map Fin probs) true = (Fin lo, Fin hi) /\
      0 <= lo /\ hi <= 1 /\
      forall p, In p probs -> lo <= p <= hi) /\
  top_picks_xlim (map Fin probs) false = (Fin 0.5, Fin 1).
Proof.
  intros Hne Hrange. split; [|reflexivity].
  destruct probs as [|a l]; [congruence|].
  unfold top_picks_xlim, series_min, series_max.
  rewrite NumFacts.dropna_Fin. simpl map.
  destruct (fold_min_Fin l a) as (lo & Hlo & Hloin & Hlole).
  destruct (fold_max_Fin l a) as (hi & Hhi & Hhiin & Hhile).
  rewrite Hlo, Hhi.
  pose proof (Hrange lo Hloin) as Hlo01. pose proof (Hrange hi Hhiin) as Hhi01.
  unfold py_max, py_min, sub, add, opp, ltb.
  repeat match goal with
         | |- context [Rlt_dec ?x ?y] => destruct (Rlt_dec x y)
         end;
    eexists; eexists; (split; [reflexivity|]);
    (split; [lra|]); (split; [lra|]);
    intros p Hp; specialize (Hlole p Hp); specialize (Hhile p Hp);
    specialize (Hrange p Hp); lra.
Qed.

Lemma top_picks_xlim_shows_all_witness :
  exists lo hi,
    top_picks_xlim (map Fin [0.2; 0.9]) true = (Fin lo, Fin hi) /\
    0 <= lo /\ hi <= 1.
Proof.
  destruct (@top_picks_xlim_shows_all [0.2; 0.9]) as (Hdyn & _).
  - discriminate.
  - intros p Hp. simpl in Hp. decompose [or] Hp; subst; try contradiction; lra.
  - destruct Hdyn as (lo & hi & Hlim & Hlo & Hhi & _).
    exists lo, hi. split; [exact Hlim|]. split; [exact Hlo | exact Hhi].
Defined.

End VisualsFacts.

(* ================================================================== *)
(** * src/features.py: ranks within a race *)

Module RankFacts.
Import Num Pandas Features GroupByFacts.
Local Open Scope R_scope.

(** Missing values of the group do not count in a rank. *)
Lemma rank_in_dropna (ascending : bool) (g : list num) (v : num) :
  rank_in ascending g v = rank_in ascending (dropna g) v.
Proof.
  unfold rank_in. destruct (isna v); [reflexivity|].
  assert (Hf : forall p : num -> bool, p NaN = false ->
               filter p (dropna g) = filter p g).
  { intros p Hp. unfold dropna. induction g as [|a g IH]; [reflexivity|].
    simpl. destruct a; simpl; rewrite ?IH; try reflexivity.
    rewrite Hp. reflexivity. }
  rewrite !Hf; try reflexivity; destruct ascending, v; reflexivity.
Qed.

Lemma filter_cons (p : num -> bool) (a : num) (l : list num) :
  filter p (a :: l) = if p a then a :: filter p l else filter p l.
Proof. reflexivity. Qed.

Ltac step_counts x v w :=
  cbn [map]; rewrite !filter_cons; cbv beta;
  change (ltb (Fin x) (Fin v)) with (if Rlt_dec x v then true else false);
  change (ltb (Fin v) (Fin x)) with (if Rlt_dec v x then true else false);
  change (ltb (Fin x) (Fin w)) with (if Rlt_dec x w then true else false);
  change (Num.eqb (Fin x) (Fin v)) with (if Req_dec_T x v then true else false).

(** Below, level with and above a value: each value of the group is in one
    of the three. *)
Lemma rank_counts (obs : list R) (v : R) :
  (length (filter (fun w => ltb w (Fin v)) (map Fin obs))
   + length (filter (fun w => Num.eqb w (Fin v)) (map Fin obs))
   + length (filter (fun w => ltb (Fin v) w) (map Fin obs)) = length obs)%nat.
Proof.
  induction obs as [|x obs IH]; [reflexivity|].
  step_counts x v v.
  destruct (Rlt_dec x v), (Req_dec_T x v), (Rlt_dec v x); cbn [length]; try lia; lra.
Qed.

Lemma rank_ties (obs : list R) (v : R) :
  In v obs ->
  (1 <= length (filter (fun w => Num.eqb w (Fin v)) (map Fin obs)))%nat.
Proof.
  induction obs as [|x obs IH]; intros Hin; [destruct Hin|].
  step_counts x v v. destruct (Req_dec_T x v) as [Heq|Hne]; cbn [length]; [lia|].
  destruct Hin as [Hx|Hin]; [congruence | apply IH; exact Hin].
Qed.

Lemma rank_order (obs : list R) (v w : R) :
  v < w ->
  (length (filter (fun x => ltb x (Fin v)) (map Fin obs))
   + length (filter (fun x => Num.eqb x (Fin v)) (map Fin obs))
   <= length (filter (fun x => ltb x (Fin w)) (map Fin obs)))%nat.
Proof.
  intros Hvw. induction obs as [|x obs IH]; [simpl; lia|].
  step_counts x v w.
  destruct (Rlt_dec x v), (Req_dec_T x v), (Rlt_dec x w); cbn [length]; try lia; lra.
Qed.

Lemma rank_in_finite (ascending : bool) (g : list num) (obs : list R) (v : R) :
  dropna g = map Fin obs ->
  rank_in ascending g (Fin v)
  = Fin (INR (length (filter (fun w => if ascending then ltb w (Fin v) else ltb (Fin v) w)
                             (map Fin obs)))
         + (INR (length (filter (fun w => Num.eqb w (Fin v)) (map Fin obs))) + 1) / 2).
Proof.
  intros Hobs. rewrite rank_in_dropna, Hobs. reflexivity.
Qed.

Lemma groupby_rank_row (ascending : bool) (race_ids : list cell) (vals : list num)
    (i : nat) (race : cell) (v : num) :
  nth_error race_ids i = Some race ->
  cell_isna race = false ->
  nth_error vals i = Some v ->
  nth_error (groupby_rank cell_eqb ascending (map group_key race_ids) vals) i
  = Some (rank_in ascending (get_group cell_eqb race (map group_key race_ids) vals) v).
Proof.
  intros Hrace Hna Hv. unfold groupby_rank.
  rewrite nth_error_map.
  assert (Hc : nth_error (combine (map group_key race_ids) vals) i
               = Some (Some race, v)).
  { revert i vals Hrace Hv. induction race_ids as [|c l IH]; intros i vals Hrace Hv.
    - destruct i; discriminate.
    - destruct vals as [|b vals]; [destruct i; discriminate|].
      destruct i as [|i]; simpl in *.
      + inversion Hrace; subst c. inversion Hv; subst b.
        unfold group_key. rewrite Hna. reflexivity.
      + apply IH; assumption. }
  rewrite Hc. reflexivity.
Qed.



End RankFacts.

(* ================================================================== *)
(** * src/features.py: centred and standardised values of a race *)

Module CenterFacts.
Import Num Pandas Features Statistics NumFacts ZScoreFacts.
Local Open Scope R_scope.

(** A function of the values that keeps a missing value missing and maps
    the finite ones by [phi], on a group without infinite values. *)
Lemma dropna_map_finite (f : num -> num) (phi : R -> R) (g : list num) (obs : list R) :
  f NaN = NaN ->
  (forall o, f (Fin o) = Fin (phi o)) ->
  dropna g = map Fin obs ->
  dropna (map f g) = map Fin (map phi obs).
Proof.
  intros Hna Hfin. revert obs. induction g as [|a g IH]; intros obs Hobs.
  - destruct obs; [reflexivity | discriminate].
  - destruct a as [| | |x]; unfold dropna in *; cbn [map filter] in *.
    + rewrite Hna. simpl in *. apply IH. exact Hobs.
    + destruct obs; simpl in Hobs; discriminate.
    + destruct obs; simpl in Hobs; discriminate.
    + rewrite Hfin. simpl in *. destruct obs as [|o obs]; [discriminate|].
      inversion Hobs; subst. simpl. f_equal. apply IH. assumption.
Qed.

Lemma Rsum_shift (m : R) (l : list R) :
  Rsum (map (fun o => o - m) l) = Rsum l - INR (length l) * m.
Proof.
  induction l as [|x l IH]; [simpl; lra|].
  change (Rsum (x - m :: map (fun o => o - m) l) = Rsum (x :: l) - INR (S (length l)) * m).
  rewrite S_INR. simpl. rewrite IH. lra.
Qed.

Lemma Rsum_centred (obs : list R) :
  obs <> [] -> Rsum (map (fun o => o - Rmean obs) obs) = 0.
Proof.
  intros Hne. rewrite Rsum_shift. unfold Rmean.
  assert (0 < INR (length obs)).
  { apply lt_0_INR. destruct obs; [congruence | simpl; lia]. }
  field. lra.
Qed.



(** Once an infinite value is added, a sum is infinite or NaN. *)
Lemma fold_left_add_PInf (l : list num) (a : num) :
  a = PInf \/ a = NaN -> fold_left add l a = PInf \/ fold_left add l a = NaN.
Proof.
  revert a. induction l as [|x l IH]; intros a Ha; [exact Ha|].
  simpl. apply IH. destruct Ha as [->| ->]; destruct x; simpl; auto.
Qed.

Lemma np_sum_PInf (l : list num) (a : num) :
  In PInf l -> fold_left add l a = PInf \/ fold_left add l a = NaN.
Proof.
  revert a. induction l as [|x l IH]; intros a Hin; [destruct Hin|].
  simpl. destruct Hin as [->|Hin]; [|apply IH; exact Hin].
  apply fold_left_add_PInf. destruct a; simpl; auto.
Qed.

Lemma fold_left_add_NaN (l : list num) : fold_left add l NaN = NaN.
Proof. induction l as [|x l IH]; [reflexivity | exact IH]. Qed.

Lemma np_sum_NaN (l : list num) (a : num) : In NaN l -> fold_left add l a = NaN.
Proof.
  revert a. induction l as [|x l IH]; intros a Hin; [destruct Hin|].
  simpl. destruct Hin as [->|Hin]; [|apply IH; exact Hin].
  replace (add a NaN) with NaN by (destruct a; reflexivity).
  apply fold_left_add_NaN.
Qed.

Lemma std_PInf (g : list num) : In PInf g -> std g = NaN.
Proof.
  intros Hin. unfold std, var.
  destruct (count g <=? 1)%nat; [reflexivity|].
  assert (Hd : In PInf (dropna g)) by (apply filter_In; split; [exact Hin | reflexivity]).
  assert (Havg : mean g = PInf \/ mean g = NaN).
  { unfold mean. destruct (count g) as [|n] eqn:Hc; [right; reflexivity|].
    unfold nansum, np_sum.
    destruct (@np_sum_PInf (dropna g) (Fin 0) Hd) as [-> | ->];
      [left | right; reflexivity].
    unfold div. destruct (Rlt_dec (INR (S n)) 0) as [Hneg|_]; [|reflexivity].
    pose proof (pos_INR (S n)). lra. }
  unfold np_sum. rewrite np_sum_NaN; [reflexivity|].
  apply in_map_iff. exists PInf. split; [|exact Hd].
  destruct Havg as [-> | ->]; reflexivity.
Qed.

Lemma one_over_zero : div (Fin 1) (Fin 0) = PInf.
Proof.
  unfold div. destruct (Req_dec_T 0 0) as [_|Hne]; [|congruence].
  unfold Rsign. destruct (Rlt_dec 1 0); [lra|]. destruct (Rlt_dec 0 1); [reflexivity | lra].
Qed.

End CenterFacts.

(* ================================================================== *)
(** * src/features.py: parsing and bucketing distances *)

Module DistanceFacts.
Import Num Pandas Features.
Local Open Scope string_scope.

(** The decimal numeral of a natural number, as Python prints it. *)
Local Abbreviation numeral n := (NilZero.string_of_uint (Nat.to_uint n)).

Lemma append_empty (s : string) : s ++ "" = s.
Proof. induction s as [|c s IH]; simpl; [reflexivity | rewrite IH; reflexivity]. Qed.

Lemma span_digits_uint (d : Decimal.uint) (rest : string) :
  (forall c r, rest = String c r -> is_digit c = false) ->
  span_digits (NilEmpty.string_of_uint d ++ rest) = (NilEmpty.string_of_uint d, rest).
Proof.
  intros Hrest. induction d; cbn [NilEmpty.string_of_uint append];
    try (cbn [span_digits]; rewrite IHd; reflexivity).
  destruct rest as [|c r]; [reflexivity|].
  cbn [span_digits]. rewrite (Hrest c r eq_refl). reflexivity.
Qed.

Lemma span_digits_numeral (d : Decimal.uint) (rest : string) :
  (forall c r, rest = String c r -> is_digit c = false) ->
  span_digits (NilZero.string_of_uint d ++ rest) = (NilZero.string_of_uint d, rest).
Proof.
  intros Hrest. destruct d; try apply (span_digits_uint _ Hrest).
  cbn [NilZero.string_of_uint append span_digits].
  change (is_digit "0") with true. cbv iota.
  pose proof (span_digits_uint Decimal.Nil Hrest) as H.
  cbn [NilEmpty.string_of_uint append] in H. rewrite H. reflexivity.
Qed.

Lemma numeral_starts_with_digit (d : Decimal.uint) :
  exists c s, NilZero.string_of_uint d = String c s /\ is_digit c = true.
Proof. destruct d; eexists; eexists; split; reflexivity. Qed.

Lemma digits_value_uint (d : Decimal.uint) (acc : N) :
  digits_value (NilEmpty.string_of_uint d) acc
  = N.of_nat (Nat.of_uint_acc d (N.to_nat acc)).
Proof.
  revert acc.
  induction d; intros acc; cbn [NilEmpty.string_of_uint digits_value Nat.of_uint_acc];
    [symmetry; apply Nnat.N2Nat.id | ..];
    rewrite IHd; do 2 f_equal; rewrite Nat.tail_mul_spec;
    rewrite Nnat.N2Nat.inj_add, Nnat.N2Nat.inj_mul; simpl N_of_ascii; simpl N.sub;
    change (N.to_nat 10) with 10%nat; simpl N.to_nat; lia.
Qed.

Lemma digits_value_numeral (n : nat) :
  digits_value (numeral n) 0 = N.of_nat n.
Proof.
  assert (H : forall d, digits_value (NilZero.string_of_uint d) 0
                        = N.of_nat (Nat.of_uint d)).
  { intros d. destruct d; try apply (digits_value_uint _ 0%N). reflexivity. }
  rewrite H, DecimalNat.Unsigned.of_to. reflexivity.
Qed.

Lemma str_extract_at_digit (c : ascii) (s : string) :
  is_digit c = true ->
  str_extract (String c s)
  = let (d1, r1) := span_digits (String c s) in
    match r1 with
    | String "."%char r2 => Some (d1 ++ "." ++ fst (span_digits r2))
    | _ => Some d1
    end.
Proof. intros Hc. cbn [str_extract]. rewrite Hc. reflexivity. Qed.

Lemma str_extract_skip (pre s : string) :
  (forall c, In c (list_ascii_of_string pre) -> is_digit c = false) ->
  str_extract (pre ++ s) = str_extract s.
Proof.
  induction pre as [|c pre IH]; intros Hpre; [reflexivity|].
  cbn [append str_extract]. rewrite (Hpre c) by (left; reflexivity).
  apply IH. intros c' Hc'. apply Hpre. right. exact Hc'.
Qed.

Lemma str_extract_no_digit (s : string) :
  (forall c, In c (list_ascii_of_string s) -> is_digit c = false) ->
  str_extract s = None.
Proof.
  induction s as [|c s IH]; intros Hs; [reflexivity|].
  cbn [str_extract]. rewrite (Hs c) by (left; reflexivity).
  apply IH. intros c' Hc'. apply Hs. right. exact Hc'.
Qed.

Section Distance.
Variable repr_float : R -> string.

(** X20: how [add_track_distance_features] reads a distance written as
    ASCII text.  A whole number (below 2^53, so that a float holds it),
    after any text without digits and before any text that starts with
    neither a digit nor a dot, is read as that number: what follows the
    first number is ignored, further digits included.  A text without any
    digit is read as missing. *)
Theorem distance_text_is_read_as_its_number (n : nat) (pre rest : string) :
  (Z.of_nat n <= 2 ^ 53)%Z ->
  (forall c, In c (list_ascii_of_string pre) -> is_digit c = false) ->
  (forall c r, rest = String c r -> is_digit c = false /\ c <> "."%char) ->
  Distance_numeric repr_float (CStr (pre ++ numeral n ++ rest)) = Fin (INR n) /\
  Distance_numeric repr_float (CStr pre) = NaN.
Proof.
  intros _ Hpre Hrest. split.
  - unfold Distance_numeric, astype_str.
    assert (Hextract : str_extract (pre ++ numeral n ++ rest) = Some (numeral n)).
    { rewrite (str_extract_skip _ _ Hpre).
      destruct (numeral_starts_with_digit (Nat.to_uint n)) as (c & s & Hcs & Hc).
      assert (Hspan : span_digits (numeral n ++ rest) = (numeral n, rest)).
      { apply span_digits_numeral. intros c' r Hr. apply (Hrest c' r Hr). }
      revert Hspan. rewrite Hcs. cbn [append]. intros Hspan.
      rewrite (@str_extract_at_digit c (s ++ rest) Hc), Hspan.
      destruct rest as [|c' r]; [reflexivity|].
      destruct (Hrest c' r eq_refl) as (_ & Hdot).
      destruct (Ascii.ascii_dec c' ".") as [Heq|Hne]; [contradiction|].
      destruct c' as [[] [] [] [] [] [] [] []]; try reflexivity. congruence. }
    rewrite Hextract. unfold to_numeric.
    assert (Hspan : span_digits (numeral n) = (numeral n, "")).
    { pose proof (@span_digits_numeral (Nat.to_uint n) "") as H.
      rewrite append_empty in H. apply H. intros c r Hr. discriminate. }
    rewrite Hspan.
    destruct (numeral_starts_with_digit (Nat.to_uint n)) as (c & s & Hcs & _).
    rewrite Hcs at 1. f_equal. unfold decimal_value.
    rewrite digits_value_numeral. cbn [digits_value String.length pow].
    rewrite nat_N_Z, <- INR_IZR_INZ. simpl. lra.
  - unfold Distance_numeric, astype_str. rewrite (str_extract_no_digit _ Hpre).
    reflexivity.
Qed.

End Distance.

(** One mile and four furlongs are read as 1. *)
Lemma distance_text_is_read_as_its_number_witness :
  Distance_numeric (fun _ => EmptyString) (CStr "about 1m4f") = Fin (INR 1) /\
  Distance_numeric (fun _ => EmptyString) (CStr "about ") = NaN.
Proof.
  apply (@distance_text_is_read_as_its_number (fun _ => EmptyString) 1 "about " "m4f").
  - apply Z.leb_le. reflexivity.
  - intros c Hc. simpl in Hc. decompose [or] Hc; subst; try reflexivity. contradiction.
  - intros c r Hr. inversion Hr. split; [reflexivity | discriminate].
Defined.

(** X21: the distance buckets.  Every positive parsed distance gets one of
    the six labels, and a longer distance never gets an earlier label; a
    distance of 0, a negative one and a missing one get no bucket. *)
Theorem every_positive_distance_has_a_bucket (d : R) :
  ((0 < d)%R ->
   exists i label,
     Distance_Bucket (Fin d) = Some label /\
     nth_error Distance_labels i = Some label /\
     forall d' j label',
       (d <= d')%R ->
       Distance_Bucket (Fin d') = Some label' ->
       nth_error Distance_labels j = Some label' ->
       In j (seq 0 6) ->
       i <= j) /\
  ((d <= 0)%R -> Distance_Bucket (Fin d) = None) /\
  Distance_Bucket NaN = None.
Proof.
  split; [|split; [|reflexivity]].
  - intros Hd.
    assert (Hcases : (d <= 1200 \/ 1200 < d <= 1600 \/ 1600 < d <= 2000 \/
                      2000 < d <= 2400 \/ 2400 < d <= 3000 \/ 3000 < d)%R) by lra.
    assert (Hb : forall x : R,
               ((0 < x <= 1200)%R -> Distance_Bucket (Fin x) = Some "Sprint") /\
               ((1200 < x <= 1600)%R -> Distance_Bucket (Fin x) = Some "Mile") /\
               ((1600 < x <= 2000)%R -> Distance_Bucket (Fin x) = Some "Intermediate") /\
               ((2000 < x <= 2400)%R -> Distance_Bucket (Fin x) = Some "Classic") /\
               ((2400 < x <= 3000)%R -> Distance_Bucket (Fin x) = Some "Long") /\
               ((3000 < x)%R -> Distance_Bucket (Fin x) = Some "Marathon")).
    { intros x. repeat split; intros Hx;
        try (apply BucketFacts.Distance_Bucket_marathon; exact Hx);
        eapply BucketFacts.Distance_Bucket_intervals; try exact Hx; simpl; tauto. }
    assert (Hlater : forall i label, 
               Distance_Bucket (Fin d) = Some label ->
               nth_error Distance_labels i = Some label ->
               In i (seq 0 6) ->
               forall d' j label', (d <= d')%R ->
                 Distance_Bucket (Fin d') = Some label' ->
                 nth_error Distance_labels j = Some label' ->
                 In j (seq 0 6) -> i <= j).
    { intros i label Hl Hi Hini d' j label' Hdd Hl' Hj Hinj.
      assert (Hcases' : (d' <= 1200 \/ 1200 < d' <= 1600 \/ 1600 < d' <= 2000 \/
                      2000 < d' <= 2400 \/ 2400 < d' <= 3000 \/ 3000 < d')%R) by lra.
      destruct (Hb d) as (B1 & B2 & B3 & B4 & B5 & B6).
      destruct (Hb d') as (B1' & B2' & B3' & B4' & B5' & B6').
      simpl in Hini, Hinj.
      decompose [or] Hcases; decompose [or] Hcases';
        try (exfalso; lra);
        repeat match goal with
               | H : (?a -> Distance_Bucket _ = _) |- _ =>
                   first [ let H' := fresh in assert (H' : a) by lra; specialize (H H')
                         | clear H ]
               end;
        repeat match goal with
               | H1 : Distance_Bucket ?x = Some ?a, H2 : Distance_Bucket ?x = Some ?b |- _ =>
                   rewrite H1 in H2; inversion H2; subst; clear H2
               end;
        decompose [or] Hini; decompose [or] Hinj; subst; try contradiction;
        try discriminate; lia. }
    destruct (Hb d) as (B1 & B2 & B3 & B4 & B5 & B6).
    decompose [or] Hcases.
    + exists 0, "Sprint". split; [apply B1; lra|]. split; [reflexivity|].
      apply (Hlater 0 "Sprint"); [apply B1; lra | reflexivity | simpl; tauto].
    + exists 1, "Mile". split; [apply B2; lra|]. split; [reflexivity|].
      apply (Hlater 1 "Mile"); [apply B2; lra | reflexivity | simpl; tauto].
    + exists 2, "Intermediate". split; [apply B3; lra|]. split; [reflexivity|].
      apply (Hlater 2 "Intermediate"); [apply B3; lra | reflexivity | simpl; tauto].
    + exists 3, "Classic". split; [apply B4; lra|]. split; [reflexivity|].
      apply (Hlater 3 "Classic"); [apply B4; lra | reflexivity | simpl; tauto].
    + exists 4, "Long". split; [apply B5; lra|]. split; [reflexivity|].
      apply (Hlater 4 "Long"); [apply B5; lra | reflexivity | simpl; tauto].
    + exists 5, "Marathon". split; [apply B6; lra|]. split; [reflexivity|].
      apply (Hlater 5 "Marathon"); [apply B6; lra | reflexivity | simpl; tauto].
  - intros Hd.
    unfold Distance_Bucket, Distance_bins, Distance_labels, cut, searchsorted_left.
    simpl. BucketFacts.decide_reals; reflexivity.
Qed.

Lemma every_positive_distance_has_a_bucket_witness :
  exists i label,
    Distance_Bucket (Fin 1000) = Some label /\
    nth_error Distance_labels i = Some label.
Proof.
  destruct (every_positive_distance_has_a_bucket 1000) as (H & _).
  destruct H as (i & label & Hl & Hi & _); [lra|].
  exists i, label. split; assumption.
Defined.

End DistanceFacts.

(* ================================================================== *)
(** * src/features.py: when the pipeline goes through *)

Module FrameFacts.
Import Num Pandas Features Frames GroupByFacts PipelineFacts.
Local Open Scope string_scope.

Lemma bind_ret (A B : Type) (a : A) (k : A -> result B) : bind (inr a) k = k a.
Proof. reflexivity. Qed.

Lemma mapM_length (A B : Type) (f : A -> result B) (l : list A) (out : list B) :
  mapM f l = inr out -> length out = length l.
Proof.
  revert out. induction l as [|a l IH]; intros out H; simpl in H.
  - inversion H. reflexivity.
  - destruct (f a) as [e|b]; [discriminate|]. simpl in H.
    destruct (mapM f l) as [e|bs]; [discriminate|]. simpl in H.
    inversion H. simpl. rewrite (IH bs eq_refl). reflexivity.
Qed.

(** A column without text can be computed with. *)
Lemma as_nums_ok (col : list cell) :
  is_text col = false -> exists x, as_nums col = inr x /\ length x = length col.
Proof.
  intros Htext.
  assert (H : exists x, as_nums col = inr x).
  { unfold as_nums. induction col as [|c col IH]; [exists []; reflexivity|].
    simpl in Htext. apply orb_false_iff in Htext. destruct Htext as (Hc & Hcol).
    destruct (IH Hcol) as (x & Hx). simpl. rewrite Hx.
    destruct c; [eexists; reflexivity | eexists; reflexivity | discriminate]. }
  destruct H as (x & Hx). exists x. split; [exact Hx|].
  exact (mapM_length _ _ Hx).
Qed.

Lemma getitem_setitem_same (df : DataFrame) (name : string) (col : list cell) :
  getitem (setitem df name col) name = inr col.
Proof.
  unfold getitem, setitem. simpl. rewrite lookup_assign, String.eqb_refl. reflexivity.
Qed.

Lemma getitem_setitem_other (df : DataFrame) (name c : string) (col : list cell) :
  String.eqb name c = false ->
  getitem (setitem df name col) c = getitem df c.
Proof.
  intros Hne. unfold getitem, setitem. simpl. rewrite lookup_assign, Hne. reflexivity.
Qed.

Lemma well_formed_setitem (df : DataFrame) (name : string) (col : list cell) :
  well_formed df -> length col = length (index df) ->
  well_formed (setitem df name col).
Proof.
  unfold well_formed, setitem. simpl. intros Hwf Hlen.
  induction (columns df) as [|[n c] cols IH]; simpl.
  - constructor; [exact Hlen | constructor].
  - inversion Hwf; subst. destruct (String.eqb n name); constructor; auto.
Qed.

Lemma well_formed_lookup (df : DataFrame) (name : string) (col : list cell) :
  well_formed df -> lookup name (columns df) = Some col ->
  length col = length (index df).
Proof.
  unfold well_formed. intros Hwf.
  induction (columns df) as [|[n c] cols IH]; simpl; [discriminate|].
  inversion Hwf; subst. destruct (String.eqb n name).
  - intros H; inversion H; subst. assumption.
  - apply IH. assumption.
Qed.

Section Extends.
Variable names : list string.

Lemma extends_index (df df' : DataFrame) : extends names df df' -> index df' = index df.
Proof. induction 1; [reflexivity | assumption]. Qed.

Lemma extends_well_formed (df df' : DataFrame) :
  extends names df df' -> well_formed df -> well_formed df'.
Proof.
  induction 1 as [|df' name col Hext IH Hin Hlen]; intros Hwf; [exact Hwf|].
  apply well_formed_setitem; [apply IH; exact Hwf|].
  rewrite (extends_index Hext). exact Hlen.
Qed.

(** The columns outside of [names] are left as they were. *)
Lemma extends_lookup (df df' : DataFrame) (c : string) :
  extends names df df' -> ~ In c names ->
  lookup c (columns df') = lookup c (columns df).
Proof.
  induction 1 as [|df' name col Hext IH Hin Hlen]; intros Hc; [reflexivity|].
  unfold setitem. simpl. rewrite lookup_assign.
  destruct (String.eqb name c) eqn:Heq.
  - apply String.eqb_eq in Heq. subst. contradiction.
  - apply IH. exact Hc.
Qed.

Lemma extends_has_column (df df' : DataFrame) (c : string) :
  extends names df df' -> has_column df c = true -> has_column df' c = true.
Proof.
  induction 1 as [|df' name col Hext IH Hin Hlen]; intros Hc; [exact Hc|].
  rewrite has_column_setitem, IH by exact Hc. apply orb_true_r.
Qed.

Lemma extends_trans (df1 df2 df3 : DataFrame) :
  extends names df1 df2 -> extends names df2 df3 -> extends names df1 df3.
Proof.
  intros H12 H23. induction H23 as [|df' name col Hext IH Hin Hlen]; [exact H12|].
  apply extends_setitem; [exact IH | exact Hin|].
  rewrite <- (extends_index H12). exact Hlen.
Qed.

End Extends.

Lemma extends_ready (df df' : DataFrame) :
  extends produced df df' -> ready df -> ready df'.
Proof.
  intros Hext (Hwf & Hrace & Hhorse & Hnum & Hpast).
  assert (Hsame : forall c, In c ("Race_ID" :: "Horse" :: "PastWins" :: numeric_inputs) ->
                            lookup c (columns df') = lookup c (columns df)).
  { intros c Hc. apply (@extends_lookup _ _ _ c Hext).
    simpl in Hc. decompose [or] Hc; subst; try contradiction;
      (intros Hin; simpl in Hin; decompose [or] Hin; try discriminate; contradiction). }
  split; [exact (extends_well_formed Hext Hwf)|].
  unfold has_column, is_numeric in *.
  split; [rewrite Hsame by (simpl; tauto); exact Hrace|].
  split; [rewrite Hsame by (simpl; tauto); exact Hhorse|].
  split.
  - intros c Hc. rewrite Hsame by (simpl; tauto). apply Hnum. exact Hc.
  - rewrite !Hsame by (simpl; tauto). exact Hpast.
Qed.

Lemma numeric_getitem (df : DataFrame) (c : string) :
  well_formed df -> is_numeric df c = true ->
  exists col x, getitem df c = inr col /\ as_nums col = inr x /\
                length x = length (index df).
Proof.
  intros Hwf Hnum. unfold is_numeric in Hnum. unfold getitem.
  destruct (lookup c (columns df)) as [col|] eqn:Hcol; [|discriminate].
  apply negb_true_iff in Hnum. destruct (as_nums_ok col Hnum) as (x & Hx & Hlen).
  exists col, x. split; [reflexivity|]. split; [exact Hx|].
  rewrite Hlen. exact (well_formed_lookup _ Hwf Hcol).
Qed.

Lemma has_getitem (df : DataFrame) (c : string) :
  well_formed df -> has_column df c = true ->
  exists col, getitem df c = inr col /\ length col = length (index df).
Proof.
  intros Hwf Hc. unfold has_column in Hc. unfold getitem.
  destruct (lookup c (columns df)) as [col|] eqn:Hcol; [|discriminate].
  exists col. split; [reflexivity | exact (well_formed_lookup _ Hwf Hcol)].
Qed.

Lemma as_nums_floats (l : list num) : as_nums (floats l) = inr l.
Proof.
  unfold as_nums, floats. induction l as [|x l IH]; [reflexivity|].
  simpl. rewrite IH. reflexivity.
Qed.

(** Between two columns of numbers [mul_columns] is the product of the
    numbers. *)
Lemma mul_columns_numeric (a b : list cell) (x y : list num) :
  as_nums a = inr x -> as_nums b = inr y ->
  mul_columns a b = inr (floats (map2 mul x y)).
Proof.
  intros Ha Hb.
  assert (Htext : forall (c : list cell) (z : list num), as_nums c = inr z -> is_text c = false).
  { unfold as_nums. induction c as [|h c IH]; intros z Hz; [reflexivity|].
    simpl in Hz. destruct h as [i|f|t]; simpl in Hz; try discriminate;
      (destruct (mapM as_num c) as [e|z'] eqn:Hc; [discriminate|]);
      simpl; exact (IH z' eq_refl). }
  unfold mul_columns. rewrite (Htext a x Ha), (Htext b y Hb), Ha, Hb. reflexivity.
Qed.

(** Text times integers is repetition, and a missing rating stays
    missing. *)
Lemma mul_columns_text :
  mul_columns [CStr "ab"; NA; CStr "c"] [CInt 2; CInt 3; CInt 0]
  = inr [CStr "abab"; NA; CStr ""].
Proof. reflexivity. Qed.

Lemma length_map2 (A B C : Type) (op : A -> B -> C) (a : list A) (b : list B) (n : nat) :
  length a = n -> length b = n -> length (map2 op a b) = n.
Proof.
  intros Ha Hb. unfold map2. rewrite length_map, length_combine, Ha, Hb. apply Nat.min_id.
Qed.

Lemma length_floats (l : list num) : length (floats l) = length l.
Proof. apply length_map. Qed.

Lemma transform_center_ok (k : list cell) (x : list num) (n : nat) :
  length k = n -> length x = n ->
  exists out,
    transform cell_eqb (fun g => ret (center g)) NaN (map group_key k) x = inr out /\
    length out = n.
Proof.
  intros Hk Hx.
  destruct (@transform_pointwise cell num num cell_eqb
              (fun g v => sub v (mean g)) NaN (map group_key k) x)
    as (out & Hout & Hlen & _).
  - rewrite length_map. congruence.
  - intros c Hc. apply in_map_iff in Hc. destruct Hc as (c' & Hc' & _).
    exact (@group_key_refl _ _ Hc').
  - exists out. split; [exact Hout|]. rewrite Hlen, length_map. exact Hk.
Qed.

Lemma transform_zscore_ok (k : list cell) (x : list num) (n : nat) :
  length k = n -> length x = n ->
  exists out,
    transform cell_eqb (fun g => ret (zscore g)) NaN (map group_key k) x = inr out /\
    length out = n.
Proof.
  intros Hk Hx.
  destruct (@transform_pointwise cell num num cell_eqb
              (fun g v => div (sub v (mean g)) (add (std g) eps)) NaN
              (map group_key k) x)
    as (out & Hout & Hlen & _).
  - rewrite length_map. congruence.
  - intros c Hc. apply in_map_iff in Hc. destruct Hc as (c' & Hc' & _).
    exact (@group_key_refl _ _ Hc').
  - exists out. split; [exact Hout|]. rewrite Hlen, length_map. exact Hk.
Qed.

Lemma length_groupby_rank (ascending : bool) (k : list cell) (x : list num) (n : nat) :
  length k = n -> length x = n ->
  length (groupby_rank cell_eqb ascending (map group_key k) x) = n.
Proof.
  intros Hk Hx. unfold groupby_rank.
  rewrite length_map, length_combine, length_map, Hk, Hx. apply Nat.min_id.
Qed.

Lemma length_transform_agg (A B : Type) (g : list A -> B) (na : B)
    (k : list cell) (x : list A) (n : nat) :
  length k = n ->
  length (transform_agg cell_eqb g na (map group_key k) x) = n.
Proof. intros Hk. unfold transform_agg. rewrite !length_map. exact Hk. Qed.

(** Reads the columns a step needs off a table that is [ready]. *)
Ltac numeric_column df name col x :=
  let Hget := fresh "Hget" in let Hnum := fresh "Hnum" in let Hlen := fresh "Hlen" in
  match goal with
  | Hwf : well_formed df, Hn : forall c, In c numeric_inputs -> is_numeric df c = true |- _ =>
      destruct (@numeric_getitem df name Hwf (Hn name ltac:(simpl; tauto)))
        as (col & x & Hget & Hnum & Hlen)
  end.

Ltac run_step :=
  repeat first
    [ rewrite getitem_setitem_same
    | rewrite getitem_setitem_other by reflexivity
    | rewrite as_nums_floats
    | match goal with
      | H1 : as_nums ?a = inr _, H2 : as_nums ?b = inr _ |- context [mul_columns ?a ?b] =>
          rewrite (@mul_columns_numeric a b _ _ H1 H2)
      | H : getitem _ _ = inr _ |- _ => rewrite H
      | H : as_nums _ = inr _ |- _ => rewrite H
      | H : transform _ _ _ _ _ = inr _ |- _ => rewrite H
      end
    | rewrite bind_ret
    | progress cbv zeta ].

Ltac lengths :=
  repeat first
    [ assumption
    | rewrite length_floats
    | apply length_groupby_rank
    | apply length_transform_agg
    | apply length_map2
    | rewrite length_map ].

Ltac written :=
  let c := fresh "c" in let Hc := fresh "Hc" in
  intros c Hc; simpl in Hc; decompose [or] Hc; subst; try contradiction;
  rewrite ?has_column_setitem; reflexivity.

Ltac extend_by :=
  repeat first
    [ apply extends_refl
    | apply extends_setitem; [ | simpl; tauto | lengths ] ].

Lemma add_race_relative_features_ok (df : DataFrame) :
  ready df ->
  exists df', add_race_relative_features df = inr df' /\ extends produced df df' /\
    forall c, In c ["rel_Speed_PreviousRun"; "rank_Speed_PreviousRun"; "z_Speed_PreviousRun"; "Field_Size"] -> has_column df' c = true.
Proof.
  intros (Hwf & Hrace & Hhorse & Hn & Hpast).
  destruct (has_getitem _ Hwf Hrace) as (k & Hk & Hklen).
  destruct (has_getitem _ Hwf Hhorse) as (h & Hh & Hhlen).
  numeric_column df "Speed_PreviousRun" s sn.
  destruct (transform_center_ok k sn Hklen Hlen) as (rel & Hrel & Hrellen).
  destruct (transform_zscore_ok k sn Hklen Hlen) as (z & Hz & Hzlen).
  unfold add_race_relative_features, z_Speed_PreviousRun, groupby_col. run_step.
  eexists. split; [reflexivity|]. split; [extend_by | written].
Qed.

Lemma add_interaction_features_ok (df : DataFrame) :
  ready df ->
  exists df', add_interaction_features df = inr df' /\ extends produced df df' /\
    forall c, In c ["JockeyTrainerCombo"; "SpeedTrainerInt"] -> has_column df' c = true.
Proof.
  intros (Hwf & Hrace & Hhorse & Hn & Hpast).
  numeric_column df "JockeyRating" j jn.
  numeric_column df "TrainerRating" t tn.
  numeric_column df "Speed_PreviousRun" s sn.
  unfold add_interaction_features. run_step.
  eexists. split; [reflexivity|]. split; [extend_by | written].
Qed.

Lemma add_form_features_ok (df : DataFrame) :
  ready df ->
  exists df', add_form_features df = inr df' /\ extends produced df df' /\
    forall c, In c ["RecentRun"] -> has_column df' c = true.
Proof.
  intros (Hwf & Hrace & Hhorse & Hn & Hpast).
  numeric_column df "daysSinceLastRun" d dn.
  unfold add_form_features. run_step.
  rewrite has_column_setitem.
  change (String.eqb "RecentRun" "PastWins") with false. cbn [orb].
  destruct (has_column df "PastWins") eqn:Hp.
  - destruct (numeric_getitem _ Hwf (Hpast eq_refl)) as (p & pn & Hgetp & Hnump & Hlenp).
    run_step. eexists. split; [reflexivity|]. split; [extend_by | written].
  - eexists. split; [reflexivity|]. split; [extend_by | written].
Qed.

Lemma add_market_features_ok (df : DataFrame) :
  ready df ->
  exists df', add_market_features df = inr df' /\ extends produced df df' /\
    forall c, In c ["log_MarketOdds"; "MarketRank"; "Market_Prob"; "Market_Prob_Z"] -> has_column df' c = true.
Proof.
  intros (Hwf & Hrace & Hhorse & Hn & Hpast).
  destruct (has_getitem _ Hwf Hrace) as (k & Hk & Hklen).
  numeric_column df "Market_Odds" o on.
  destruct (@transform_zscore_ok k (map (div (Fin 1)) on) _ Hklen) as (z & Hz & Hzlen);
    [rewrite length_map; exact Hlen|].
  unfold add_market_features, groupby_col. run_step.
  eexists. split; [reflexivity|]. split; [extend_by | written].
Qed.

Lemma add_form_aggregates_ok (df : DataFrame) :
  ready df ->
  exists df', add_form_aggregates df = inr df' /\ extends produced df df' /\
    forall c, In c ["SpeedAvg2"; "OddsAvg2"] -> has_column df' c = true.
Proof.
  intros (Hwf & Hrace & Hhorse & Hn & Hpast).
  numeric_column df "Speed_PreviousRun" s1 s1n.
  numeric_column df "Speed_2ndPreviousRun" s2 s2n.
  numeric_column df "MarketOdds_PreviousRun" o1 o1n.
  numeric_column df "MarketOdds_2ndPreviousRun" o2 o2n.
  unfold add_form_aggregates, row_mean2. run_step.
  eexists. split; [reflexivity|]. split; [extend_by | written].
Qed.

Lemma add_race_context_features_ok (df : DataFrame) :
  ready df ->
  exists df', add_race_context_features df = inr df' /\ extends produced df df' /\
    forall c, In c ["RaceMeanOdds"; "RaceStdOdds"; "OddsToMeanRatio"] -> has_column df' c = true.
Proof.
  intros (Hwf & Hrace & Hhorse & Hn & Hpast).
  destruct (has_getitem _ Hwf Hrace) as (k & Hk & Hklen).
  numeric_column df "Market_Odds" o on.
  unfold add_race_context_features, groupby_col. run_step.
  eexists. split; [reflexivity|]. split; [extend_by | written].
Qed.

Lemma add_advanced_interactions_ok (df : DataFrame) :
  ready df ->
  exists df', add_advanced_interactions df = inr df' /\ extends produced df df' /\
    forall c, In c ["TrainerFormCombo"; "TrainerRecencyCombo"] -> has_column df' c = true.
Proof.
  intros (Hwf & Hrace & Hhorse & Hn & Hpast).
  numeric_column df "TrainerRating" t tn.
  numeric_column df "Speed_PreviousRun" s sn.
  numeric_column df "daysSinceLastRun" d dn.
  unfold add_advanced_interactions. run_step.
  eexists. split; [reflexivity|]. split; [extend_by | written].
Qed.

Lemma length_cumcount (K : Type) (K_eqb : K -> K -> bool) (keys : list (option K)) :
  length (cumcount K_eqb keys) = length keys.
Proof. unfold cumcount. rewrite length_map, length_seq. reflexivity. Qed.

Section Distance.
Variable repr_float : R -> string.

(** The last step reads nothing it has not checked for. *)
Lemma add_track_distance_features_ok (df : DataFrame) :
  well_formed df ->
  exists df', add_track_distance_features repr_float df = inr df' /\
              extends produced df df'.
Proof.
  intros Hwf. unfold add_track_distance_features.
  assert (Hfirst : exists df1,
             (if has_column df "Track" && has_column df "HorseID" then
                h <- getitem df "HorseID" ;;
                t <- getitem df "Track" ;;
                ret (setitem df "Track_Experience" (cumcount pair_eqb (map2 pair_key h t)))
              else ret df) = inr df1 /\ extends produced df df1).
  { destruct (has_column df "Track") eqn:Ht, (has_column df "HorseID") eqn:Hh; cbn [andb];
      try (exists df; split; [reflexivity | apply extends_refl]).
    destruct (has_getitem _ Hwf Ht) as (t & Hgt & Htlen).
    destruct (has_getitem _ Hwf Hh) as (h & Hgh & Hhlen).
    run_step. eexists. split; [reflexivity|].
    apply extends_setitem; [apply extends_refl | simpl; tauto|].
    rewrite length_cumcount. apply length_map2; assumption. }
  destruct Hfirst as (df1 & Hrun & Hext). rewrite Hrun, bind_ret.
  pose proof (extends_well_formed Hext Hwf) as Hwf1.
  pose proof (extends_index Hext) as Hidx.
  destruct (has_column df1 "Distance") eqn:Hd.
  - destruct (has_getitem _ Hwf1 Hd) as (d & Hgd & Hdlen).
    run_step. eexists. split; [reflexivity|].
    apply extends_setitem; [apply extends_setitem; [exact Hext | simpl; tauto |] | simpl; tauto |];
      rewrite ?length_floats, !length_map; congruence.
  - exists df1. split; [reflexivity | exact Hext].
Qed.

End Distance.

(** Without a [Winner] column, or without both identifier columns, the
    rolling win rates are skipped. *)
Lemma add_rolling_win_rates_skipped (df : DataFrame) :
  has_column df "Winner" = false \/
  (has_column df "JockeyID" = false /\ has_column df "TrainerID" = false) ->
  add_rolling_win_rates df = inr df.
Proof.
  intros H. unfold add_rolling_win_rates, add_rolling_win_rates_for.
  destruct H as [Hw|(Hj & Ht)].
  - rewrite Hw, !andb_false_r. rewrite bind_ret, Hw, andb_false_r. reflexivity.
  - rewrite Hj. cbn [andb]. rewrite bind_ret, Ht. reflexivity.
Qed.

Section Pipeline.
Variable repr_float : R -> string.

(** The first seven steps of [engineer_features] go through on a table
    that is [ready]; they set columns of the list [produced] only, and
    every column of the list [features]. *)
Lemma first_seven_steps_ok (df : DataFrame) :
  ready df ->
  exists df7,
    (df <- add_race_relative_features df ;;
     df <- add_interaction_features df ;;
     df <- add_form_features df ;;
     df <- add_market_features df ;;
     df <- add_form_aggregates df ;;
     df <- add_race_context_features df ;;
     add_advanced_interactions df) = inr df7 /\
    extends produced df df7 /\
    forall c, In c features -> has_column df7 c = true.
Proof.
  intros Hready.
  destruct (add_race_relative_features_ok Hready) as (df1 & Hrun1 & Hext1 & Hnew1).
  pose proof (extends_ready Hext1 Hready) as Hready1.
  destruct (add_interaction_features_ok Hready1) as (df2 & Hrun2 & Hext2 & Hnew2).
  pose proof (extends_ready Hext2 Hready1) as Hready2.
  destruct (add_form_features_ok Hready2) as (df3 & Hrun3 & Hext3 & Hnew3).
  pose proof (extends_ready Hext3 Hready2) as Hready3.
  destruct (add_market_features_ok Hready3) as (df4 & Hrun4 & Hext4 & Hnew4).
  pose proof (extends_ready Hext4 Hready3) as Hready4.
  destruct (add_form_aggregates_ok Hready4) as (df5 & Hrun5 & Hext5 & Hnew5).
  pose proof (extends_ready Hext5 Hready4) as Hready5.
  destruct (add_race_context_features_ok Hready5) as (df6 & Hrun6 & Hext6 & Hnew6).
  pose proof (extends_ready Hext6 Hready5) as Hready6.
  destruct (add_advanced_interactions_ok Hready6) as (df7 & Hrun7 & Hext7 & Hnew7).
  exists df7. rewrite Hrun1, bind_ret, Hrun2, bind_ret, Hrun3, bind_ret, Hrun4, bind_ret,
    Hrun5, bind_ret, Hrun6, bind_ret, Hrun7.
  pose proof (extends_trans Hext6 Hext7) as H57.
  pose proof (extends_trans Hext5 H57) as H47.
  pose proof (extends_trans Hext4 H47) as H37.
  pose proof (extends_trans Hext3 H37) as H27.
  pose proof (extends_trans Hext2 H27) as H17.
  split; [reflexivity|]. split; [exact (extends_trans Hext1 H17)|].
  intros c Hc.
  assert (Hlater : forall d, extends produced d df7 -> has_column d c = true ->
                             has_column df7 c = true)
    by (intros d Hd; apply (@extends_has_column _ _ _ c Hd)).
  simpl in Hc. decompose [or] Hc; subst; try contradiction;
    first [ apply Hnew7; simpl; tauto
          | apply (Hlater df6 Hext7), Hnew6; simpl; tauto
          | apply (Hlater df5 H57), Hnew5; simpl; tauto
          | apply (Hlater df4 H47), Hnew4; simpl; tauto
          | apply (Hlater df3 H37), Hnew3; simpl; tauto
          | apply (Hlater df2 H27), Hnew2; simpl; tauto
          | apply (Hlater df1 H17), Hnew1; simpl; tauto ].
Qed.

Lemma engineer_features_steps (df df7 : DataFrame) :
  (df <- add_race_relative_features df ;;
   df <- add_interaction_features df ;;
   df <- add_form_features df ;;
   df <- add_market_features df ;;
   df <- add_form_aggregates df ;;
   df <- add_race_context_features df ;;
   add_advanced_interactions df) = inr df7 ->
  engineer_features repr_float df
  = (df <- add_rolling_win_rates df7 ;;
     df <- add_track_distance_features repr_float df ;;
     ret df).
Proof.
  intros Hrun. unfold engineer_features.
  destruct (add_race_relative_features df) as [e|d1]; [discriminate|]. rewrite bind_ret in *.
  destruct (add_interaction_features d1) as [e|d2]; [discriminate|]. rewrite bind_ret in *.
  destruct (add_form_features d2) as [e|d3]; [discriminate|]. rewrite bind_ret in *.
  destruct (add_market_features d3) as [e|d4]; [discriminate|]. rewrite bind_ret in *.
  destruct (add_form_aggregates d4) as [e|d5]; [discriminate|]. rewrite bind_ret in *.
  destruct (add_race_context_features d5) as [e|d6]; [discriminate|]. rewrite bind_ret in *.
  rewrite Hrun. reflexivity.
Qed.

Lemma not_produced (c : string) :
  forallb (fun p => negb (String.eqb p c)) produced = true -> ~ In c produced.
Proof.
  intros Hall Hin. rewrite forallb_forall in Hall. specialize (Hall c Hin).
  rewrite String.eqb_refl in Hall. discriminate.
Qed.

Lemma extends_has_column_eq (df df' : DataFrame) (c : string) :
  extends produced df df' ->
  forallb (fun p => negb (String.eqb p c)) produced = true ->
  has_column df' c = has_column df c.
Proof.
  intros Hext Hc. unfold has_column.
  rewrite (@extends_lookup _ _ _ c Hext (@not_produced c Hc)). reflexivity.
Qed.

(** X22: [engineer_features] goes through on a table without win labels.
    Let every column of the table have one cell per row, let the table have
    the columns [Race_ID] and [Horse], numbers in the eight columns the
    pipeline computes with, and numbers in [PastWins] if it has that
    column.  If it has no [Winner] column, or neither [JockeyID] nor
    [TrainerID], then [engineer_features] returns a table: with the same
    rows, one cell per row in every column, the eighteen feature columns
    of the list [features], every column of the input still there, and the
    columns it does not write unchanged. *)
Theorem engineer_features_succeeds (df : DataFrame) :
  well_formed df ->
  has_column df "Race_ID" = true ->
  has_column df "Horse" = true ->
  (forall c, In c numeric_inputs -> is_numeric df c = true) ->
  (has_column df "PastWins" = true -> is_numeric df "PastWins" = true) ->
  has_column df "Winner" = false \/
  (has_column df "JockeyID" = false /\ has_column df "TrainerID" = false) ->
  exists df',
    engineer_features repr_float df = inr df' /\
    index df' = index df /\
    well_formed df' /\
    (forall c, In c features -> has_column df' c = true) /\
    (forall c, has_column df c = true -> has_column df' c = true) /\
    (forall c, ~ In c produced -> lookup c (columns df') = lookup c (columns df)).
Proof.
  intros Hwf Hrace Hhorse Hnum Hpast Hskip.
  assert (Hready : ready df) by (repeat split; assumption).
  destruct (first_seven_steps_ok Hready) as (df7 & Hrun & Hext & Hnew).
  rewrite (@engineer_features_steps df df7 Hrun).
  rewrite add_rolling_win_rates_skipped, bind_ret.
  - destruct (@add_track_distance_features_ok repr_float df7 (extends_well_formed Hext Hwf))
      as (df' & Hlast & Hext').
    rewrite Hlast, bind_ret.
    pose proof (extends_trans Hext Hext') as Hall.
    exists df'. split; [reflexivity|].
    split; [exact (extends_index Hall)|].
    split; [exact (extends_well_formed Hall Hwf)|].
    split; [|split].
    + intros c Hc. apply (@extends_has_column _ _ _ c Hext'). apply Hnew. exact Hc.
    + intros c. apply (@extends_has_column _ _ _ c Hall).
    + intros c Hc. apply (@extends_lookup _ _ _ c Hall Hc).
  - rewrite !(@extends_has_column_eq df df7 _ Hext) by reflexivity. exact Hskip.
Qed.

(** X23: with win labels, [engineer_features] never returns.  On a table
    as above that has numbers in a [Winner] column, a [JockeyID] or a
    [TrainerID] column, and no column named [level_1], the first seven
    steps go through and the pipeline stops in [add_rolling_win_rates]
    with the exception [KeyError: level_1]. *)
Theorem engineer_features_KeyError (df : DataFrame) :
  well_formed df ->
  has_column df "Race_ID" = true ->
  has_column df "Horse" = true ->
  (forall c, In c numeric_inputs -> is_numeric df c = true) ->
  (has_column df "PastWins" = true -> is_numeric df "PastWins" = true) ->
  is_numeric df "Winner" = true ->
  has_column df "JockeyID" = true \/ has_column df "TrainerID" = true ->
  has_column df "level_1" = false ->
  engineer_features repr_float df = inl (KeyError "level_1").
Proof.
  intros Hwf Hrace Hhorse Hnum Hpast Hwin Hid Hlevel.
  assert (Hready : ready df) by (repeat split; assumption).
  destruct (first_seven_steps_ok Hready) as (df7 & Hrun & Hext & _).
  rewrite (@engineer_features_steps df df7 Hrun).
  pose proof (extends_well_formed Hext Hwf) as Hwf7.
  assert (Hwin7 : is_numeric df7 "Winner" = true).
  { unfold is_numeric. rewrite (@extends_lookup _ _ _ "Winner" Hext); [exact Hwin|].
    apply not_produced. reflexivity. }
  destruct (numeric_getitem _ Hwf7 Hwin7) as (w & wn & Hw & Hwn & _).
  assert (Hlevel7 : has_column df7 "level_1" = false)
    by (rewrite (@extends_has_column_eq df df7 _ Hext) by reflexivity; exact Hlevel).
  assert (Hfail : forall col,
             String.eqb col "level_1" = false ->
             has_column df7 col = true ->
             add_rolling_win_rates_for df7 col = inl (KeyError "level_1")).
  { intros col Hcol Hc. destruct (has_getitem _ Hwf7 Hc) as (keys & Hkeys & _).
    exact (@add_rolling_win_rates_for_KeyError df7 col keys w wn Hcol Hkeys Hw Hwn Hlevel7). }
  assert (Hrolling : add_rolling_win_rates df7 = inl (KeyError "level_1")).
  { unfold add_rolling_win_rates.
    destruct (has_column df7 "JockeyID") eqn:Hj.
    - rewrite (Hfail "JockeyID" eq_refl Hj). reflexivity.
    - unfold add_rolling_win_rates_for at 1. rewrite Hj. cbn [andb]. rewrite bind_ret.
      apply Hfail; [reflexivity|].
      rewrite (@extends_has_column_eq df df7 _ Hext) in Hj by reflexivity.
      rewrite (@extends_has_column_eq df df7 _ Hext) by reflexivity.
      destruct Hid as [Hid|Hid]; [congruence | exact Hid]. }
  rewrite Hrolling. reflexivity.
Qed.

End Pipeline.

Ltac check_table :=
  repeat match goal with
         | |- well_formed _ => repeat constructor
         | |- forall c, In c numeric_inputs -> _ =>
             let c := fresh "c" in let Hc := fresh "Hc" in
             intros c Hc; simpl in Hc; decompose [or] Hc; subst;
             try contradiction; reflexivity
         | |- _ -> _ => intros _
         | |- _ = _ => reflexivity
         end.

(** The entries of a race, without labels, go through. *)
Lemma engineer_features_succeeds_witness :
  exists df',
    engineer_features (fun _ => EmptyString) entries_table = inr df' /\
    index df' = index entries_table /\
    well_formed df'.
Proof.
  destruct (@engineer_features_succeeds (fun _ => EmptyString) entries_table)
    as (df' & Hrun & Hindex & Hwf & _); try solve [check_table].
  - left. reflexivity.
  - exists df'. split; [exact Hrun|]. split; [exact Hindex | exact Hwf].
Defined.

(** The same race with its labels does not. *)
Lemma engineer_features_KeyError_witness :
  engineer_features (fun _ => EmptyString) Examples.race_table
  = inl (KeyError "level_1").
Proof.
  apply (@engineer_features_KeyError (fun _ => EmptyString) Examples.race_table);
    try solve [check_table].
  left. reflexivity.
Defined.

End FrameFacts.

(* ================================================================== *)
(** * src/features.py: what [add_form_features] and [add_market_features] write *)

Module ColumnFacts.
Import Num Pandas Features Frames Examples GroupByFacts PipelineFacts FrameFacts.
Local Open Scope string_scope.

Lemma mapM_nth_error (A B : Type) (f : A -> result B) (l : list A) (out : list B)
    (i : nat) (a : A) :
  mapM f l = inr out -> nth_error l i = Some a ->
  exists b, f a = inr b /\ nth_error out i = Some b.
Proof.
  revert out i. induction l as [|x l IH]; intros out i Hrun Hi.
  - destruct i; discriminate.
  - simpl in Hrun. destruct (f x) as [e|b] eqn:Hx; [discriminate|]. simpl in Hrun.
    destruct (mapM f l) as [e|bs] eqn:Hl; [discriminate|]. simpl in Hrun.
    inversion Hrun; subst out. destruct i as [|i]; simpl in Hi.
    + inversion Hi; subst x. exists b. split; [exact Hx | reflexivity].
    + destruct (IH bs i eq_refl Hi) as (b' & Hb' & Hnth). exists b'. auto.
Qed.

(** C6: the form bucketing of [add_form_features].  On a table whose column
    [daysSinceLastRun] holds numbers (and whose column [PastWins], if there
    is one, holds numbers), the transform returns, and the cell it writes
    in the column [RecentRun] for a row with a value d is the label of the
    half-open interval d lies in: "<7d" for -1 < d <= 7, "8–30d" for
    7 < d <= 30, "31–90d" for 30 < d <= 90 and "90d+" for 90 < d <= 9999. *)
Theorem add_form_features_half_open_intervals (df : DataFrame) (days : list cell)
    (i : nat) (c : cell) (d lo hi : R) (label : string) :
  getitem df "daysSinceLastRun" = inr days ->
  is_text days = false ->
  (forall wins, getitem df "PastWins" = inr wins -> is_text wins = false) ->
  nth_error days i = Some c ->
  as_num c = inr (Fin d) ->
  In (lo, hi, label)
     [ ((-1)%R, 7%R, "<7d"); (7%R, 30%R, "8–30d");
       (30%R, 90%R, "31–90d"); (90%R, 9999%R, "90d+") ] ->
  (lo < d <= hi)%R ->
  exists df' buckets,
    add_form_features df = inr df' /\
    getitem df' "RecentRun" = inr buckets /\
    length buckets = length days /\
    nth_error buckets i = Some (CStr label).
Proof.
  intros Hget Htext Hwins Hc Hd Hin Hrange.
  destruct (as_nums_ok days Htext) as (dn & Hdn & Hlen).
  destruct (mapM_nth_error _ _ _ Hdn Hc) as (x & Hx & Hnth).
  rewrite Hd in Hx. inversion Hx; subst x. clear Hx.
  assert (Hbucket : nth_error (map (fun x => of_label (RecentRun x)) dn) i
                    = Some (CStr label)).
  { rewrite nth_error_map, Hnth. simpl.
    rewrite (BucketFacts.RecentRun_intervals Hin Hrange). reflexivity. }
  unfold add_form_features. rewrite Hget, bind_ret, Hdn, bind_ret. cbv zeta.
  rewrite has_column_setitem.
  change (String.eqb "RecentRun" "PastWins") with false. cbn [orb].
  destruct (has_column df "PastWins") eqn:Hp.
  - unfold has_column in Hp. 
    assert (Hw : exists wins, getitem df "PastWins" = inr wins).
    { unfold getitem. destruct (lookup "PastWins" (columns df)) as [wins|];
        [exists wins; reflexivity | discriminate]. }
    destruct Hw as (wins & Hw).
    destruct (as_nums_ok wins (Hwins wins Hw)) as (wn & Hwn & _).
    rewrite getitem_setitem_other by reflexivity. rewrite Hw, bind_ret, Hwn, bind_ret.
    eexists. eexists. split; [reflexivity|].
    rewrite getitem_setitem_other by reflexivity. rewrite getitem_setitem_same.
    split; [reflexivity|]. split; [rewrite length_map; exact Hlen | exact Hbucket].
  - eexists. eexists. split; [reflexivity|].
    rewrite getitem_setitem_same.
    split; [reflexivity|]. split; [rewrite length_map; exact Hlen | exact Hbucket].
Qed.

(** In [race_table] the first horse ran seven days ago: still the first
    bucket. *)
Lemma add_form_features_half_open_intervals_witness :
  exists df' buckets,
    add_form_features race_table = inr df' /\
    getitem df' "RecentRun" = inr buckets /\
    length buckets = 2 /\
    nth_error buckets 0 = Some (CStr "<7d").
Proof.
  apply (@add_form_features_half_open_intervals race_table [CInt 7; CInt 30]
           0 (CInt 7) 7%R (-1)%R 7%R "<7d").
  - reflexivity.
  - reflexivity.
  - intros wins Hw. inversion Hw. reflexivity.
  - reflexivity.
  - reflexivity.
  - simpl. left. reflexivity.
  - lra.
Defined.

(** X19: odds of 0 go through [add_market_features] without an exception,
    and silently.  On a table with a column [Race_ID] and numbers in the
    column [Market_Odds], the transform returns; a row with odds of 0 gets
    an infinite [Market_Prob], and every row of the race of such a row
    gets a missing [Market_Prob_Z]. *)
Theorem zero_odds_blank_the_race (df : DataFrame) (race_ids odds : list cell)
    (i j : nat) (race : cell) :
  getitem df "Race_ID" = inr race_ids ->
  getitem df "Market_Odds" = inr odds ->
  is_text odds = false ->
  length race_ids = length odds ->
  nth_error race_ids i = Some race ->
  nth_error race_ids j = Some race ->
  cell_isna race = false ->
  (exists c, nth_error odds i = Some c /\ as_num c = inr (Fin 0)) ->
  exists df' prob z,
    add_market_features df = inr df' /\
    getitem df' "Market_Prob" = inr prob /\
    getitem df' "Market_Prob_Z" = inr z /\
    nth_error prob i = Some (CFloat PInf) /\
    nth_error z j = Some (CFloat NaN).
Proof.
  intros Hraces Hodds Htext Hlen Hi Hj Hna (c & Hc & Hzero).
  destruct (as_nums_ok odds Htext) as (on & Hon & Honlen).
  destruct (mapM_nth_error _ _ _ Hon Hc) as (x & Hx & Hnth).
  rewrite Hzero in Hx. inversion Hx; subst x. clear Hx.
  set (probs := map (div (Fin 1)) on).
  assert (Hplen : length race_ids = length probs)
    by (unfold probs; rewrite length_map; congruence).
  destruct (ZScoreFacts.z_Speed_PreviousRun_row race_ids probs Hplen)
    as (z & Hz & Hzlen & Hrow).
  unfold z_Speed_PreviousRun in Hz.
  assert (Hpi : nth_error probs i = Some PInf).
  { unfold probs. rewrite nth_error_map, Hnth. cbn [option_map].
    rewrite CenterFacts.one_over_zero. reflexivity. }
  exists (setitem (setitem (setitem (setitem df "log_MarketOdds" (floats (map log1p on)))
                              "MarketRank"
                              (floats (groupby_rank cell_eqb true (map group_key race_ids) on)))
                     "Market_Prob" (floats probs))
            "Market_Prob_Z" (floats z)).
  exists (floats probs), (floats z).
  split; [|split; [|split; [|split]]].
  - unfold add_market_features, groupby_col. run_step. fold probs. rewrite Hz.
    reflexivity.
  - rewrite getitem_setitem_other by reflexivity. apply getitem_setitem_same.
  - apply getitem_setitem_same.
  - unfold floats. rewrite nth_error_map, Hpi. reflexivity.
  - assert (Hjlt : j < length probs)
      by (rewrite <- Hplen; apply nth_error_Some; congruence).
    destruct (nth_error probs j) as [v|] eqn:Hv; [|apply nth_error_None in Hv; lia].
    specialize (Hrow j race v Hj Hna Hv). cbv zeta in Hrow.
    unfold floats. rewrite nth_error_map, Hrow. simpl. do 2 f_equal.
    assert (Hin : In PInf (get_group cell_eqb race (map group_key race_ids) probs)).
    { apply (@nth_error_In _ _ (group_pos cell_eqb race (firstn i (map group_key race_ids)))).
      apply nth_error_get_group.
      - apply (@group_key_refl race race). unfold group_key. rewrite Hna. reflexivity.
      - rewrite nth_error_map, Hi. simpl. unfold group_key. rewrite Hna. reflexivity.
      - exact Hpi. }
    rewrite (CenterFacts.std_PInf _ Hin). unfold add.
    destruct (sub v (mean (get_group cell_eqb race (map group_key race_ids) probs)));
      reflexivity.
Qed.

Lemma zero_odds_blank_the_race_witness :
  exists df' prob z,
    add_market_features zero_odds_table = inr df' /\
    getitem df' "Market_Prob" = inr prob /\
    getitem df' "Market_Prob_Z" = inr z /\
    nth_error prob 0 = Some (CFloat PInf) /\
    nth_error z 1 = Some (CFloat NaN).
Proof.
  apply (@zero_odds_blank_the_race zero_odds_table [CInt 1; CInt 1]
           [CFloat (Fin 0); CFloat (Fin 2)] 0 1 (CInt 1));
    try reflexivity.
  exists (CFloat (Fin 0)). split; reflexivity.
Defined.

End ColumnFacts.

(* ================================================================== *)
(** * src/features.py: the win rates that [add_rolling_win_rates] attaches *)

Module WinRateFacts.
Import Num Pandas Features Frames Examples RollingFacts GroupByFacts FrameFacts.
Local Open Scope string_scope.

(** ** Lists *)

Lemma filter_single (A : Type) (p : A -> bool) (l : list A) (a : A) :
  NoDup l -> In a l -> p a = true ->
  (forall b, In b l -> p b = true -> b = a) ->
  filter p l = [a].
Proof.
  induction l as [|x l IH]; intros Hnd Hin Hp Huniq; [destruct Hin|].
  inversion Hnd as [|x' l' Hx Hnd']; subst.
  simpl. destruct Hin as [->|Hin].
  - rewrite Hp. f_equal.
    destruct (filter p l) as [|y ys] eqn:Hf; [reflexivity|].
    assert (Hy : In y (filter p l)) by (rewrite Hf; left; reflexivity).
    apply filter_In in Hy. destruct Hy as (Hy1 & Hy2).
    assert (y = a) by (apply Huniq; [right; assumption | assumption]).
    subst. contradiction.
  - destruct (p x) eqn:Hpx.
    + assert (x = a) by (apply Huniq; [left; reflexivity | assumption]).
      subst. contradiction.
    + apply IH; auto. intros b Hb. apply Huniq. right; assumption.
Qed.

(** A left join in which every left row has exactly one match keeps the
    left rows as they are. *)
Lemma left_join_single (A B C : Type) (matches : A -> B -> bool)
    (f : option B -> C) (g : A -> C) (l : list A) (r : list B) :
  (forall a, In a l -> exists b, filter (matches a) r = [b] /\ f (Some b) = g a) ->
  map fst (left_join matches l r) = l /\
  map (fun p => f (snd p)) (left_join matches l r) = map g l.
Proof.
  unfold left_join. induction l as [|a l IH]; intros H; [split; reflexivity|].
  destruct IH as (IH1 & IH2); [intros b Hb; apply H; right; exact Hb|].
  destruct (H a (or_introl eq_refl)) as (b & Hb & Hfg).
  cbn [flat_map]. rewrite !map_app, IH1, IH2, Hb. cbn [map fst snd app].
  rewrite Hfg. split; reflexivity.
Qed.

Lemma map_fst_combine (A B : Type) (l : list A) (r : list B) :
  length l = length r -> map fst (combine l r) = l.
Proof.
  revert r. induction l as [|a l IH]; intros [|b r] H; try discriminate; [reflexivity|].
  simpl. f_equal. apply IH. simpl in H. lia.
Qed.

Lemma nth_error_combine (A B : Type) (l : list A) (r : list B) (i : nat) (a : A) (b : B) :
  nth_error l i = Some a -> nth_error r i = Some b -> In (a, b) (combine l r).
Proof.
  revert r i. induction l as [|x l IH]; intros [|y r] [|i] Ha Hb; try discriminate.
  - simpl in *. left. congruence.
  - simpl in *. right. eapply IH; eassumption.
Qed.

Lemma map_nth_seq (A : Type) (l : list A) (d : A) :
  map (fun i => nth i l d) (seq 0 (length l)) = l.
Proof.
  induction l as [|a l IH]; [reflexivity|].
  cbn [length seq map nth]. f_equal. rewrite <- seq_shift, map_map. exact IH.
Qed.

Lemma existsb_same (A : Type) (p : A -> bool) (l l' : list A) :
  (forall a, In a l <-> In a l') -> existsb p l = existsb p l'.
Proof.
  intros H. destruct (existsb p l) eqn:Hl, (existsb p l') eqn:Hl'; try reflexivity.
  - apply existsb_exists in Hl. destruct Hl as (a & Ha & Hp).
    assert (Hc : existsb p l' = true) by (apply existsb_exists; exists a; split; [apply H, Ha | exact Hp]).
    congruence.
  - apply existsb_exists in Hl'. destruct Hl' as (a & Ha & Hp).
    assert (Hc : existsb p l = true) by (apply existsb_exists; exists a; split; [apply H, Ha | exact Hp]).
    congruence.
Qed.

(** ** Groups *)

Section Distinct.
Variables K A : Type.
Variable K_eqb : K -> K -> bool.

Local Abbreviation reflects keys :=
  (forall a b : K, In (Some a) keys -> In (Some b) keys -> (K_eqb a b = true <-> a = b)).

Lemma reflects_tail (o : option K) (keys : list (option K)) :
  reflects (o :: keys) -> reflects keys.
Proof. intros H a b Ha Hb. apply H; right; assumption. Qed.

Lemma distinct_In (keys : list (option K)) (k : K) :
  In k (distinct K_eqb keys) -> In (Some k) keys.
Proof.
  induction keys as [|[k0|] keys IH]; simpl; intros H.
  - destruct H.
  - destruct H as [->|H]; [left; reflexivity|].
    apply filter_In in H. right. apply IH, H.
  - right. auto.
Qed.

Lemma distinct_complete (keys : list (option K)) (k : K) :
  reflects keys -> In (Some k) keys -> In k (distinct K_eqb keys).
Proof.
  induction keys as [|[k0|] keys IH]; intros Hr Hin.
  - destruct Hin.
  - simpl. destruct (K_eqb k0 k) eqn:He.
    + left. apply Hr; [left; reflexivity | exact Hin | exact He].
    + right. apply filter_In. split; [|rewrite He; reflexivity].
      apply IH; [exact (reflects_tail Hr)|].
      destruct Hin as [Heq|Hin]; [|exact Hin].
      inversion Heq; subst k0.
      rewrite (proj2 (Hr k k (or_introl eq_refl) (or_introl eq_refl)) eq_refl) in He.
      discriminate.
  - simpl. apply IH; [exact (reflects_tail Hr)|].
    destruct Hin as [Heq|Hin]; [discriminate | exact Hin].
Qed.

Lemma distinct_NoDup (keys : list (option K)) :
  reflects keys -> NoDup (distinct K_eqb keys).
Proof.
  induction keys as [|[k0|] keys IH]; intros Hr; simpl.
  - constructor.
  - constructor.
    + intros Hin. apply filter_In in Hin. destruct Hin as (_ & Hneg).
      rewrite (proj2 (Hr k0 k0 (or_introl eq_refl) (or_introl eq_refl)) eq_refl) in Hneg.
      discriminate.
    + apply NoDup_filter. apply IH. exact (reflects_tail Hr).
  - apply IH. exact (reflects_tail Hr).
Qed.

Lemma get_group_In (k : K) (keys : list (option K)) (vals : list A) (v : A) :
  In v (get_group K_eqb k keys vals) ->
  exists o, In (o, v) (combine keys vals) /\ has_key K_eqb k o = true.
Proof.
  unfold get_group. rewrite in_map_iff. intros ((o, v') & Heq & Hin).
  simpl in Heq. subst v'. apply filter_In in Hin. exists o. exact Hin.
Qed.

Lemma get_group_NoDup (k : K) (keys : list (option K)) (vals : list A) :
  NoDup vals -> NoDup (get_group K_eqb k keys vals).
Proof.
  revert vals. induction keys as [|o keys IH]; intros vals Hnd; [constructor|].
  destruct vals as [|a vals]; [constructor|].
  inversion Hnd as [|a' vals' Ha Hnd']; subst.
  rewrite get_group_cons. destruct (has_key K_eqb k o); [|apply IH; exact Hnd'].
  constructor; [|apply IH; exact Hnd'].
  intros Hin. apply get_group_In in Hin. destruct Hin as (o' & Hin & _).
  apply in_combine_r in Hin. contradiction.
Qed.

Lemma combine_label_key (keys : list (option K)) (labels : list A)
    (o o' : option K) (v : A) :
  NoDup labels ->
  In (o, v) (combine keys labels) -> In (o', v) (combine keys labels) -> o = o'.
Proof.
  revert labels. induction keys as [|x keys IH]; intros [|y labels] Hnd H1 H2;
    try (destruct H1; fail).
  inversion Hnd as [|y' l' Hy Hnd']; subst.
  destruct H1 as [E1|H1], H2 as [E2|H2].
  - congruence.
  - inversion E1; subst. apply in_combine_r in H2. contradiction.
  - inversion E2; subst. apply in_combine_r in H1. contradiction.
  - eapply IH; eauto.
Qed.

(** The groups split the rows: no label falls in two of them. *)
Lemma groups_NoDup (keys : list (option K)) (labels : list A) (ks : list K) :
  reflects keys -> NoDup labels -> NoDup ks ->
  (forall k, In k ks -> In (Some k) keys) ->
  NoDup (flat_map (fun k => get_group K_eqb k keys labels) ks).
Proof.
  intros Hr Hnd. induction ks as [|k ks IH]; intros Hks Hsub; [constructor|].
  inversion Hks as [|k' ks' Hk Hks']; subst.
  cbn [flat_map]. apply NoDup_app.
  - apply get_group_NoDup, Hnd.
  - apply IH; [exact Hks' | intros k' Hk'; apply Hsub; right; exact Hk'].
  - intros v Hv1 Hv2. apply in_flat_map in Hv2. destruct Hv2 as (k' & Hk' & Hv2).
    apply get_group_In in Hv1, Hv2.
    destruct Hv1 as (o & Hin & Hhas), Hv2 as (o' & Hin' & Hhas').
    assert (o = o') by (eapply combine_label_key; eauto). subst o'.
    destruct o as [c|]; [|discriminate]. simpl in Hhas, Hhas'.
    assert (Hc : In (Some c) keys) by (apply in_combine_l in Hin; exact Hin).
    assert (k = c) by (apply Hr; [apply Hsub; left; reflexivity | exact Hc | exact Hhas]).
    assert (k' = c) by (apply Hr; [apply Hsub; right; exact Hk' | exact Hc | exact Hhas']).
    subst. contradiction.
Qed.

(** The labels that [groupby_rolling] carries are those of the groups. *)
Lemma groupby_rolling_labels (roll : list num -> list num)
    (keys : list (option K)) (labels : list A) (vals : list num) :
  (forall g, length (roll g) = length g) ->
  length keys = length labels -> length keys = length vals ->
  map (fun r => fst (snd r)) (groupby_rolling K_eqb roll keys labels vals)
  = flat_map (fun k => get_group K_eqb k keys labels) (distinct K_eqb keys).
Proof.
  intros Hroll Hl Hv. unfold groupby_rolling.
  induction (distinct K_eqb keys) as [|k ks IH]; [reflexivity|].
  cbn [flat_map]. rewrite map_app, IH. f_equal.
  rewrite map_map. cbn [fst snd].
  change (fun x : A * num => fst x) with (@fst A num).
  apply map_fst_combine.
  rewrite Hroll, !get_group_length by assumption. reflexivity.
Qed.

(** The group of a key, cut at a row, is the start of the group. *)
Lemma get_group_firstn (k : K) (keys : list (option K)) (vals : list A) (i : nat) :
  get_group K_eqb k (firstn i keys) (firstn i vals)
  = firstn (group_pos K_eqb k (firstn i keys)) (get_group K_eqb k keys vals).
Proof.
  revert vals i. induction keys as [|o keys IH]; intros vals i.
  - rewrite firstn_nil. reflexivity.
  - destruct i as [|i]; [reflexivity|].
    destruct vals as [|a vals].
    + rewrite firstn_nil. unfold get_group. rewrite !combine_nil. simpl.
      rewrite firstn_nil. reflexivity.
    + cbn [firstn]. rewrite !get_group_cons. unfold group_pos. cbn [filter].
      destruct (has_key K_eqb k o); cbn [length firstn]; [f_equal|]; apply IH.
Qed.

End Distinct.


(** ** Tables *)

Lemma nth_RangeIndex (n i : nat) :
  i < n -> nth_error (RangeIndex n) i = Some (CInt (Z.of_nat i)).
Proof.
  intros Hi. unfold RangeIndex. rewrite nth_error_map, nth_error_seq.
  apply Nat.ltb_lt in Hi. rewrite Hi. reflexivity.
Qed.

Lemma RangeIndex_length (n : nat) : length (RangeIndex n) = n.
Proof. unfold RangeIndex. rewrite length_map, length_seq. reflexivity. Qed.

Lemma RangeIndex_In (n : nat) (c : cell) :
  In c (RangeIndex n) -> exists i, c = CInt (Z.of_nat i).
Proof.
  unfold RangeIndex. rewrite in_map_iff. intros (i & Hi & _). exists i. auto.
Qed.

Lemma RangeIndex_NoDup (n : nat) : NoDup (RangeIndex n).
Proof.
  unfold RangeIndex. apply NoDup_map_NoDup_ForallPairs; [|apply seq_NoDup].
  intros a b _ _ H. inversion H. lia.
Qed.

Lemma is_text_RangeIndex (n : nat) : is_text (RangeIndex n) = false.
Proof.
  unfold is_text. destruct (existsb _ (RangeIndex n)) eqn:H; [|reflexivity].
  apply existsb_exists in H. destruct H as (c & Hc & Ht).
  apply RangeIndex_In in Hc. destruct Hc as (i & ->). discriminate.
Qed.

Lemma id_column_In (col : list cell) (c : cell) :
  id_column col = true -> In c col -> (exists z, c = CInt z) \/ (exists s, c = CStr s).
Proof.
  unfold id_column. intros H Hc. apply orb_true_iff in H.
  destruct H as [H|H]; rewrite forallb_forall in H; specialize (H c Hc);
    destruct c as [z|x|s]; try discriminate; eauto.
Qed.

Lemma id_group_key (col : list cell) (c : cell) :
  id_column col = true -> In c col -> group_key c = Some c.
Proof.
  intros H Hc. destruct (@id_column_In col c H Hc) as [(z & ->)|(s & ->)]; reflexivity.
Qed.

Lemma id_keys (col : list cell) (k : cell) :
  id_column col = true -> In (Some k) (map group_key col) -> In k col.
Proof.
  intros H Hk. apply in_map_iff in Hk. destruct Hk as (c & Hc & Hin).
  rewrite (@id_group_key col c H Hin) in Hc. inversion Hc; subst. exact Hin.
Qed.

Lemma id_reflects (col : list cell) (a b : cell) :
  id_column col = true ->
  In (Some a) (map group_key col) -> In (Some b) (map group_key col) ->
  (cell_eqb a b = true <-> a = b).
Proof.
  intros H Ha Hb. apply (@id_keys col a H) in Ha. apply (@id_keys col b H) in Hb.
  destruct (@id_column_In col a H Ha) as [(x & ->)|(s & ->)];
    destruct (@id_column_In col b H Hb) as [(y & ->)|(t & ->)]; simpl.
  - rewrite Z.eqb_eq. split; [intros ->; reflexivity | intros E; inversion E; reflexivity].
  - split; intros E; discriminate.
  - split; intros E; discriminate.
  - rewrite String.eqb_eq. split; [intros ->; reflexivity | intros E; inversion E; reflexivity].
Qed.

(** ** One pass of the loop *)

Section OnePass.
Variable df : DataFrame.
Variable col : string.
Variables (keys w : list cell) (wn : list num).
Hypothesis Hcol1 : String.eqb col "level_1" = false.
Hypothesis Hname1 : String.eqb (col ++ "_WinRate50") "level_1" = false.
Hypothesis Hname2 : String.eqb (col ++ "_WinRate50") col = false.
Hypothesis Hindex : index df = RangeIndex (length wn).
Hypothesis Hlevel : lookup "level_1" (columns df) = Some (RangeIndex (length wn)).
Hypothesis Hkeys : lookup col (columns df) = Some keys.
Hypothesis Hw : lookup "Winner" (columns df) = Some w.
Hypothesis Hwn : as_nums w = inr wn.
Hypothesis Hlen : length keys = length wn.
Hypothesis Hids : id_column keys = true.
Hypothesis Hfresh : lookup (col ++ "_WinRate50") (columns df) = None.

Local Abbreviation groups := (map group_key keys).
Local Abbreviation rows :=
  (groupby_rolling cell_eqb WinRate50 (map group_key keys) (RangeIndex (length wn)) wn).
Local Abbreviation label_of := (fun r : cell * (cell * num) => fst (snd r)).
Local Abbreviation value_of := (fun r : cell * (cell * num) => snd (snd r)).
Local Abbreviation no_row := (NA, (NA, NaN)).

(** The rolling win rate of row [i] within its own jockey or trainer. *)
Local Abbreviation rate :=
  (fun i => nth (group_pos cell_eqb (nth i keys NA) (firstn i (map group_key keys)))
                (WinRate50 (get_group cell_eqb (nth i keys NA) (map group_key keys) wn))
                NaN).

Lemma rows_labels :
  map label_of rows
  = flat_map (fun k => get_group cell_eqb k groups (RangeIndex (length wn)))
             (distinct cell_eqb groups).
Proof.
  apply groupby_rolling_labels.
  - apply WinRate50_length.
  - rewrite length_map, RangeIndex_length. exact Hlen.
  - rewrite length_map. exact Hlen.
Qed.

Lemma rows_labels_NoDup : NoDup (map label_of rows).
Proof.
  rewrite rows_labels. apply groups_NoDup.
  - intros a b. apply id_reflects. exact Hids.
  - apply RangeIndex_NoDup.
  - apply distinct_NoDup. intros a b. apply id_reflects. exact Hids.
  - intros k. apply distinct_In.
Qed.

Lemma rows_labels_range (l : cell) :
  In l (map label_of rows) -> exists i, l = CInt (Z.of_nat i).
Proof.
  rewrite rows_labels, in_flat_map. intros (k & _ & Hin).
  apply get_group_In in Hin. destruct Hin as (o & Hin & _).
  apply in_combine_r in Hin. exact (@RangeIndex_In _ _ Hin).
Qed.

Lemma row_key (i : nat) :
  i < length wn ->
  nth_error keys i = Some (nth i keys NA) /\
  nth_error groups i = Some (Some (nth i keys NA)) /\
  cell_eqb (nth i keys NA) (nth i keys NA) = true.
Proof.
  intros Hi. rewrite <- Hlen in Hi.
  pose proof (nth_error_nth' keys NA Hi) as Hk.
  assert (Hg : group_key (nth i keys NA) = Some (nth i keys NA))
    by (apply (@id_group_key keys _ Hids), nth_In, Hi).
  split; [exact Hk|]. split.
  - rewrite nth_error_map, Hk. simpl. rewrite Hg. reflexivity.
  - exact (@group_key_refl _ _ Hg).
Qed.

Lemma row_rate (i : nat) :
  i < length wn ->
  nth_error (WinRate50 (get_group cell_eqb (nth i keys NA) groups wn))
            (group_pos cell_eqb (nth i keys NA) (firstn i groups))
  = Some (rate i) /\
  nth_error (get_group cell_eqb (nth i keys NA) groups (RangeIndex (length wn)))
            (group_pos cell_eqb (nth i keys NA) (firstn i groups))
  = Some (CInt (Z.of_nat i)).
Proof.
  intros Hi. destruct (row_key Hi) as (Hk & Hg & Hrefl).
  pose proof (@nth_error_get_group _ _ cell_eqb (nth i keys NA) groups
                (RangeIndex (length wn)) i (CInt (Z.of_nat i)) Hrefl Hg
                (nth_RangeIndex Hi)) as Hlab.
  split; [|exact Hlab].
  apply nth_error_nth'. rewrite WinRate50_length.
  assert (Hp : group_pos cell_eqb (nth i keys NA) (firstn i groups)
               < length (get_group cell_eqb (nth i keys NA) groups (RangeIndex (length wn))))
    by (apply nth_error_Some; congruence).
  rewrite get_group_length in Hp by (rewrite length_map, RangeIndex_length; exact Hlen).
  rewrite get_group_length by (rewrite length_map; exact Hlen).
  exact Hp.
Qed.

Lemma row_of (i : nat) :
  i < length wn -> In (nth i keys NA, (CInt (Z.of_nat i), rate i)) rows.
Proof.
  intros Hi. destruct (row_key Hi) as (Hk & Hg & Hrefl).
  destruct (row_rate Hi) as (Hrate & Hlab).
  unfold groupby_rolling. apply in_flat_map. exists (nth i keys NA). split.
  - apply distinct_complete; [intros a b; apply id_reflects; exact Hids|].
    exact (nth_error_In _ _ Hg).
  - apply in_map. eapply nth_error_combine; eassumption.
Qed.

Local Abbreviation merge_keys :=
  [ (RangeIndex (length wn), map label_of rows); (keys, map (@fst cell (cell * num)) rows) ].

(** The merge finds for row [i] one row of the rolling frame, the one made
    from row [i] itself. *)
Lemma matched_row (i : nat) :
  i < length wn ->
  exists j,
    filter (fun j => all2 merge_key_eqb
                          (map (fun k => nth i (fst k) NA) merge_keys)
                          (map (fun k => nth j (snd k) NA) merge_keys))
           (seq 0 (length rows)) = [j] /\
    nth j (floats (map value_of rows)) NA = CFloat (rate i).
Proof.
  intros Hi. destruct (row_key Hi) as (Hk & Hg & Hrefl).
  destruct (In_nth _ _ no_row (row_of Hi)) as (j & Hj & Hrow).
  assert (Hlabel : forall j', nth j' (map label_of rows) NA = label_of (nth j' rows no_row))
    by (intros j'; exact (map_nth label_of rows no_row j')).
  assert (Hkey : forall j', nth j' (map (@fst cell (cell * num)) rows) NA
                            = fst (nth j' rows no_row))
    by (intros j'; exact (map_nth (@fst cell (cell * num)) rows no_row j')).
  assert (Hleft : nth i (RangeIndex (length wn)) NA = CInt (Z.of_nat i))
    by (apply nth_error_nth, nth_RangeIndex, Hi).
  exists j. split.
  - apply filter_single.
    + apply seq_NoDup.
    + apply in_seq. lia.
    + cbn [map all2 fst snd]. rewrite Hleft, Hlabel, Hkey, Hrow. cbn [fst snd].
      unfold merge_key_eqb. rewrite Hrefl. cbn [cell_eqb orb andb].
      rewrite Z.eqb_refl. reflexivity.
    + intros j' Hj' Hm. apply in_seq in Hj'.
      cbn [map all2 fst snd] in Hm. rewrite Hleft in Hm.
      apply andb_true_iff in Hm. destruct Hm as (Hm & _).
      assert (Hin : In (nth j' (map label_of rows) NA) (map label_of rows))
        by (apply nth_In; rewrite length_map; lia).
      destruct (rows_labels_range _ Hin) as (i' & Hi').
      rewrite Hi' in Hm. unfold merge_key_eqb in Hm. cbn [cell_eqb cell_isna andb orb] in Hm.
      rewrite orb_false_r in Hm. apply Z.eqb_eq in Hm.
      assert (Hsame : nth j' (map label_of rows) NA = nth j (map label_of rows) NA).
      { rewrite Hi', (Hlabel j), Hrow, <- Hm. reflexivity. }
      pose proof rows_labels_NoDup as Hnd.
      rewrite (NoDup_nth _ NA) in Hnd.
      apply Hnd; [rewrite length_map; lia | rewrite length_map; lia | exact Hsame].
  - unfold floats. rewrite map_map.
    change NA with ((fun r : cell * (cell * num) => CFloat (value_of r)) no_row).
    rewrite map_nth, Hrow. reflexivity.
Qed.

Lemma lookup_mem (nm : string) (cols : list (string * list cell)) :
  lookup nm cols = None -> mem nm (map fst cols) = false.
Proof.
  induction cols as [|[n0 c] cols IH]; simpl; intros H; [reflexivity|].
  destruct (String.eqb n0 nm) eqn:E; [discriminate|].
  rewrite String.eqb_sym, E. simpl. auto.
Qed.

Lemma rows_labels_numeric : is_text (map label_of rows) = false.
Proof.
  unfold is_text. destruct (existsb _ (map label_of rows)) eqn:H; [|reflexivity].
  apply existsb_exists in H. destruct H as (c & Hc & Ht).
  apply rows_labels_range in Hc. destruct Hc as (i & ->). discriminate.
Qed.

Lemma rows_keys (k : cell) : In k (map (@fst cell (cell * num)) rows) <-> In k keys.
Proof.
  split.
  - rewrite in_map_iff. intros ((k' & lv) & Heq & Hin). simpl in Heq. subst k'.
    unfold groupby_rolling in Hin. apply in_flat_map in Hin.
    destruct Hin as (k' & Hk' & Hin). apply in_map_iff in Hin.
    destruct Hin as (lv' & Heq & _). inversion Heq; subst.
    apply distinct_In in Hk'. exact (@id_keys keys k Hids Hk').
  - intros Hk. destruct (In_nth _ _ NA Hk) as (i & Hi & <-).
    rewrite Hlen in Hi.
    exact (in_map (@fst cell (cell * num)) _ _ (row_of Hi)).
Qed.

Lemma lookup_None_In (nm : string) (cols : list (string * list cell)) (c : string * list cell) :
  lookup nm cols = None -> In c cols -> String.eqb (fst c) nm = false.
Proof.
  induction cols as [|[n0 x] cols IH]; simpl; intros H Hc; [destruct Hc|].
  destruct (String.eqb n0 nm) eqn:E; [discriminate|].
  destruct Hc as [<-|Hc]; [exact E | auto].
Qed.

Lemma one_pass :
  add_rolling_win_rates_for df col
  = inr {| index := RangeIndex (length wn);
           columns :=
             map (fun c => (fst c, map (fun i => nth i (snd c) NA) (seq 0 (length wn))))
                 (columns df)
             ++ [(col ++ "_WinRate50", floats (map rate (seq 0 (length wn))))] |}.
Proof.
  unfold add_rolling_win_rates_for, has_column. rewrite Hkeys, Hw. cbn [andb].
  unfold rolling_frame, getitem. rewrite Hkeys, Hw. unfold ret. rewrite !bind_ret, Hwn, bind_ret.
  rewrite Hindex.
  match goal with |- bind (inr ?r) _ = _ => set (rolling := r) end.
  rewrite bind_ret. unfold merge_left.
  assert (Hm : mapM (fun k => rk <- getitem rolling k ;; lk <- getitem df k ;; ret (lk, rk))
                    ["level_1"; col] = inr merge_keys).
  { cbn [mapM]. unfold getitem, rolling. cbn [columns lookup].
    rewrite Hcol1, Hlevel, Hkeys, !String.eqb_refl. reflexivity. }
  rewrite Hm, bind_ret.
  assert (Hdt : forallb (fun k : list cell * list cell =>
                           Bool.eqb (is_text (fst k)) (is_text (snd k))) merge_keys = true).
  { cbn [forallb fst snd].
    rewrite is_text_RangeIndex, rows_labels_numeric.
    rewrite (@existsb_same _ _ _ _ rows_keys : is_text (map (@fst cell (cell * num)) rows) = is_text keys).
    rewrite !Bool.eqb_reflx. reflexivity. }
  rewrite Hdt. cbn [negb]. unfold ret. f_equal.
  assert (Hrcols : filter (fun c : string * list cell => negb (mem (fst c) ["level_1"; col]))
                          (columns rolling)
                   = [(col ++ "_WinRate50", floats (map value_of rows))]).
  { unfold rolling. cbn [columns filter fst mem existsb].
    rewrite Hcol1, Hname1, Hname2, !String.eqb_refl. cbn [orb negb]. 
    reflexivity. }
  rewrite Hrcols. clear Hm Hdt Hrcols. subst rolling. cbn [index].
  rewrite Hindex, !RangeIndex_length.
  match goal with |- context [left_join ?M ?l ?r] => set (pairs := left_join M l r) end.
  assert (Hp : map fst pairs = seq 0 (length wn) /\
               map (fun p : nat * option nat =>
                      match snd p with
                      | Some j => nth j (floats (map value_of rows)) NA
                      | None => NA
                      end) pairs
               = map (fun i => CFloat (rate i)) (seq 0 (length wn))).
  { apply (@left_join_single nat nat cell _
             (fun ob => match ob with
                        | Some j => nth j (floats (map value_of rows)) NA
                        | None => NA
                        end)
             (fun i => CFloat (rate i))).
    intros i Hi. apply in_seq in Hi. apply matched_row. lia. }
  destruct Hp as (Hfst & Hsnd).
  f_equal.
  - rewrite <- (length_map fst pairs), Hfst, length_seq. reflexivity.
  - f_equal.
    + apply map_ext_in. intros c Hc. f_equal.
      * cbn [map fst mem existsb]. rewrite (@lookup_None_In _ _ c Hfresh Hc).
        rewrite !andb_false_r. reflexivity.
      * rewrite <- Hfst, map_map. reflexivity.
    + cbn [map fst snd]. rewrite (@lookup_mem _ _ Hfresh), andb_false_r, Hsnd.
      unfold floats. rewrite map_map. reflexivity.
Qed.

End OnePass.

(** ** Both passes *)

(** The rolling win rate of row [i] within the jockey or trainer of that
    row. *)
Local Abbreviation entity_rate keys wn :=
  (fun i => nth (group_pos cell_eqb (nth i keys NA) (firstn i (map group_key keys)))
                (WinRate50 (get_group cell_eqb (nth i keys NA) (map group_key keys) wn))
                NaN).

Lemma map_nth_seq_length (A : Type) (l : list A) (d : A) (n : nat) :
  length l = n -> map (fun i => nth i l d) (seq 0 n) = l.
Proof. intros <-. apply map_nth_seq. Qed.

Lemma lookup_app_map (nm : string) (h : list cell -> list cell)
    (cols extra : list (string * list cell)) :
  lookup nm (map (fun c => (fst c, h (snd c))) cols ++ extra)
  = match lookup nm cols with
    | Some c => Some (h c)
    | None => lookup nm extra
    end.
Proof.
  induction cols as [|[n0 c] cols IH]; [reflexivity|].
  cbn [map app lookup fst snd]. destruct (String.eqb n0 nm); [reflexivity | exact IH].
Qed.

Lemma getitem_lookup (df : DataFrame) (nm : string) (c : list cell) :
  getitem df nm = inr c -> lookup nm (columns df) = Some c.
Proof.
  unfold getitem. destruct (lookup nm (columns df)); intros H; inversion H. reflexivity.
Qed.

Lemma has_column_lookup (df : DataFrame) (nm : string) :
  has_column df nm = false -> lookup nm (columns df) = None.
Proof.
  unfold has_column. destruct (lookup nm (columns df)); [discriminate | reflexivity].
Qed.

(** On a rolling table [add_rolling_win_rates] returns, and the two columns
    it attaches hold for every row the rolling win rate of the row within
    its jockey and within its trainer. *)
Lemma add_rolling_win_rates_attaches (df : DataFrame) (jockeys trainers : list cell)
    (winner : list num) :
  rolling_table df jockeys trainers winner ->
  exists out,
    add_rolling_win_rates df = inr out /\
    getitem out "JockeyID_WinRate50"
    = inr (floats (map (entity_rate jockeys winner) (seq 0 (length winner)))) /\
    getitem out "TrainerID_WinRate50"
    = inr (floats (map (entity_rate trainers winner) (seq 0 (length winner)))).
Proof.
  intros (Hindex & Hlevel & Hj & Ht & (w & Hw & Hwn) & Hlj & Hlt & Hij & Hit & Hfj & Hft).
  apply getitem_lookup in Hlevel, Hj, Ht, Hw.
  apply has_column_lookup in Hfj, Hft.
  assert (Hlw : length w = length winner)
    by (symmetry; exact (mapM_length _ _ Hwn)).
  pose proof (@one_pass df "JockeyID" jockeys w winner eq_refl eq_refl eq_refl
                Hindex Hlevel Hj Hw Hwn Hlj Hij Hfj) as H1.
  match type of H1 with _ = inr ?d => set (df1 := d) in * end.
  assert (Hlookup1 : forall nm c, lookup nm (columns df) = Some c ->
                                  length c = length winner ->
                                  lookup nm (columns df1) = Some c).
  { intros nm c Hc Hl. unfold df1. cbn [columns].
    rewrite (lookup_app_map nm (fun x => map (fun i => nth i x NA) (seq 0 (length winner)))), Hc.
    rewrite (@map_nth_seq_length _ c NA _ Hl). reflexivity. }
  assert (Hfresh1 : lookup "TrainerID_WinRate50" (columns df1) = None).
  { unfold df1. cbn [columns].
    rewrite (lookup_app_map _ (fun x => map (fun i => nth i x NA) (seq 0 (length winner)))), Hft.
    reflexivity. }
  pose proof (@one_pass df1 "TrainerID" trainers w winner eq_refl eq_refl eq_refl
                eq_refl
                (Hlookup1 _ _ Hlevel (RangeIndex_length _))
                (Hlookup1 _ _ Ht Hlt) (Hlookup1 _ _ Hw Hlw) Hwn Hlt Hit Hfresh1) as H2.
  match type of H2 with _ = inr ?d => exists d end.
  split; [|split].
  - unfold add_rolling_win_rates. rewrite H1, bind_ret. exact H2.
  - unfold getitem. cbn [columns].
    rewrite (lookup_app_map _ (fun x => map (fun i => nth i x NA) (seq 0 (length winner)))).
    unfold df1 at 1. cbn [columns].
    rewrite (lookup_app_map _ (fun x => map (fun i => nth i x NA) (seq 0 (length winner)))), Hfj.
    cbn [lookup]. rewrite String.eqb_refl.
    rewrite map_nth_seq_length
      by (unfold floats; rewrite !length_map, length_seq; reflexivity).
    reflexivity.
  - unfold getitem. cbn [columns].
    rewrite (lookup_app_map _ (fun x => map (fun i => nth i x NA) (seq 0 (length winner)))), Hfresh1.
    cbn [lookup]. rewrite String.eqb_refl. reflexivity.
Qed.

(** ** The value attached to a row *)

Lemma firstn_S_nth (A : Type) (l l' : list A) (i : nat) :
  firstn (S i) l = firstn (S i) l' ->
  firstn i l = firstn i l' /\ nth_error l i = nth_error l' i.
Proof.
  intros H. split.
  - assert (E : forall x : list A, firstn i (firstn (S i) x) = firstn i x)
      by (intros x; rewrite firstn_firstn; f_equal; lia).
    rewrite <- (E l), <- (E l'), H. reflexivity.
  - assert (E : forall x : list A, nth_error (firstn (S i) x) i = nth_error x i)
      by (intros x; rewrite nth_error_firstn;
          destruct (Nat.ltb_spec i (S i)); [reflexivity | lia]).
    rewrite <- (E l), <- (E l'), H. reflexivity.
Qed.

Lemma observations_snoc (l : list num) (x : R) :
  observations (l ++ [Fin x])%list = (observations l ++ [x])%list.
Proof.
  induction l as [|a l IH]; [reflexivity|].
  destruct a; simpl; rewrite IH; reflexivity.
Qed.

Lemma Rsum_snoc (l : list R) (x : R) : Rsum (l ++ [x])%list = (Rsum l + x)%R.
Proof.
  induction l as [|a l IH]; simpl; [lra|]. rewrite IH. lra.
Qed.

Lemma nth_error_floats (l : list num) (i : nat) :
  nth_error (floats l) i = option_map CFloat (nth_error l i).
Proof. unfold floats. apply nth_error_map. Qed.

(** The value attached to row [i] is [WinRate50] of the races of the
    entity [k] of that row, read at the number of its prior races; the
    race at that position is row [i] itself. *)
Lemma attached_nth (keys : list cell) (wn : list num) (i : nat) (k : cell) (own : num) :
  id_column keys = true -> length keys = length wn ->
  nth_error keys i = Some k -> nth_error wn i = Some own ->
  nth_error (map (entity_rate keys wn) (seq 0 (length wn))) i
  = nth_error (WinRate50 (get_group cell_eqb k (map group_key keys) wn))
              (group_pos cell_eqb k (firstn i (map group_key keys))) /\
  group_pos cell_eqb k (firstn i (map group_key keys))
  < length (get_group cell_eqb k (map group_key keys) wn) /\
  nth_error (get_group cell_eqb k (map group_key keys) wn)
            (group_pos cell_eqb k (firstn i (map group_key keys))) = Some own.
Proof.
  intros Hids Hlen Hk Hown.
  assert (Hi : i < length wn) by (apply nth_error_Some; congruence).
  assert (Hg : group_key k = Some k)
    by (exact (@id_group_key keys k Hids (nth_error_In _ _ Hk))).
  assert (Hgk : nth_error (map group_key keys) i = Some (Some k))
    by (rewrite nth_error_map, Hk; simpl; rewrite Hg; reflexivity).
  pose proof (@nth_error_get_group _ _ cell_eqb k (map group_key keys) wn i own
                (@group_key_refl _ _ Hg) Hgk Hown) as Hrace.
  assert (Hp : group_pos cell_eqb k (firstn i (map group_key keys))
               < length (get_group cell_eqb k (map group_key keys) wn))
    by (apply nth_error_Some; congruence).
  split; [|split; assumption].
  rewrite nth_error_map, nth_error_seq.
  pose proof Hi as Hi'. apply Nat.ltb_lt in Hi'. rewrite Hi'. cbn [option_map Nat.add].
  rewrite (nth_error_nth _ _ NA Hk).
  symmetry. apply nth_error_nth'. rewrite WinRate50_length. exact Hp.
Qed.

(** The same value, from the rows up to [i] alone: the window is cut from
    the earlier races of the entity and ends with the outcome of row [i]. *)
Lemma attached_window (keys : list cell) (wn : list num) (i : nat) (k : cell) (own : num) :
  id_column keys = true -> length keys = length wn ->
  nth_error keys i = Some k -> nth_error wn i = Some own ->
  nth_error (map (entity_rate keys wn) (seq 0 (length wn))) i
  = Some (let prior := get_group cell_eqb k (firstn i (map group_key keys)) (firstn i wn) in
          let obs := observations (skipn (length prior + 1 - 50) prior ++ [own])%list in
          if (length obs <? 10)%nat then NaN
          else Fin (Rsum obs / INR (length obs))).
Proof.
  intros Hids Hlen Hk Hown.
  destruct (@attached_nth keys wn i k own Hids Hlen Hk Hown) as (Hrate & Hp & Hrace).
  rewrite Hrate, (@WinRate50_nth _ _ Hp). cbv zeta.
  rewrite (@window_at_snoc 50 _ _ own) by (lia || exact Hrace).
  rewrite get_group_firstn.
  assert (Hl : length (firstn (group_pos cell_eqb k (firstn i (map group_key keys)))
                              (get_group cell_eqb k (map group_key keys) wn))
               = group_pos cell_eqb k (firstn i (map group_key keys)))
    by (rewrite length_firstn; lia).
  rewrite Hl. reflexivity.
Qed.







End WinRateFacts.
